(** * KeraDB explorer: the vector visualization component

    A shallow embedding of the [VectorVisualization] component (projection
    to 2D, view transform, pointer interaction, hover panel) and the
    properties its specification states about it, followed by further
    properties of the component and of the search box's [textToVector],
    which supplies its query vector.

    JavaScript's [number] is IEEE 754 binary64, which is exactly Rocq's
    primitive [float]: arithmetic, comparisons, infinities and NaN below are
    the ones the component runs on. *)

From Stdlib Require Import ZArith List Bool Lia Floats Permutation.
From Stdlib Require Uint63 String.
Import ListNotations.

Set Warnings "-inexact-float".
Local Open Scope float_scope.

(** ** JavaScript numbers *)

Module JS.

Definition number := float.

(** [a[i]] used in arithmetic: a missing entry is [undefined], which
    every arithmetic operator turns into NaN. *)
Definition idx (a : list number) (i : nat) : number := nth i a nan.

(** [a.length] (or a loop bound) used as a number. *)
Definition ofNat (n : nat) : number := of_uint63 (Uint63.of_Z (Z.of_nat n)).

Definition isNegZero (a : number) : bool :=
  match classify a with NZero => true | _ => false end.

Definition isPosZero (a : number) : bool :=
  match classify a with PZero => true | _ => false end.

(** [Math.min(a, b)]: NaN if either is NaN, and -0 below +0. *)
Definition Math_min (a b : number) : number :=
  if is_nan a || is_nan b then nan
  else if a <? b then a
  else if b <? a then b
  else if isNegZero a then a else b.

(** [Math.max(a, b)]: NaN if either is NaN, and +0 above -0. *)
Definition Math_max (a b : number) : number :=
  if is_nan a || is_nan b then nan
  else if b <? a then a
  else if a <? b then b
  else if isPosZero a then a else b.

Definition Math_sqrt (a : number) : number := PrimFloat.sqrt a.

(** [a ** 2] *)
Definition sq (a : number) : number := a * a.

(** A number is falsy when it is 0, -0 or NaN. *)
Definition truthy (a : number) : bool := negb (is_nan a || is_zero a).

(** [a || b] on numbers. *)
Definition orElse (a b : number) : number := if truthy a then a else b.

(** [a.map((x, i) => ...)] and [for (let i = 0; i < a.length; i++)] see
    the entries with their index. *)
Definition indexed {A : Type} (a : list A) : list (nat * A) :=
  combine (seq 0 (length a)) a.

Definition mapi {A B : Type} (f : A -> nat -> B) (a : list A) : list B :=
  map (fun p => f (snd p) (fst p)) (indexed a).

End JS.

Import JS.

(** ** Projection to 2D (simple PCA by power iteration) *)

Module Projection.

(** [Math.random()]: the k-th call of a run returns [rand k]. *)
Definition RandomSource := nat -> number.

(** [a.reduce((sum, x, i) => sum + x * b[i], 0)] *)
Definition dotProduct (a b : list number) : number :=
  fold_left (fun sum p => sum + snd p * idx b (fst p)) (indexed a) 0.

(** [new Array(dim).fill(0).map(() => Math.random() - 0.5)], starting at
    call number [k]. *)
Definition randomVector (rand : RandomSource) (k dim : nat) : list number :=
  map (fun j => rand (k + j)%nat - 0.5) (seq 0 dim).

(** [v.map(x => x / norm)] *)
Definition scaleDown (v : list number) (norm : number) : list number :=
  map (fun x => x / norm) v.

(** The body of [for (const row of data)]: [result[i] += row[i] * proj]. *)
Definition accumulate (data : list (list number)) (dim : nat)
    (v : list number) : list number :=
  fold_left
    (fun result row =>
       let proj := dotProduct row v in
       mapi (fun r i => r + idx row i * proj) result)
    data (repeat 0 dim).

(** The loop bound and the norm below which an iterate is not
    renormalised. *)
Definition ITERATIONS : nat := 50.
Definition EPS : number := 1e-10.

(** [Math.sqrt(dotProduct(v, v))] *)
Definition normOf (v : list number) : number :=
  Math_sqrt (dotProduct v v).

(** One round of the power iteration: [v] becomes [result / norm] when
    the norm exceeds [1e-10] and is kept otherwise. *)
Definition powerStep (data : list (list number)) (dim : nat)
    (v : list number) : list number :=
  let result := accumulate data dim v in
  let norm := normOf result in
  if EPS <? norm then scaleDown result norm else v.

(** Returns the axis and the number of the next [Math.random()] call. *)
Definition powerIteration (rand : RandomSource) (k : nat)
    (data : list (list number)) (dim : nat) : list number * nat :=
  let v := randomVector rand k dim in
  let norm := normOf v in
  let v := scaleDown v norm in
  (Nat.iter ITERATIONS (powerStep data dim) v, (k + dim)%nat).

(** [v.map((x, i) => x - proj1 * pc1[i])] with
    [proj1 = dotProduct(v, pc1)]. *)
Definition removeComponent (v pc1 : list number) : list number :=
  let proj1 := dotProduct v pc1 in
  mapi (fun x i => x - proj1 * idx pc1 i) v.

(** One round for the second axis: the component along [pc1] is removed
    before the norm is taken. *)
Definition powerStepOrthogonal (data : list (list number)) (dim : nat)
    (pc1 v : list number) : list number :=
  let result := accumulate data dim v in
  let result := removeComponent result pc1 in
  let norm := normOf result in
  if EPS <? norm then scaleDown result norm else v.

Definition powerIterationOrthogonal (rand : RandomSource) (k : nat)
    (data : list (list number)) (dim : nat) (pc1 : list number)
    : list number * nat :=
  let v := randomVector rand k dim in
  let v := removeComponent v pc1 in
  let norm := normOf v in
  let v := scaleDown v norm in
  (Nat.iter ITERATIONS (powerStepOrthogonal data dim pc1) v, (k + dim)%nat).

Record Projected := {
  projected : list (number * number);
  queryProjected : option (number * number)
}.

(** [mean[i] += v[i] / n] for every vector, in input order. *)
Definition meanOf (allVectors : list (list number)) (dim : nat)
    : list number :=
  let n := ofNat (length allVectors) in
  fold_left (fun mean v => mapi (fun m i => m + idx v i / n) mean)
    allVectors (repeat 0 dim).

(** [v.map((x, i) => x - mean[i])] *)
Definition center (mean v : list number) : list number :=
  mapi (fun x i => x - idx mean i) v.

(** [[dotProduct(v, pc1), dotProduct(v, pc2)]] *)
Definition project (pc1 pc2 v : list number) : number * number :=
  (dotProduct v pc1, dotProduct v pc2).

(** With a query vector, [projected.pop()] takes its pair off the end of
    the result. *)
Definition projectTo2D (rand : RandomSource) (vectors : list (list number))
    (queryVector : option (list number)) : Projected :=
  match vectors with
  | [] => {| projected := []; queryProjected := None |}
  | _ =>
    let allVectors :=
      match queryVector with
      | Some q => vectors ++ [q]
      | None => vectors
      end in
    let dim := length (hd [] allVectors) in
    let mean := meanOf allVectors dim in
    let centered := map (center mean) allVectors in
    let '(pc1, k) := powerIteration rand 0 centered dim in
    let '(pc2, _) := powerIterationOrthogonal rand k centered dim pc1 in
    let projected := map (project pc1 pc2) centered in
    match queryVector with
    | Some _ =>
      {| projected := removelast projected;
         queryProjected := Some (last projected (nan, nan)) |}
    | None => {| projected := projected; queryProjected := None |}
    end
  end.

End Projection.

Import Projection.

(** ** Props and state of the component *)

Module Component.

(** Ids are the store's integer keys; metadata is carried as its JSON
    text and never inspected by the code below. *)
Definition Metadata := String.string.

Record VectorDocument := {
  doc_id : Z;
  vector : list number;
  doc_metadata : option Metadata
}.

Record VectorSearchResult := {
  res_id : Z;
  res_score : number
}.

Record Point2D := {
  x : number;
  y : number;
  id : Z;
  metadata : option Metadata;
  isSearchResult : bool;
  score : option number;
  originalVector : list number
}.

Record State := {
  zoom : number;
  pan : number * number;
  isDragging : bool;
  dragStart : number * number;
  hoveredPoint : option Point2D;
  projectedPoints : list Point2D;
  queryPoint : option (number * number)
}.

(** [useState] initial values. *)
Definition initialState : State := {|
  zoom := 1;
  pan := (0, 0);
  isDragging := false;
  dragStart := (0, 0);
  hoveredPoint := None;
  projectedPoints := [];
  queryPoint := None
|}.

(** [new Map(searchResults.map(r => [r.id, r.score])).get(id)]: a later
    entry with the same id replaces an earlier one. *)
Definition scoreMapGet (searchResults : list VectorSearchResult) (i : Z)
    : option number :=
  option_map res_score
    (find (fun r => Z.eqb (res_id r) i) (rev searchResults)).

(** [new Set(searchResults.map(r => r.id)).has(id)] *)
Definition searchResultIdsHas (searchResults : list VectorSearchResult)
    (i : Z) : bool :=
  existsb (fun r => Z.eqb (res_id r) i) searchResults.

Definition toPoint (searchResults : list VectorSearchResult)
    (p : number * number) (v : VectorDocument) : Point2D := {|
  x := fst p;
  y := snd p;
  id := doc_id v;
  metadata := doc_metadata v;
  isSearchResult := searchResultIdsHas searchResults (doc_id v);
  score := scoreMapGet searchResults (doc_id v);
  originalVector := vector v
|}.

(** The effect that runs when [vectors], [searchResults] or [queryVector]
    change. [projected] has one entry per vector, so [vectors[i]] is
    always defined in the source's [projected.map((p, i) => ...)]. *)
Definition projectEffect (rand : RandomSource)
    (vectors : list VectorDocument)
    (searchResults : list VectorSearchResult)
    (queryVector : option (list number)) (st : State) : State :=
  match vectors with
  | [] =>
    {| zoom := zoom st; pan := pan st; isDragging := isDragging st;
       dragStart := dragStart st; hoveredPoint := hoveredPoint st;
       projectedPoints := []; queryPoint := None |}
  | _ =>
    let rawVectors := map vector vectors in
    let r := projectTo2D rand rawVectors queryVector in
    let points :=
      map (fun pv => toPoint searchResults (fst pv) (snd pv))
          (combine (projected r) vectors) in
    {| zoom := zoom st; pan := pan st; isDragging := isDragging st;
       dragStart := dragStart st; hoveredPoint := hoveredPoint st;
       projectedPoints := points; queryPoint := queryProjected r |}
  end.

End Component.

Import Component.

(** ** View transform (the draw effect's [transform]) *)

Module View.

Record Bounds := {
  minX : number; maxX : number;
  minY : number; maxY : number
}.

Definition emptyBounds : Bounds :=
  {| minX := infinity; maxX := neg_infinity;
     minY := infinity; maxY := neg_infinity |}.

Definition include (b : Bounds) (px py : number) : Bounds :=
  {| minX := Math_min (minX b) px; maxX := Math_max (maxX b) px;
     minY := Math_min (minY b) py; maxY := Math_max (maxY b) py |}.

(** [for (const p of projectedPoints) { minX = Math.min(minX, p.x) ... }] *)
Definition pointBounds (points : list Point2D) : Bounds :=
  fold_left (fun b p => include b (x p) (y p)) points emptyBounds.

(** The draw effect also folds the query point in. *)
Definition drawBounds (points : list Point2D)
    (q : option (number * number)) : Bounds :=
  match q with
  | Some (qx, qy) => include (pointBounds points) qx qy
  | None => pointBounds points
  end.

Definition padding : number := 40.

Definition rangeX (b : Bounds) : number := orElse (maxX b - minX b) 1.
Definition rangeY (b : Bounds) : number := orElse (maxY b - minY b) 1.

(** Position in the padded box, before zoom and pan. *)
Definition tx (b : Bounds) (width px : number) : number :=
  ((px - minX b) / rangeX b) * (width - 2 * padding) + padding.

Definition ty (b : Bounds) (height py : number) : number :=
  height - (((py - minY b) / rangeY b) * (height - 2 * padding) + padding).

Definition transform (b : Bounds) (width height zoom : number)
    (pan : number * number) (px py : number) : number * number :=
  let tx := tx b width px in
  let ty := ty b height py in
  let cx := width / 2 in
  let cy := height / 2 in
  let zoomedX := (tx - cx) * zoom + cx + fst pan in
  let zoomedY := (ty - cy) * zoom + cy + snd pan in
  (zoomedX, zoomedY).

End View.

Import View.

(** ** Pointer interaction *)

Module Interaction.

Record MouseEvent := { clientX : number; clientY : number }.

(** [canvas.getBoundingClientRect()] *)
Record Rect := {
  left : number; top : number;
  width : number; height : number
}.

Definition withZoom (st : State) (z : number) : State :=
  {| zoom := z; pan := pan st; isDragging := isDragging st;
     dragStart := dragStart st; hoveredPoint := hoveredPoint st;
     projectedPoints := projectedPoints st; queryPoint := queryPoint st |}.

Definition withPan (st : State) (p : number * number) : State :=
  {| zoom := zoom st; pan := p; isDragging := isDragging st;
     dragStart := dragStart st; hoveredPoint := hoveredPoint st;
     projectedPoints := projectedPoints st; queryPoint := queryPoint st |}.

Definition withHovered (st : State) (h : option Point2D) : State :=
  {| zoom := zoom st; pan := pan st; isDragging := isDragging st;
     dragStart := dragStart st; hoveredPoint := h;
     projectedPoints := projectedPoints st; queryPoint := queryPoint st |}.

Definition handleMouseDown (st : State) (e : MouseEvent) : State :=
  {| zoom := zoom st; pan := pan st; isDragging := true;
     dragStart := (clientX e - fst (pan st), clientY e - snd (pan st));
     hoveredPoint := hoveredPoint st;
     projectedPoints := projectedPoints st; queryPoint := queryPoint st |}.

Definition handleMouseUp (st : State) : State :=
  {| zoom := zoom st; pan := pan st; isDragging := false;
     dragStart := dragStart st; hoveredPoint := hoveredPoint st;
     projectedPoints := projectedPoints st; queryPoint := queryPoint st |}.

(** Device position of a point as the hover loop computes it: the bounds
    are those of the projected points alone. *)
Definition hoverPosition (points : list Point2D) (w h zoom : number)
    (pan : number * number) (point : Point2D) : number * number :=
  let b := pointBounds points in
  let rangeX := orElse (maxX b - minX b) 1 in
  let rangeY := orElse (maxY b - minY b) 1 in
  let tx := ((x point - minX b) / rangeX) * (w - 2 * padding) + padding in
  let ty := h - (((y point - minY b) / rangeY) * (h - 2 * padding) + padding) in
  let cx := w / 2 in
  let cy := h / 2 in
  ((tx - cx) * zoom + cx + fst pan, (ty - cy) * zoom + cy + snd pan).

Definition distanceTo (mouseX mouseY : number) (pos : number * number)
    : number :=
  Math_sqrt (sq (mouseX - fst pos) + sq (mouseY - snd pos)).

(** One round of [for (const point of projectedPoints)]: the pair is
    [(closest, closestDist)]. *)
Definition scanStep (dist : Point2D -> number)
    (acc : option Point2D * number) (point : Point2D)
    : option Point2D * number :=
  let d := dist point in
  if d <? snd acc then (Some point, d) else acc.

Definition scan (dist : Point2D -> number) (points : list Point2D)
    (threshold : number) : option Point2D * number :=
  fold_left (scanStep dist) points (None, threshold).

Definition hoverDistance (points : list Point2D) (w h zoom : number)
    (pan : number * number) (mouseX mouseY : number) (point : Point2D)
    : number :=
  distanceTo mouseX mouseY (hoverPosition points w h zoom pan point).

(** The hover search of [handleMouseMove]. *)
Definition hitTest (mouseX mouseY : number) (points : list Point2D)
    (w h zoom : number) (pan : number * number) : option Point2D :=
  fst (scan (hoverDistance points w h zoom pan mouseX mouseY) points
            (20 * zoom)).

(** [canvas] is [canvasRef.current]'s rectangle, [None] before mount. *)
Definition handleMouseMove (canvas : option Rect) (st : State)
    (e : MouseEvent) : State :=
  match canvas with
  | None => st
  | Some rect =>
    let mouseX := clientX e - left rect in
    let mouseY := clientY e - top rect in
    if isDragging st then
      withPan st (clientX e - fst (dragStart st),
                  clientY e - snd (dragStart st))
    else
      match projectedPoints st with
      | [] => st
      | _ =>
        withHovered st
          (hitTest mouseX mouseY (projectedPoints st)
                   (width rect) (height rect) (zoom st) (pan st))
      end
  end.

(** What a click hands to [onVectorClick]; [None] when it is not called.
    [hasCallback] tells whether the prop was supplied. *)
Definition handleClick (hasCallback : bool) (vectors : list VectorDocument)
    (st : State) : option VectorDocument :=
  match hoveredPoint st with
  | Some hp =>
    if hasCallback then find (fun v => Z.eqb (doc_id v) (id hp)) vectors
    else None
  | None => None
  end.

Record WheelEvent := { deltaY : number }.

Definition handleWheel (st : State) (e : WheelEvent) : State :=
  let delta := if 0 <? deltaY e then 0.9 else 1.1 in
  withZoom st (Math_max 0.2 (Math_min 5 (zoom st * delta))).

Definition handleZoomIn (st : State) : State :=
  withZoom st (Math_min (zoom st * 1.2) 5).

Definition handleZoomOut (st : State) : State :=
  withZoom st (Math_max (zoom st / 1.2) 0.2).

Definition handleReset (st : State) : State :=
  withPan (withZoom st 1) (0, 0).

End Interaction.

Import Interaction.

(** ** The hover panel of the draw effect *)

Module Render.

Record Panel := {
  infoX : number; infoY : number;
  panelWidth : number; panelHeight : number
}.

(** [ctx.fillRect(infoX, infoY, 170, 55)] for a hovered point drawn at
    device position [(px, py)]. *)
Definition infoBox (width : number) (px py : number) : Panel :=
  {| infoX := Math_min (px + 15) (width - 180);
     infoY := Math_max (py - 60) 10;
     panelWidth := 170; panelHeight := 55 |}.

Definition panelLeft (p : Panel) : number := infoX p.
Definition panelRight (p : Panel) : number := infoX p + panelWidth p.
Definition panelTop (p : Panel) : number := infoY p.
Definition panelBottom (p : Panel) : number := infoY p + panelHeight p.

(** The panel the draw effect paints, if any: none without a hovered
    point, and none when there are no points (the effect returns after
    the "No vectors to display" text). *)
Definition hoverPanel (st : State) (width height : number) : option Panel :=
  match projectedPoints st with
  | [] => None
  | _ =>
    match hoveredPoint st with
    | Some hp =>
      let b := drawBounds (projectedPoints st) (queryPoint st) in
      let pos := transform b width height (zoom st) (pan st) (x hp) (y hp) in
      Some (infoBox width (fst pos) (snd pos))
    | None => None
    end
  end.

End Render.

Import Render.


(** ** The component as a machine driven by events *)

Module Machine.

Inductive Event :=
| MouseDown (e : MouseEvent)
| MouseMove (canvas : option Rect) (e : MouseEvent)
| MouseUp
| MouseLeave
| Click
| Wheel (e : WheelEvent)
| ZoomIn
| ZoomOut
| Reset
| PropsChange (rand : RandomSource) (vectors : list VectorDocument)
    (searchResults : list VectorSearchResult)
    (queryVector : option (list number)).

(** The state after the handler of an event has run and the component has
    rendered again. A click only reports to [onVectorClick].
    [PropsChange] is one run of the projection effect, with the props of
    that render. React runs the effect after a render in which
    [vectors], [searchResults] or [queryVector] is a new object; a
    parent that leaves [searchResults] out has every render take the
    fresh default [[]], and the effect then runs after every render.
    When the effect runs is thus not the component's to decide: a trace
    may hold a [PropsChange] at any place. *)
Definition step (st : State) (ev : Event) : State :=
  match ev with
  | MouseDown e => handleMouseDown st e
  | MouseMove canvas e => handleMouseMove canvas st e
  | MouseUp | MouseLeave => handleMouseUp st
  | Click => st
  | Wheel e => handleWheel st e
  | ZoomIn => handleZoomIn st
  | ZoomOut => handleZoomOut st
  | Reset => handleReset st
  | PropsChange rand vectors searchResults queryVector =>
    projectEffect rand vectors searchResults queryVector st
  end.

Definition run (events : list Event) : State :=
  fold_left step events initialState.

End Machine.

Import Machine.

(** ** Notions used in the statements *)

Module Notions.

(** *** Numbers *)

(** [a] and [b] are the same number: equal, or both NaN. Zeros of either
    sign are the same number. *)
Definition numEq (a b : number) : bool :=
  (a =? b) || (is_nan a && is_nan b).

(** The comparison of two numbers, read off their specification. *)
Definition cmp (a b : number) : option comparison :=
  SFcompare (Prim2SF a) (Prim2SF b).

(** The same notions on specification floats. *)
Definition SFnumEq (a b : spec_float) : Prop :=
  SFcompare a b = Some Eq \/ (a = S754_nan /\ b = S754_nan).

(** Neither NaN nor an infinity. *)
Definition SFfinite (a : spec_float) : Prop :=
  match a with
  | S754_zero _ | S754_finite _ _ _ => True
  | _ => False
  end.

(** A zero of either sign. *)
Definition SFzero (a : spec_float) : Prop :=
  match a with S754_zero _ => True | _ => False end.

Local Open Scope Z_scope.

(** The lowest exponent of binary64. *)
Definition emin64 : Z := -1074.

(** The mantissa [m] at exponent [e] is in canonical form and below
    overflow. *)
Definition canonical (m : positive) (e : Z) : Prop :=
  Z.max (Zpos (digits2_pos m) + e - 53) (-1074) = e /\ e <= 971.

(** Mantissas of 0.2 (exponent -55), 5 (exponent -50) and 1.2 (exponent
    -52). *)
Definition mantissa_0_2 : positive := 7205759403792794.
Definition mantissa_5 : positive := 5629499534213120.
Definition mantissa_1_2 : positive := 5404319552844595.

Local Close Scope Z_scope.

(** *** Zoom *)

(** [0.2 <= z <= 5] *)
Definition inRange (z : number) : bool := (0.2 <=? z) && (z <=? 5).

(** [Math.max(lo, Math.min(hi, v))] *)
Definition clamp (lo hi v : number) : number :=
  Math_max lo (Math_min hi v).

(** *** Hit-testing *)

(** Distance in device space between the pointer and a point as drawn:
    the point is placed by the draw effect's transform, whose bounds take
    in the points and the query point [q]. *)
Definition deviceDistance (mouseX mouseY : number) (points : list Point2D)
    (q : option (number * number)) (w h zoom : number)
    (pan : number * number) (p : Point2D) : number :=
  distanceTo mouseX mouseY
    (transform (drawBounds points q) w h zoom pan (x p) (y p)).

(** What [closest] is among the points already visited: below the
    threshold, with no point strictly closer and no earlier point as
    close; or nothing, when no point is below the threshold. *)
Definition Nearest (dist : Point2D -> number) (threshold : number)
    (seen : list Point2D) (closest : option Point2D) : Prop :=
  match closest with
  | Some p =>
    (dist p <? threshold) = true /\
    exists i,
      nth_error seen i = Some p /\
      (forall q, In q seen -> (dist q <? dist p) = false) /\
      (forall j q, (j < i)%nat -> nth_error seen j = Some q ->
                   (dist q <=? dist p) = false)
  | None => forall q, In q seen -> (dist q <? threshold) = false
  end.

(** What the pair [(closest, closestDist)] records after the points
    [seen]. *)
Definition Recorded (dist : Point2D -> number) (threshold : number)
    (seen : list Point2D) (acc : option Point2D * number) : Prop :=
  snd acc = match fst acc with Some p => dist p | None => threshold end
  /\ Nearest dist threshold seen (fst acc).

(** *** Projection *)

(** The basis one call of [projectTo2D] works with: the working set, its
    mean, the centred rows and the two axes. *)
Definition workingSet (vectors : list (list number))
    (queryVector : option (list number)) : list (list number) :=
  match queryVector with
  | Some q => vectors ++ [q]
  | None => vectors
  end.

Definition dimOf (allVectors : list (list number)) : nat :=
  length (hd [] allVectors).

Definition meanIn (vectors : list (list number))
    (queryVector : option (list number)) : list number :=
  meanOf (workingSet vectors queryVector)
         (dimOf (workingSet vectors queryVector)).

Definition centeredIn (vectors : list (list number))
    (queryVector : option (list number)) : list (list number) :=
  map (center (meanIn vectors queryVector)) (workingSet vectors queryVector).

Definition axis1 (rand : RandomSource) (vectors : list (list number))
    (queryVector : option (list number)) : list number :=
  fst (powerIteration rand 0 (centeredIn vectors queryVector)
         (dimOf (workingSet vectors queryVector))).

Definition axis2 (rand : RandomSource) (vectors : list (list number))
    (queryVector : option (list number)) : list number :=
  fst (powerIterationOrthogonal rand
         (dimOf (workingSet vectors queryVector))
         (centeredIn vectors queryVector)
         (dimOf (workingSet vectors queryVector))
         (axis1 rand vectors queryVector)).

(** The projection a vector receives in that call. *)
Definition projectionOf (rand : RandomSource) (vectors : list (list number))
    (queryVector : option (list number)) (v : list number)
    : number * number :=
  project (axis1 rand vectors queryVector) (axis2 rand vectors queryVector)
          (center (meanIn vectors queryVector) v).

(** Every entry of the row is a zero. *)
Definition zeroRow (row : list number) : bool := forallb is_zero row.

(** The axis has a finite entry at every position of the row. *)
Definition finiteAlong (axis row : list number) : bool :=
  forallb (fun i => is_finite (idx axis i)) (seq 0 (length row)).

(** Every entry of the vector is finite. *)
Definition allFinite (v : list number) : bool := forallb is_finite v.

End Notions.

Import Notions.

(** ** Sample inputs *)

Module Samples.

Definition plainPoint (px py : number) (i : Z) : Point2D :=
  {| x := px; y := py; id := i; metadata := None;
     isSearchResult := false; score := None; originalVector := [] |}.

(** Two points spanning x in [0.1, 0.7] and y in [-1, 1]. *)
Definition spanPoints : list Point2D :=
  [plainPoint 0.1 (-1) 1; plainPoint 0.7 1 2].

(** Points (0,0) and (1,1), to be shown with a query point at (2,2). *)
Definition queryShown : list Point2D :=
  [plainPoint 0 0 1; plainPoint 1 1 2].

(** The box [-1, 1] x [-1, 1]: its centre [(0,0)] sits at the centre of
    a 600 by 300 viewport. *)
Definition unitBox : Bounds :=
  {| minX := -1; maxX := 1; minY := -1; maxY := 1 |}.

Definition canvas600 : Rect :=
  {| left := 0; top := 0; width := 600; height := 300 |}.

Definition moveTo (px py : number) : MouseEvent :=
  {| clientX := px; clientY := py |}.

(** A drag in progress over [spanPoints], grabbed at (50, 250) with pan
    (0,0); nothing is hovered. *)
Definition draggingState : State :=
  {| zoom := 1; pan := (0, 0); isDragging := true;
     dragStart := (50, 250); hoveredPoint := None;
     projectedPoints := spanPoints; queryPoint := None |}.

(** Zoomed in to 5 and panned so that the first of [spanPoints] is drawn
    at (-50, 100), left of the canvas. *)
Definition zoomedState : State :=
  {| zoom := 5; pan := (950, -600); isDragging := false;
     dragStart := (0, 0); hoveredPoint := None;
     projectedPoints := spanPoints; queryPoint := None |}.

(** The first of [spanPoints] hovered at zoom 1, pan (0,0): it is drawn
    at (40, 260) and its panel starts at (55, 200). *)
Definition hoveringState : State :=
  {| zoom := 1; pan := (0, 0); isDragging := false;
     dragStart := (0, 0); hoveredPoint := Some (plainPoint 0.1 (-1) 1);
     projectedPoints := spanPoints; queryPoint := None |}.

(** A fixed run of [Math.random()] results. *)
Definition draws : RandomSource :=
  fun k => nth k [0.75; 0.25; 0.125; 0.9] 0.5.

(** Ten copies of [[0.1, 0.2]]. *)
Definition tenCopies : list (list number) := repeat [0.1; 0.2] 10.

End Samples.

Import Samples.

(** ** More sample inputs *)

Module Batches.

(** Two stored vectors, the first of them twice among three search
    results. *)
Definition twoDocuments : list VectorDocument :=
  [ {| doc_id := 7; vector := [1; 0]; doc_metadata := None |};
    {| doc_id := 9; vector := [0; 1]; doc_metadata := None |} ].

Definition threeResults : list VectorSearchResult :=
  [ {| res_id := 7; res_score := 0.25 |};
    {| res_id := 3; res_score := 0.5 |};
    {| res_id := 7; res_score := 0.75 |} ].

(** The first point shown for [twoDocuments] with [threeResults]. *)
Definition firstShown : Point2D :=
  nth 0 (projectedPoints
           (projectEffect draws twoDocuments threeResults None initialState))
      (plainPoint 0 0 0).

(** Three stored vectors, searched with the query vector [[3, 3]]: the
    state after the projection effect has run once. *)
Definition threeDocuments : list VectorDocument :=
  [ {| doc_id := 1; vector := [1; 0]; doc_metadata := None |};
    {| doc_id := 2; vector := [0; 1]; doc_metadata := None |};
    {| doc_id := 3; vector := [1; 1]; doc_metadata := None |} ].

Definition oneResult : list VectorSearchResult :=
  [ {| res_id := 3; res_score := 0.5 |} ].

Definition searchedState : State :=
  run [PropsChange draws threeDocuments oneResult (Some [3; 3])].

(** [twoDocuments] are shown, the plot is dragged 58 to the left, and
    the pointer comes to rest at the left border, 18 from the second
    point. *)
Definition leftTrace : list Event :=
  [PropsChange draws twoDocuments [] None;
   MouseDown (moveTo 100 100); MouseMove (Some canvas600) (moveTo 42 100);
   MouseUp; MouseMove (Some canvas600) (moveTo 0 260)].

(** The same with a drag 58 down, the pointer resting at the bottom
    border, 19 from the second point. *)
Definition bottomTrace : list Event :=
  [PropsChange draws twoDocuments [] None;
   MouseDown (moveTo 100 100); MouseMove (Some canvas600) (moveTo 100 158);
   MouseUp; MouseMove (Some canvas600) (moveTo 40 299)].

End Batches.

Import Batches.

(** ** Notions on event traces *)

Module Traces.

(** The event neither starts a drag nor ends one. *)
Definition keepsGrip (ev : Event) : bool :=
  match ev with
  | MouseDown _ | MouseUp | MouseLeave => false
  | _ => true
  end.

(** The event is neither a press of the mouse button nor the reset
    button. *)
Definition leavesPan (ev : Event) : bool :=
  match ev with
  | MouseDown _ | Reset => false
  | _ => true
  end.

(** The event is a change of the props. *)
Definition isPropsChange (ev : Event) : bool :=
  match ev with
  | PropsChange _ _ _ _ => true
  | _ => false
  end.

(** The events of user interaction in a trace. *)
Definition interaction (events : list Event) : list Event :=
  filter (fun ev => negb (isPropsChange ev)) events.

(** The part of the state that places the plot in the canvas and tracks
    a drag. *)
Definition viewOf (st : State)
    : number * (number * number) * bool * (number * number) :=
  (zoom st, pan st, isDragging st, dragStart st).

End Traces.

Import Traces.

(** ** Notions on bounds and placement *)

Module Placement.

(** Both coordinates of the point are numbers. *)
Definition definedAt (p : Point2D) : bool :=
  negb (is_nan (x p)) && negb (is_nan (y p)).

(** The query point, when there is one, has two numbers as
    coordinates. *)
Definition definedQuery (q : option (number * number)) : bool :=
  match q with
  | Some (qx, qy) => negb (is_nan qx) && negb (is_nan qy)
  | None => true
  end.

(** No bound is NaN. *)
Definition definedBounds (b : Bounds) : bool :=
  negb (is_nan (minX b)) && negb (is_nan (maxX b)) &&
  negb (is_nan (minY b)) && negb (is_nan (maxY b)).

(** [(px, py)] lies in the box. *)
Definition inBounds (b : Bounds) (px py : number) : bool :=
  (minX b <=? px) && (px <=? maxX b) &&
  (minY b <=? py) && (py <=? maxY b).

(** The box [inner] lies in the box [outer]. *)
Definition within (outer inner : Bounds) : bool :=
  (minX outer <=? minX inner) && (maxX inner <=? maxX outer) &&
  (minY outer <=? minY inner) && (maxY inner <=? maxY outer).

(** A device position with a NaN coordinate: the canvas draws nothing
    there. *)
Definition offCanvas (pos : number * number) : bool :=
  is_nan (fst pos) || is_nan (snd pos).

(** The bottom left corner of the padded area, after zoom and pan. *)
Definition paddedCorner (w h zoom : number) (pan : number * number)
    : number * number :=
  ((padding - w / 2) * zoom + w / 2 + fst pan,
   (h - padding - h / 2) * zoom + h / 2 + snd pan).

(** Three points at (0.5, -2). *)
Definition stackedPoints : list Point2D :=
  [plainPoint 0.5 (-2) 1; plainPoint 0.5 (-2) 2; plainPoint 0.5 (-2) 3].

(** [spanPoints] and a point whose y is NaN. *)
Definition brokenPoints : list Point2D :=
  spanPoints ++ [plainPoint 0.3 nan 3].

End Placement.

Import Placement.

(** ** Notions on the shape of a batch *)

Module Shapes.

(** Some vector of the working set is shorter than both the first vector
    and [v]. *)
Definition shorterThan (all : list (list number)) (v : list number) : bool :=
  existsb (fun w => (length w <? dimOf all)%nat &&
                    (length w <? length v)%nat) all.

(** [v] does not fit a working set of vectors of one length: a shorter
    vector leaves a gap below its end, or it is longer than the first
    vector. *)
Definition outOfShape (all : list (list number)) (v : list number) : bool :=
  shorterThan all v || (dimOf all <? length v)%nat.

(** A batch whose second vector lacks an entry. *)
Definition raggedBatch : list (list number) := [[1; 2]; [3]].

End Shapes.

Import Shapes.

(** ** The search box of the explorer page: text to query vector *)

Module Explorer.

Local Open Scope Z_scope.

(** A string is the list of its UTF-16 code units. *)
Definition CodeUnit := Z.

(** The characters that [\s] matches. *)
Definition isWhiteSpace (c : CodeUnit) : bool :=
  ((9 <=? c) && (c <=? 13)) || (c =? 32) || (c =? 160) || (c =? 5760) ||
  ((8192 <=? c) && (c <=? 8202)) || (c =? 8232) || (c =? 8233) ||
  (c =? 8239) || (c =? 8287) || (c =? 12288) || (c =? 65279).

(** [text.split(/\s+/)]: [cur] is the piece being read, last character
    first, and [inGap] tells whether a run of white space is being
    skipped. A text that starts or ends with white space gives an empty
    first or last piece. *)
Fixpoint splitFrom (cur : list CodeUnit) (inGap : bool)
    (text : list CodeUnit) : list (list CodeUnit) :=
  match text with
  | [] => [rev cur]
  | c :: rest =>
    if isWhiteSpace c then
      if inGap then splitFrom [] true rest
      else rev cur :: splitFrom [] true rest
    else splitFrom (c :: cur) false rest
  end.

(** [.filter(w => w.length > 1)] of the pieces. *)
Definition wordsOf (lowered : list CodeUnit) : list (list CodeUnit) :=
  filter (fun w => (1 <? length w)%nat) (splitFrom [] false lowered).

(** [ToInt32]: the 32-bit two's complement reading of an integer. *)
Definition toInt32 (z : Z) : Z := (z + 2 ^ 31) mod 2 ^ 32 - 2 ^ 31.

(** [hash = ((hash << 5) - hash) + c; hash = hash & hash] *)
Definition hashStep (hash : Z) (c : CodeUnit) : Z :=
  toInt32 (toInt32 (hash * 32) - hash + c).

Definition hashOf (word : list CodeUnit) : Z := fold_left hashStep word 0.

(** [Math.abs(hash) % dimensions]; with [dimensions = 0] the result is
    NaN, which is no index of the array. *)
Definition bucket (word : list CodeUnit) (dimensions : nat) : option nat :=
  match dimensions with
  | O => None
  | _ => Some (Z.to_nat (Z.abs (hashOf word) mod Z.of_nat dimensions))
  end.

Local Close Scope Z_scope.

(** [vector[idx] += 1]. The index is a bucket, taken modulo the length
    of the array, so the write stays inside it. *)
Fixpoint bump (vector : list number) (idx : nat) : list number :=
  match vector, idx with
  | [], _ => []
  | a :: rest, O => (a + 1) :: rest
  | a :: rest, S i => a :: bump rest i
  end.

(** The body of [for (const word of words)]. *)
Definition countWord (dimensions : nat) (vector : list number)
    (word : list CodeUnit) : list number :=
  match bucket word dimensions with
  | Some i => bump vector i
  | None => vector
  end.

(** [Math.sqrt(vector.reduce((sum, x) => sum + x * x, 0))] *)
Definition normOfCounts (vector : list number) : number :=
  Math_sqrt (fold_left (fun sum a => sum + a * a) vector 0).

(** [lowered] is [text.toLowerCase()]. *)
Definition textToVector (lowered : list CodeUnit) (dimensions : nat)
    : list number :=
  let vector :=
    fold_left (countWord dimensions) (wordsOf lowered)
              (repeat 0 dimensions) in
  let norm := normOfCounts vector in
  if 0 <? norm then map (fun a => a / norm) vector else vector.

(** The texts ["ab cd"], ["cd  ab "] and ["a b c"]. *)
Definition text_ab_cd : list CodeUnit := [97; 98; 32; 99; 100]%Z.
Definition text_cd_ab : list CodeUnit := [99; 100; 32; 32; 97; 98; 32]%Z.
Definition text_a_b_c : list CodeUnit := [97; 32; 98; 32; 99]%Z.

End Explorer.

Import Explorer.

(** ** Exact values of binary64 numbers *)

Module Exact.

Local Open Scope Z_scope.

(** A finite binary64 number is a whole multiple of [2 ^ -1074], the
    smallest positive one: [unitsSF] is that multiple (0 for the
    infinities and NaN). *)
Definition unitsSF (f : spec_float) : Z :=
  match f with
  | S754_finite s m e => cond_Zopp s (Zpos m) * 2 ^ (e + 1074)
  | _ => 0
  end.

Definition units (a : number) : Z := unitsSF (Prim2SF a).

(** The multiple [u] of [2 ^ -1074], rounded to binary64. *)
Definition roundUnits (u : Z) : spec_float :=
  binary_normalize prec emax u (-1074) false.

(** [c] is exactly halfway between [a] and [b], all three finite. *)
Definition midpoint (a b c : number) : bool :=
  is_finite a && is_finite b && is_finite c &&
  (2 * units c =? units a + units b).

Local Close Scope Z_scope.

(** The point [(px, py)] is exactly at the centre of the box. *)
Definition atCentre (b : Bounds) (px py : number) : bool :=
  midpoint (minX b) (maxX b) px && midpoint (minY b) (maxY b) py.

(** The range from [a] to [b], as the code computes it, is finite and
    not zero. *)
Definition properRange (a b : number) : bool :=
  is_finite (b - a) && negb (is_zero (b - a)).

Definition properBox (b : Bounds) : bool :=
  properRange (minX b) (maxX b) && properRange (minY b) (maxY b).

(** A viewport side of at least 32 and at most [2 ^ 53] pixels. *)
Definition roomy (side : number) : bool :=
  (32 <=? side) && (side <=? 9007199254740992).

(** A box as wide as binary64 allows: its x range overflows. *)
Definition wideBox : Bounds :=
  {| minX := -1.5e308; maxX := 1.5e308; minY := -1; maxY := 1 |}.

End Exact.

Import Exact.

(** ** Facts about binary64 comparisons *)

Module FloatFacts.

Ltac cmp_cases :=
  repeat match goal with
  | |- context [Z.compare ?a ?b] => destruct (Z.compare_spec a b)
  | |- context [Pos.compare_cont Eq ?a ?b] =>
      change (Pos.compare_cont Eq a b) with (Pos.compare a b);
      destruct (Pos.compare_spec a b)
  end.

Ltac sf_cases a b c :=
  destruct a as [[]|[]| |[] ?ma ?ea], b as [[]|[]| |[] ?mb ?eb],
           c as [[]|[]| |[] ?mc ?ec]; simpl; try congruence;
  cmp_cases; simpl; intros; subst; try congruence; try lia.

Lemma SFcompare_lt_trans (a b c : spec_float) :
  SFcompare a b = Some Lt -> SFcompare b c = Some Lt ->
  SFcompare a c = Some Lt.
Proof. sf_cases a b c. Qed.

Lemma SFcompare_eq_lt_trans (a b c : spec_float) :
  SFcompare a b = Some Eq -> SFcompare b c = Some Lt ->
  SFcompare a c = Some Lt.
Proof. sf_cases a b c. Qed.

Lemma SFcompare_lt_eq_trans (a b c : spec_float) :
  SFcompare a b = Some Lt -> SFcompare b c = Some Eq ->
  SFcompare a c = Some Lt.
Proof. sf_cases a b c. Qed.

Lemma SFcompare_eq_trans (a b c : spec_float) :
  SFcompare a b = Some Eq -> SFcompare b c = Some Eq ->
  SFcompare a c = Some Eq.
Proof. sf_cases a b c. Qed.

Lemma SFcompare_antisym (a b : spec_float) :
  SFcompare b a = option_map CompOpp (SFcompare a b).
Proof.
  destruct a as [[]|[]| |[] ma ea], b as [[]|[]| |[] mb eb]; simpl;
    try reflexivity;
    rewrite (Z.compare_antisym ea eb); destruct (ea ?= eb)%Z; simpl;
    try reflexivity;
    change (Pos.compare_cont Eq mb ma) with (Pos.compare mb ma);
    change (Pos.compare_cont Eq ma mb) with (Pos.compare ma mb);
    rewrite (Pos.compare_antisym ma mb);
    destruct (ma ?= mb)%positive; reflexivity.
Qed.

Lemma SFcompare_refl (a : spec_float) :
  SFcompare a a = match a with S754_nan => None | _ => Some Eq end.
Proof.
  destruct a as [[]|[]| |[] ma ea]; simpl; try reflexivity;
    rewrite Z.compare_refl;
    change (Pos.compare_cont Eq ma ma) with (Pos.compare ma ma);
    rewrite Pos.compare_refl; reflexivity.
Qed.

Lemma ltb_cmp a b : (a <? b) = true <-> cmp a b = Some Lt.
Proof.
  rewrite ltb_spec. unfold SFltb, cmp.
  destruct (SFcompare _ _) as [[]|]; split; congruence.
Qed.

Lemma eqb_cmp a b : (a =? b) = true <-> cmp a b = Some Eq.
Proof.
  rewrite eqb_spec. unfold SFeqb, cmp.
  destruct (SFcompare _ _) as [[]|]; split; congruence.
Qed.

Lemma leb_cmp a b :
  (a <=? b) = true <-> cmp a b = Some Lt \/ cmp a b = Some Eq.
Proof.
  rewrite leb_spec. unfold SFleb, cmp.
  destruct (SFcompare _ _) as [[]|]; split;
    solve [ intuition congruence ].
Qed.

Lemma ltb_trans a b c :
  (a <? b) = true -> (b <? c) = true -> (a <? c) = true.
Proof. rewrite !ltb_cmp. apply SFcompare_lt_trans. Qed.

Lemma leb_ltb_trans a b c :
  (a <=? b) = true -> (b <? c) = true -> (a <? c) = true.
Proof.
  rewrite leb_cmp, !ltb_cmp. intros [H|H] H'.
  - exact (SFcompare_lt_trans _ _ _ H H').
  - exact (SFcompare_eq_lt_trans _ _ _ H H').
Qed.

Lemma ltb_leb_trans a b c :
  (a <? b) = true -> (b <=? c) = true -> (a <? c) = true.
Proof.
  rewrite leb_cmp, !ltb_cmp. intros H [H'|H'].
  - exact (SFcompare_lt_trans _ _ _ H H').
  - exact (SFcompare_lt_eq_trans _ _ _ H H').
Qed.

Lemma ltb_irrefl a : (a <? a) = false.
Proof.
  destruct (a <? a) eqn:E; [|reflexivity].
  apply ltb_cmp in E. unfold cmp in E. rewrite SFcompare_refl in E.
  destruct (Prim2SF a); discriminate.
Qed.

Lemma ltb_not_leb a b : (a <? b) = true -> (b <=? a) = false.
Proof.
  intros H. destruct (b <=? a) eqn:E; [|reflexivity].
  rewrite <- (ltb_irrefl a). symmetry. exact (ltb_leb_trans _ _ _ H E).
Qed.

End FloatFacts.

Import FloatFacts.

(** ** Hit-testing *)

Module HitTest.

Section Scan.

Variable dist : Point2D -> number.
Variable threshold : number.

Lemma not_below (a b c : number) :
  (a <? c) = false -> (b <? c) = true -> (a <=? b) = false.
Proof.
  intros Hac Hbc. destruct (a <=? b) eqn:E; [|reflexivity].
  rewrite (leb_ltb_trans _ _ _ E Hbc) in Hac. discriminate.
Qed.

Lemma not_below_strict (a b c : number) :
  (a <? c) = false -> (b <? c) = true -> (a <? b) = false.
Proof.
  intros Hac Hbc. destruct (a <? b) eqn:E; [|reflexivity].
  rewrite (ltb_trans _ _ _ E Hbc) in Hac. discriminate.
Qed.

Lemma Recorded_step seen acc point :
  Recorded dist threshold seen acc ->
  Recorded dist threshold (seen ++ [point]) (scanStep dist acc point).
Proof.
  intros [Hd Hn]. unfold scanStep.
  destruct (dist point <? snd acc) eqn:Hlt.
  - (* the new point becomes the closest *)
    split; [reflexivity|]. simpl.
    assert (Hthr : (dist point <? threshold) = true).
    { destruct (fst acc) as [p|]; simpl in *.
      - destruct Hn as [Hp _]. rewrite Hd in Hlt.
        exact (ltb_trans _ _ _ Hlt Hp).
      - rewrite Hd in Hlt. exact Hlt. }
    assert (Hall : forall q, In q seen -> (dist q <? snd acc) = false).
    { rewrite Hd. destruct (fst acc) as [p|]; simpl in *.
      - destruct Hn as [_ [i [_ [Hmin _]]]]. exact Hmin.
      - exact Hn. }
    split; [exact Hthr|].
    exists (length seen). split; [|split].
    + rewrite nth_error_app2, Nat.sub_diag by lia. reflexivity.
    + intros q Hq. apply in_app_or in Hq. destruct Hq as [Hq|[<-|[]]].
      * exact (not_below_strict _ _ _ (Hall q Hq) Hlt).
      * apply ltb_irrefl.
    + intros j q Hj Hq. rewrite nth_error_app1 in Hq by exact Hj.
      apply nth_error_In in Hq.
      exact (not_below _ _ _ (Hall q Hq) Hlt).
  - (* the closest so far is kept *)
    split; [exact Hd|].
    destruct acc as [[p|] cd]; simpl in *; subst cd.
    + destruct Hn as [Hp [i [Hi [Hmin Hfirst]]]].
      split; [exact Hp|]. exists i. split; [|split].
      * rewrite nth_error_app1; [exact Hi|].
        apply nth_error_Some. congruence.
      * intros q Hq. apply in_app_or in Hq.
        destruct Hq as [Hq|[<-|[]]]; [exact (Hmin q Hq)|exact Hlt].
      * intros j q Hj Hq. apply (Hfirst j q Hj).
        rewrite nth_error_app1 in Hq; [exact Hq|].
        assert (i < length seen)%nat
          by (apply nth_error_Some; congruence).
        lia.
    + intros q Hq. apply in_app_or in Hq.
      destruct Hq as [Hq|[<-|[]]]; [exact (Hn q Hq)|exact Hlt].
Qed.

Lemma Recorded_fold rest : forall seen acc,
  Recorded dist threshold seen acc ->
  Recorded dist threshold (seen ++ rest)
    (fold_left (scanStep dist) rest acc).
Proof.
  induction rest as [|point rest IH]; intros seen acc H; simpl.
  - rewrite app_nil_r. exact H.
  - replace (seen ++ point :: rest) with ((seen ++ [point]) ++ rest)
      by (rewrite <- app_assoc; reflexivity).
    apply IH, Recorded_step, H.
Qed.

Lemma scan_Nearest points :
  Nearest dist threshold points (fst (scan dist points threshold)).
Proof.
  unfold scan.
  apply (Recorded_fold points [] (None, threshold)).
  split; [reflexivity|]. intros q [].
Qed.

End Scan.

Lemma hoverPosition_transform points w h zoom pan q :
  hoverPosition points w h zoom pan q =
  transform (pointBounds points) w h zoom pan (x q) (y q).
Proof. reflexivity. Qed.

(** As long as no query point is shown, the hover loop and the draw
    effect place the points alike, and hit-testing is an arg-min under
    the threshold [20 * zoom]: a returned point is an entry of the
    sequence whose distance to the pointer, as drawn, is below the
    threshold, no point is strictly closer, and no earlier entry is as
    close; no point is returned exactly when no distance is below the
    threshold. *)
Lemma hitTest_nearest_without_query_point :
  forall mouseX mouseY points w h zoom pan,
    match hitTest mouseX mouseY points w h zoom pan with
    | Some p =>
      (deviceDistance mouseX mouseY points None w h zoom pan p <? 20 * zoom)
        = true /\
      exists i,
        nth_error points i = Some p /\
        (forall q, In q points ->
           (deviceDistance mouseX mouseY points None w h zoom pan q
              <? deviceDistance mouseX mouseY points None w h zoom pan p)
           = false) /\
        (forall j q, (j < i)%nat -> nth_error points j = Some q ->
           (deviceDistance mouseX mouseY points None w h zoom pan q
              <=? deviceDistance mouseX mouseY points None w h zoom pan p)
           = false)
    | None =>
      forall q, In q points ->
        (deviceDistance mouseX mouseY points None w h zoom pan q
           <? 20 * zoom) = false
    end.
Proof.
  intros mouseX mouseY points w h zoom pan.
  pose proof (scan_Nearest
                (hoverDistance points w h zoom pan mouseX mouseY)
                (20 * zoom) points) as H.
  change (fst (scan _ points (20 * zoom)))
    with (hitTest mouseX mouseY points w h zoom pan) in H.
  change (hoverDistance points w h zoom pan mouseX mouseY)
    with (deviceDistance mouseX mouseY points None w h zoom pan) in H.
  exact H.
Qed.

(** C1. With a query point on display, hit-testing does not measure the
    distance to the points as drawn: the hover loop takes its bounds
    from the points alone. After [threeDocuments] have been projected
    with the query vector [[3, 3]], the third point is drawn at
    (300, 216) in a 600 by 300 canvas. A pointer resting on it, at
    distance 0, hovers nothing; a pointer at (300, 40), 176 from the
    drawn point and far beyond the threshold 20, hovers it. *)
Theorem hover_search_misses_drawn_point :
  exists p,
    nth_error (projectedPoints searchedState) 2 = Some p /\
    (deviceDistance 300 216 (projectedPoints searchedState)
       (queryPoint searchedState) 600 300 (zoom searchedState)
       (pan searchedState) p <? 20 * zoom searchedState) = true /\
    hoveredPoint
      (handleMouseMove (Some canvas600) searchedState (moveTo 300 216))
      = None /\
    hoveredPoint
      (handleMouseMove (Some canvas600) searchedState (moveTo 300 40))
      = Some p /\
    (20 * zoom searchedState <=?
     deviceDistance 300 40 (projectedPoints searchedState)
       (queryPoint searchedState) 600 300 (zoom searchedState)
       (pan searchedState) p) = true.
Proof. eexists. repeat split; vm_compute; reflexivity. Qed.

(** The hover loop takes its bounds from the points alone, while the draw
    effect also folds the query point in. With points (0,0) and (1,1) and
    a query point at (2,2), the second point is drawn at (300, 150) but
    hovered as if at (560, 40): a pointer resting on the drawn point finds
    nothing. *)
Lemma hover_placement_omits_query_point :
  transform (drawBounds queryShown (Some (2, 2))) 600 300 1 (0, 0) 1 1
    = (300, 150) /\
  transform (pointBounds queryShown) 600 300 1 (0, 0) 1 1 = (560, 40) /\
  hitTest 300 150 queryShown 600 300 1 (0, 0) = None.
Proof. repeat split; vm_compute; reflexivity. Qed.

End HitTest.

(** ** Facts about binary64 arithmetic around zero, NaN and clamping *)

Module NumberFacts.

Lemma Prim2SF_zero : Prim2SF 0 = S754_zero false.
Proof. reflexivity. Qed.

Lemma Prim2SF_nan : Prim2SF nan = S754_nan.
Proof. reflexivity. Qed.

Lemma is_nan_SF a : is_nan a = true <-> Prim2SF a = S754_nan.
Proof.
  unfold is_nan. rewrite eqb_spec. unfold SFeqb.
  rewrite SFcompare_refl. destruct (Prim2SF a); simpl; split; congruence.
Qed.

Lemma is_nan_false_SF a : is_nan a = false <-> Prim2SF a <> S754_nan.
Proof.
  rewrite <- is_nan_SF. destruct (is_nan a); split; congruence.
Qed.

Lemma is_finite_SF a : is_finite a = true <-> SFfinite (Prim2SF a).
Proof.
  unfold is_finite, is_infinity, is_nan.
  rewrite !eqb_spec, abs_spec.
  replace (Prim2SF infinity) with (S754_infinity false) by reflexivity.
  unfold SFeqb. rewrite SFcompare_refl.
  destruct (Prim2SF a) as [s|s| |s m e]; simpl;
    try (split; [discriminate|intros []]); try tauto;
    destruct s; simpl; try tauto;
    split; try discriminate; intros [].
Qed.

Lemma numEq_SF a b :
  numEq a b = true <-> SFnumEq (Prim2SF a) (Prim2SF b).
Proof.
  unfold numEq, SFnumEq.
  rewrite orb_true_iff, andb_true_iff, eqb_cmp, !is_nan_SF.
  reflexivity.
Qed.

Lemma SFnumEq_refl a : SFnumEq a a.
Proof.
  unfold SFnumEq. rewrite SFcompare_refl.
  destruct a; auto.
Qed.

Lemma numEq_refl a : numEq a a = true.
Proof. apply numEq_SF, SFnumEq_refl. Qed.

(** Adding [+0] changes nothing but the sign of [-0]. *)
Lemma SFadd_zero_r a :
  SF64add a (S754_zero false) =
  match a with S754_zero _ => S754_zero false | _ => a end.
Proof. destruct a as [[]|[]| |[] m e]; reflexivity. Qed.

Lemma SFadd_zero_l s a :
  SFfinite a -> SFnumEq (SF64add (S754_zero s) a) a.
Proof.
  destruct a as [[]|[]| |sa m e]; destruct s; simpl; intros H;
    try contradiction; try (left; reflexivity);
    apply SFnumEq_refl.
Qed.

Lemma SFadd_zeros_agree s s' a :
  SFnumEq (SF64add (S754_zero s) a) (SF64add (S754_zero s') a).
Proof.
  destruct a as [[]|[]| |sa m e]; destruct s, s'; simpl;
    try (left; reflexivity); try (right; split; reflexivity);
    apply SFnumEq_refl.
Qed.

(** [a + p] and [(a + 0) + p] are the same number. *)
Lemma add_zero_then_add (a p : number) : numEq (a + p) (a + 0 + p) = true.
Proof.
  apply numEq_SF. rewrite !add_spec, Prim2SF_zero, SFadd_zero_r.
  destruct (Prim2SF a) as [s| | |]; try apply SFnumEq_refl.
  apply SFadd_zeros_agree.
Qed.

Lemma SFcompare_Eq_finite s m e b :
  SFcompare (S754_finite s m e) b = Some Eq -> b = S754_finite s m e.
Proof.
  destruct b as [[]|[]| |sb mb eb]; destruct s; simpl; try discriminate;
    destruct sb; try discriminate;
    destruct (Z.compare_spec e eb); try discriminate;
    change (Pos.compare_cont Eq m mb) with (Pos.compare m mb);
    destruct (Pos.compare_spec m mb); try discriminate;
    intros _; subst; reflexivity.
Qed.

Lemma SFsub_diag s m e :
  SF64sub (S754_finite s m e) (S754_finite s m e) = S754_zero false.
Proof.
  unfold SF64sub, SFsub. rewrite Z.sub_diag. reflexivity.
Qed.

(** The difference of two equal finite numbers is a zero. *)
Lemma SFsub_equal_zero a b :
  SFfinite b -> SFcompare a b = Some Eq -> SFzero (SF64sub a b).
Proof.
  intros Hb Heq. destruct a as [sa|sa| |sa ma ea].
  - destruct b as [sb|sb| |sb mb eb]; try contradiction.
    + destruct sa, sb; exact I.
    + destruct sb; discriminate.
  - destruct b as [sb|sb| |sb mb eb]; try contradiction;
      destruct sa; discriminate.
  - discriminate.
  - apply SFcompare_Eq_finite in Heq. subst b.
    rewrite SFsub_diag. exact I.
Qed.

Lemma SFmul_zero_l a b : SFzero a -> SFfinite b -> SFzero (SF64mul a b).
Proof.
  destruct a as [sa| | |]; try contradiction.
  destruct b as [sb| | |sb mb eb]; try contradiction; intros _ _; exact I.
Qed.

Lemma SFadd_zero_finite a b :
  SFzero a -> SFfinite b -> SFnumEq (SF64add a b) b.
Proof.
  destruct a as [sa| | |]; try contradiction. intros _.
  apply SFadd_zero_l.
Qed.

Lemma SFnumEq_add_zero_r a b :
  SFfinite b -> SFnumEq a b -> SFnumEq (SF64add a (S754_zero false)) b.
Proof.
  intros Hb H. rewrite SFadd_zero_r.
  destruct a as [sa| | |]; try exact H.
  destruct b as [sb| | |sb mb eb]; try contradiction.
  - left; reflexivity.
  - destruct H as [H|[H _]]; [|discriminate].
    destruct sb; discriminate.
Qed.

(** The zoom step leaves the viewport centre where it is: a position [t]
    equal to the centre [c] is sent to [c] for every finite zoom. *)
Lemma zoom_fixes_centre (t c z : number) :
  is_finite c = true -> is_finite z = true -> (t =? c) = true ->
  ((t - c) * z + c + 0 =? c) = true.
Proof.
  rewrite !is_finite_SF, !eqb_cmp. unfold cmp.
  rewrite !add_spec, mul_spec, sub_spec, Prim2SF_zero.
  intros Hc Hz Heq.
  pose proof (SFadd_zero_finite _ _
                (SFmul_zero_l _ _ (SFsub_equal_zero _ _ Hc Heq) Hz) Hc)
    as H.
  apply (SFnumEq_add_zero_r _ _ Hc) in H.
  destruct H as [H|[_ H]]; [exact H|].
  rewrite H in Hc. contradiction.
Qed.

(** *** [Math.min] and [Math.max] on numbers that are not NaN *)

Lemma cmp_total a b :
  is_nan a = false -> is_nan b = false -> exists c, cmp a b = Some c.
Proof.
  rewrite !is_nan_false_SF. unfold cmp.
  destruct (Prim2SF a) as [[]|[]| |[] ? ?], (Prim2SF b) as [[]|[]| |[] ? ?];
    simpl; intros; try congruence; eexists; reflexivity.
Qed.

Lemma cmp_Gt a b : cmp a b = Some Gt <-> cmp b a = Some Lt.
Proof.
  unfold cmp. rewrite (SFcompare_antisym (Prim2SF a) (Prim2SF b)).
  destruct (SFcompare (Prim2SF a) (Prim2SF b)) as [[]|]; simpl;
    split; congruence.
Qed.

Lemma cmp_Eq_sym a b : cmp a b = Some Eq -> cmp b a = Some Eq.
Proof.
  unfold cmp. rewrite (SFcompare_antisym (Prim2SF a) (Prim2SF b)).
  intros ->. reflexivity.
Qed.

Lemma ltb_false_leb a b :
  is_nan a = false -> is_nan b = false ->
  (a <? b) = false -> (b <=? a) = true.
Proof.
  intros Ha Hb H. destruct (cmp_total a b Ha Hb) as [c Hc].
  apply leb_cmp. destruct c.
  - right. apply cmp_Eq_sym, Hc.
  - apply ltb_cmp in Hc. congruence.
  - left. apply cmp_Gt, Hc.
Qed.

Lemma leb_refl a : is_nan a = false -> (a <=? a) = true.
Proof.
  intros Ha. apply ltb_false_leb; auto using ltb_irrefl.
Qed.

Lemma ltb_leb a b : (a <? b) = true -> (a <=? b) = true.
Proof. rewrite ltb_cmp, leb_cmp. auto. Qed.

Lemma leb_trans a b c :
  (a <=? b) = true -> (b <=? c) = true -> (a <=? c) = true.
Proof.
  rewrite !leb_cmp. unfold cmp.
  intros [H|H] [H'|H'];
    eauto using SFcompare_lt_trans, SFcompare_eq_lt_trans,
                SFcompare_lt_eq_trans, SFcompare_eq_trans.
Qed.

Lemma leb_not_nan_l a b : (a <=? b) = true -> is_nan a = false.
Proof.
  rewrite leb_cmp, is_nan_false_SF. unfold cmp.
  intros H E. rewrite E in H. destruct H; discriminate.
Qed.

Lemma leb_not_nan_r a b : (a <=? b) = true -> is_nan b = false.
Proof.
  rewrite leb_cmp, is_nan_false_SF. unfold cmp.
  intros H E. rewrite E in H.
  destruct (Prim2SF a), H; discriminate.
Qed.

Lemma Math_min_cases a b :
  is_nan a = false -> is_nan b = false ->
  (Math_min a b = a \/ Math_min a b = b) /\
  (Math_min a b <=? a) = true /\ (Math_min a b <=? b) = true.
Proof.
  intros Ha Hb. unfold Math_min. rewrite Ha, Hb. simpl.
  destruct (a <? b) eqn:Hab.
  - auto using leb_refl, ltb_leb.
  - destruct (b <? a) eqn:Hba.
    + auto using leb_refl, ltb_leb.
    + destruct (isNegZero a);
        auto 6 using leb_refl, ltb_false_leb.
Qed.

Lemma Math_max_cases a b :
  is_nan a = false -> is_nan b = false ->
  (Math_max a b = a \/ Math_max a b = b) /\
  (a <=? Math_max a b) = true /\ (b <=? Math_max a b) = true.
Proof.
  intros Ha Hb. unfold Math_max. rewrite Ha, Hb. simpl.
  destruct (b <? a) eqn:Hba.
  - auto using leb_refl, ltb_leb.
  - destruct (a <? b) eqn:Hab.
    + auto using leb_refl, ltb_leb.
    + destruct (isPosZero a);
        auto 6 using leb_refl, ltb_false_leb.
Qed.

End NumberFacts.

Import NumberFacts.

(** ** Rounding of binary64 products and quotients *)

Module Rounding.

Local Open Scope Z_scope.

Lemma digits2_pos_bounds (p : positive) :
  2 ^ (Zpos (digits2_pos p) - 1) <= Zpos p < 2 ^ Zpos (digits2_pos p).
Proof.
  induction p as [p IH|p IH|]; cbn [digits2_pos].
  - rewrite Pos2Z.inj_succ.
    replace (Z.succ (Zpos (digits2_pos p)) - 1)
      with (Z.succ (Zpos (digits2_pos p) - 1)) by lia.
    rewrite !Z.pow_succ_r by lia. lia.
  - rewrite Pos2Z.inj_succ.
    replace (Z.succ (Zpos (digits2_pos p)) - 1)
      with (Z.succ (Zpos (digits2_pos p) - 1)) by lia.
    rewrite !Z.pow_succ_r by lia. lia.
  - simpl. lia.
Qed.

(** The number of binary digits is fixed by the power-of-two bracket. *)
Lemma Zdigits2_unique (M d : Z) :
  0 < M -> 2 ^ (d - 1) <= M < 2 ^ d -> Zdigits2 M = d.
Proof.
  intros HM [Hlo Hhi]. destruct M as [|p|p]; try lia.
  cbn [Zdigits2].
  pose proof (digits2_pos_bounds p) as [Hlo' Hhi'].
  assert (Hd : 0 < d).
  { destruct (Z.lt_trichotomy 0 d) as [H|[H|H]]; [exact H| |].
    - subst d. simpl in Hhi. lia.
    - rewrite Z.pow_neg_r in Hhi by lia. lia. }
  destruct (Z.lt_trichotomy (Zpos (digits2_pos p)) d) as [H|[H|H]];
    [|exact H|].
  - assert (2 ^ Zpos (digits2_pos p) <= 2 ^ (d - 1))
      by (apply Z.pow_le_mono_r; lia).
    lia.
  - assert (2 ^ d <= 2 ^ (Zpos (digits2_pos p) - 1))
      by (apply Z.pow_le_mono_r; lia).
    lia.
Qed.

Lemma shr_1_m (r : shr_record) :
  0 <= shr_m r -> shr_m (shr_1 r) = shr_m r / 2 /\ 0 <= shr_m (shr_1 r).
Proof.
  intros H.
  assert (E : shr_m (shr_1 r) = Z.div2 (shr_m r)).
  { destruct r as [m rb sb]. cbn [shr_m] in *.
    destruct m as [|[p|p|]|p]; try reflexivity; lia. }
  rewrite E, Z.div2_div. split; [reflexivity|].
  apply Z.div_pos; lia.
Qed.

Lemma pow2_xO (n : positive) : 2 ^ Zpos n~0 = 2 ^ Zpos n * 2 ^ Zpos n.
Proof. rewrite <- Z.pow_add_r by lia. f_equal. lia. Qed.

Lemma pow2_xI (n : positive) : 2 ^ Zpos n~1 = 2 * (2 ^ Zpos n * 2 ^ Zpos n).
Proof.
  rewrite <- Z.pow_add_r by lia.
  replace (Zpos n~1) with (Z.succ (Zpos n + Zpos n)) by lia.
  apply Z.pow_succ_r. lia.
Qed.

Lemma iter_shr_1_m (n : positive) :
  forall r, 0 <= shr_m r ->
    shr_m (iter_pos shr_1 n r) = shr_m r / 2 ^ Zpos n /\
    0 <= shr_m (iter_pos shr_1 n r).
Proof.
  assert (Hpos : forall k, 0 < 2 ^ Zpos k)
    by (intros k; apply Z.pow_pos_nonneg; lia).
  induction n as [n IH|n IH|]; intros r Hr; cbn [iter_pos].
  - destruct (shr_1_m r Hr) as [E1 P1].
    destruct (IH _ P1) as [E2 P2].
    destruct (IH _ P2) as [E3 P3].
    split; [|exact P3].
    pose proof (Hpos n).
    rewrite E3, E2, E1, pow2_xI, !Z.div_div by lia. reflexivity.
  - destruct (IH _ Hr) as [E2 P2].
    destruct (IH _ P2) as [E3 P3].
    split; [|exact P3].
    pose proof (Hpos n).
    rewrite E3, E2, pow2_xO, !Z.div_div by lia. reflexivity.
  - destruct (shr_1_m r Hr) as [E1 P1]. split; [|exact P1].
    rewrite E1. reflexivity.
Qed.

Lemma shr_record_of_loc_m M l : shr_m (shr_record_of_loc M l) = M.
Proof. destruct l as [|[]]; reflexivity. Qed.

(** Shifting by [k] positions divides the mantissa by [2 ^ k]. *)
Lemma shr_m_spec (M E k : Z) (l : location) :
  0 <= M -> 0 <= k ->
  shr_m (fst (shr (shr_record_of_loc M l) E k)) = M / 2 ^ k /\
  snd (shr (shr_record_of_loc M l) E k) = E + k.
Proof.
  intros HM Hk. destruct k as [|p|p]; try lia; cbn [shr fst snd].
  - rewrite shr_record_of_loc_m, Z.div_1_r. lia.
  - destruct (iter_shr_1_m p (shr_record_of_loc M l)) as [E1 _].
    { rewrite shr_record_of_loc_m. exact HM. }
    rewrite E1, shr_record_of_loc_m. auto.
Qed.

Lemma round_nearest_even_bounds m l :
  m <= round_nearest_even m l <= m + 1.
Proof.
  destruct l as [|[]]; cbn [round_nearest_even]; try lia.
  destruct (Z.even m); lia.
Qed.

(** [shr_fexp] on a mantissa of [d >= 53] digits, away from the subnormal
    range: the lowest [d - 53] digits are shifted out. *)
Lemma shr_fexp_normal (M E d : Z) (l : location) :
  0 < M -> 2 ^ (d - 1) <= M < 2 ^ d -> 53 <= d -> emin64 <= d + E - 53 ->
  shr_m (fst (shr_fexp prec emax M E l)) = M / 2 ^ (d - 53) /\
  snd (shr_fexp prec emax M E l) = E + (d - 53).
Proof.
  intros HM Hd H53 Hmin. unfold shr_fexp.
  rewrite (Zdigits2_unique M d HM Hd).
  replace (fexp prec emax (d + E) - E) with (d - 53).
  - apply shr_m_spec; lia.
  - unfold fexp, SpecFloat.emin, prec, emax, emin64 in *. lia.
Qed.

(** Rounding a positive mantissa of [d >= 53] digits at exponent [E], in
    the normal range and below overflow: the result is finite, its
    mantissa is the truncated one or the next, and a carry to [2 ^ 53]
    moves to the next exponent. *)
Lemma binary_round_aux_normal (s : bool) (M E d : Z) (l : location) :
  0 < M -> 2 ^ (d - 1) <= M < 2 ^ d -> 53 <= d ->
  emin64 <= d + E - 53 -> d + E - 53 + 1 <= 971 ->
  exists m e,
    binary_round_aux prec emax s M E l = S754_finite s m e /\
    2 ^ 52 <= Zpos m < 2 ^ 53 /\
    ((e = E + (d - 53) /\
      M / 2 ^ (d - 53) <= Zpos m <= M / 2 ^ (d - 53) + 1) \/
     (e = E + (d - 53) + 1 /\ Zpos m = 2 ^ 52 /\
      M / 2 ^ (d - 53) + 1 = 2 ^ 53)).
Proof.
  intros HM Hd H53 Hmin Hmax.
  destruct (shr_fexp_normal M E d l HM Hd H53 Hmin) as [Hm1 He1].
  unfold binary_round_aux.
  destruct (shr_fexp prec emax M E l) as [mrs1 e1].
  cbn [fst snd] in Hm1, He1. subst e1.
  pose proof (round_nearest_even_bounds (shr_m mrs1)
                (loc_of_shr_record mrs1)) as Hr.
  set (m2 := round_nearest_even (shr_m mrs1) (loc_of_shr_record mrs1)) in *.
  rewrite Hm1 in Hr.
  assert (Hq : 2 ^ 52 <= M / 2 ^ (d - 53) < 2 ^ 53).
  { assert (Hp : 0 < 2 ^ (d - 53)) by (apply Z.pow_pos_nonneg; lia).
    split.
    - apply Z.div_le_lower_bound; [exact Hp|].
      rewrite <- Z.pow_add_r by lia.
      replace (d - 53 + 52) with (d - 1) by lia. lia.
    - apply Z.div_lt_upper_bound; [exact Hp|].
      rewrite <- Z.pow_add_r by lia.
      replace (d - 53 + 53) with d by lia. lia. }
  destruct (Z.eq_dec m2 (2 ^ 53)) as [Hcarry|Hnocarry].
  - (* the rounded mantissa is 2^53: one more shift *)
    destruct (shr_fexp_normal m2 (E + (d - 53)) 54 loc_Exact) as [Hm3 He3];
      try (rewrite Hcarry; simpl; lia); try lia.
    destruct (shr_fexp prec emax m2 (E + (d - 53)) loc_Exact) as [mrs3 e3].
    cbn [fst snd] in Hm3, He3. subst e3. rewrite Hm3, Hcarry.
    change (2 ^ 53 / 2 ^ (54 - 53)) with (Zpos (2 ^ 52)).
    replace (E + (d - 53) + (54 - 53) <=? emax - prec) with true
      by (symmetry; apply Z.leb_le; unfold emax, prec; lia).
    exists (2 ^ 52)%positive, (E + (d - 53) + 1).
    split; [f_equal; lia|]. split; [simpl; lia|].
    right. split; [reflexivity|]. split; [reflexivity|]. lia.
  - destruct (shr_fexp_normal m2 (E + (d - 53)) 53 loc_Exact) as [Hm3 He3];
      try (simpl; lia); try lia.
    destruct (shr_fexp prec emax m2 (E + (d - 53)) loc_Exact) as [mrs3 e3].
    cbn [fst snd] in Hm3, He3. subst e3. rewrite Hm3.
    change (2 ^ (53 - 53)) with 1. rewrite Z.div_1_r.
    destruct m2 as [|p2|p2]; try lia.
    replace (E + (d - 53) + (53 - 53) <=? emax - prec) with true
      by (symmetry; apply Z.leb_le; unfold emax, prec; lia).
    exists p2, (E + (d - 53)).
    split; [f_equal; lia|]. split; [lia|].
    left. split; [reflexivity|]. lia.
Qed.

Lemma valid_canonical s m e :
  valid_binary (S754_finite s m e) = true -> canonical m e.
Proof.
  cbn [valid_binary]. unfold bounded, canonical_mantissa.
  rewrite andb_true_iff, Z.eqb_eq, Z.leb_le.
  unfold fexp, SpecFloat.emin, prec, emax, canonical. lia.
Qed.

(** Rounding an exactly represented canonical mantissa gives it back. *)
Lemma binary_round_aux_canonical s m e :
  canonical m e ->
  binary_round_aux prec emax s (Zpos m) e loc_Exact = S754_finite s m e.
Proof.
  intros [Hc He].
  assert (Hs : forall l,
            shr_fexp prec emax (Zpos m) e l =
            (shr_record_of_loc (Zpos m) l, e)).
  { intros l. unfold shr_fexp. cbn [Zdigits2].
    replace (fexp prec emax (Zpos (digits2_pos m) + e) - e) with 0
      by (unfold fexp, SpecFloat.emin, prec, emax; lia).
    reflexivity. }
  unfold binary_round_aux. rewrite Hs.
  cbn [shr_record_of_loc shr_m loc_of_shr_record round_nearest_even].
  rewrite Hs. cbn [shr_record_of_loc shr_m].
  replace (e <=? emax - prec) with true
    by (symmetry; apply Z.leb_le; unfold emax, prec; lia).
  reflexivity.
Qed.

(** The same after one exact doubling of a full mantissa. *)
Lemma binary_round_aux_doubled s m e :
  canonical m e -> Zpos (digits2_pos m) = 53 -> -1074 < e ->
  binary_round_aux prec emax s (Zpos m~0) (e - 1) loc_Exact =
  S754_finite s m e.
Proof.
  intros Hc Hd He.
  pose proof (binary_round_aux_canonical s m e Hc) as Hround.
  unfold binary_round_aux in *.
  assert (Hs : shr_fexp prec emax (Zpos m~0) (e - 1) loc_Exact =
               (shr_record_of_loc (Zpos m) loc_Exact, e)).
  { unfold shr_fexp. cbn [Zdigits2 digits2_pos].
    rewrite Pos2Z.inj_succ, Hd.
    replace (fexp prec emax (Z.succ 53 + (e - 1)) - (e - 1)) with 1
      by (unfold fexp, SpecFloat.emin, prec, emax; lia).
    cbn [shr shr_record_of_loc iter_pos shr_1 orb]. f_equal. lia. }
  rewrite Hs.
  cbn [shr_record_of_loc shr_m loc_of_shr_record round_nearest_even] in *.
  destruct Hc as [Hc Hle].
  assert (Hs' : shr_fexp prec emax (Zpos m) e loc_Exact =
                (shr_record_of_loc (Zpos m) loc_Exact, e)).
  { unfold shr_fexp. cbn [Zdigits2].
    replace (fexp prec emax (Zpos (digits2_pos m) + e) - e) with 0
      by (unfold fexp, SpecFloat.emin, prec, emax; lia).
    reflexivity. }
  rewrite Hs'. cbn [shr_record_of_loc shr_m].
  replace (e <=? emax - prec) with true
    by (symmetry; apply Z.leb_le; unfold emax, prec; lia).
  reflexivity.
Qed.

Lemma Prim2SF_one : Prim2SF 1 = S754_finite false 4503599627370496 (-52).
Proof. vm_compute. reflexivity. Qed.

Lemma div_eucl_scaled (a k : Z) :
  Z.div_eucl (a * (k * 4503599627370496)) 4503599627370496 = (a * k, 0).
Proof.
  pose proof (Z_div_mod (a * (k * 4503599627370496)) 4503599627370496
                eq_refl) as H.
  destruct (Z.div_eucl _ _) as [q r]. destruct H as [Hq Hr].
  assert (r = 0) by lia. subst r. f_equal. lia.
Qed.

Lemma SFdiv_one (x : spec_float) :
  valid_binary x = true -> SFfinite x ->
  SF64div x (S754_finite false 4503599627370496 (-52)) = x.
Proof.
  intros Hv Hf. destruct x as [s| | |s m e]; try contradiction.
  - destruct s; reflexivity.
  - pose proof (valid_canonical s m e Hv) as Hc.
    unfold SF64div, SFdiv, SFdiv_core_binary.
    rewrite xorb_false_r.
    replace (Zdigits2 (Zpos 4503599627370496)) with 53
      by (vm_compute; reflexivity).
    cbn [Zdigits2].
    destruct (Z.eq_dec (Zpos (digits2_pos m)) 53) as [Hd|Hd];
      [destruct (Z.eq_dec e (-1074)) as [Hmin|Hmin]|].
    + (* full mantissa at the lowest exponent *)
      replace (fexp prec emax (Zpos (digits2_pos m) + e - (53 + -52)))
        with e
        by (destruct Hc; unfold fexp, SpecFloat.emin, prec, emax; lia).
      replace (Z.min e (e - -52)) with e by lia.
      replace (e - -52 - e) with 52 by lia.
      rewrite Z.shiftl_mul_pow2 by lia.
      change (2 ^ 52) with (1 * 4503599627370496).
      rewrite div_eucl_scaled, Z.mul_1_r.
      change (new_location 4503599627370496 0) with loc_Exact.
      apply binary_round_aux_canonical, Hc.
    + (* full mantissa above the lowest exponent *)
      replace (fexp prec emax (Zpos (digits2_pos m) + e - (53 + -52)))
        with (e - 1)
        by (destruct Hc; unfold fexp, SpecFloat.emin, prec, emax; lia).
      replace (Z.min (e - 1) (e - -52)) with (e - 1) by lia.
      replace (e - -52 - (e - 1)) with 53 by lia.
      rewrite Z.shiftl_mul_pow2 by lia.
      change (2 ^ 53) with (2 * 4503599627370496).
      rewrite div_eucl_scaled.
      change (new_location 4503599627370496 0) with loc_Exact.
      replace (Zpos m * 2) with (Zpos m~0) by lia.
      apply binary_round_aux_doubled; [exact Hc|exact Hd|].
      destruct Hc; lia.
    + (* subnormal *)
      replace (fexp prec emax (Zpos (digits2_pos m) + e - (53 + -52)))
        with e
        by (destruct Hc; unfold fexp, SpecFloat.emin, prec, emax; lia).
      replace (Z.min e (e - -52)) with e by lia.
      replace (e - -52 - e) with 52 by lia.
      rewrite Z.shiftl_mul_pow2 by lia.
      change (2 ^ 52) with (1 * 4503599627370496).
      rewrite div_eucl_scaled, Z.mul_1_r.
      change (new_location 4503599627370496 0) with loc_Exact.
      apply binary_round_aux_canonical, Hc.
Qed.

End Rounding.

(** ** The zoom range *)

Module ZoomFacts.

Import Rounding.

Local Open Scope Z_scope.

Lemma Prim2SF_0_2 : Prim2SF 0.2 = S754_finite false mantissa_0_2 (-55).
Proof. vm_compute. reflexivity. Qed.

Lemma Prim2SF_5 : Prim2SF 5 = S754_finite false mantissa_5 (-50).
Proof. vm_compute. reflexivity. Qed.

Lemma Prim2SF_1_2 : Prim2SF 1.2 = S754_finite false mantissa_1_2 (-52).
Proof. vm_compute. reflexivity. Qed.

(** Order of two positive finite numbers, by exponent and mantissa. *)
Lemma SFleb_positive (m1 m2 : positive) (e1 e2 : Z) :
  SFleb (S754_finite false m1 e1) (S754_finite false m2 e2) = true <->
  e1 < e2 \/ (e1 = e2 /\ Zpos m1 <= Zpos m2).
Proof.
  unfold SFleb. cbn [SFcompare].
  change (Pos.compare_cont Eq m1 m2) with (Pos.compare m1 m2).
  destruct (Z.compare_spec e1 e2);
    [destruct (Pos.compare_spec m1 m2)| |];
    split; intros H'; try reflexivity; try discriminate H'; lia.
Qed.

(** A number in [0.2, 5] is positive and normal, with an exponent between
    those of 0.2 and 5. *)
Lemma inRange_shape (z : number) :
  inRange z = true ->
  exists m e,
    Prim2SF z = S754_finite false m e /\
    2 ^ 52 <= Zpos m < 2 ^ 53 /\ -55 <= e <= -50 /\
    (e = -55 -> Zpos mantissa_0_2 <= Zpos m) /\
    (e = -50 -> Zpos m <= Zpos mantissa_5).
Proof.
  unfold inRange. rewrite andb_true_iff, !leb_spec, Prim2SF_0_2, Prim2SF_5.
  pose proof (Prim2SF_valid z) as Hv.
  destruct (Prim2SF z) as [s|s| |s m e]; intros [Hlo Hhi].
  - discriminate Hlo.
  - destruct s; [discriminate Hlo|discriminate Hhi].
  - discriminate Hlo.
  - destruct s; [discriminate Hlo|].
    apply SFleb_positive in Hlo. apply SFleb_positive in Hhi.
    cbn [valid_binary] in Hv. unfold bounded, canonical_mantissa in Hv.
    apply andb_true_iff in Hv. destruct Hv as [Hc _].
    apply Z.eqb_eq in Hc.
    unfold fexp, SpecFloat.emin, prec, emax in Hc.
    assert (Hd : Zpos (digits2_pos m) = 53) by lia.
    pose proof (digits2_pos_bounds m) as Hb. rewrite Hd in Hb.
    change (53 - 1) with 52 in Hb.
    exists m, e. split; [reflexivity|]. split; [exact Hb|]. lia.
Qed.

(** The product of two positive normal numbers of moderate exponent is a
    positive normal number. *)
Lemma mul_normal (m mc : positive) (e ec : Z) :
  2 ^ 52 <= Zpos m < 2 ^ 53 -> 2 ^ 52 <= Zpos mc < 2 ^ 53 ->
  -200 <= e + ec <= 200 ->
  exists m' e',
    SF64mul (S754_finite false m e) (S754_finite false mc ec) =
      S754_finite false m' e' /\
    2 ^ 52 <= Zpos m' < 2 ^ 53 /\
    (e + ec + 52 < e' \/
     (e' = e + ec + 52 /\ Zpos m * Zpos mc / 2 ^ 52 <= Zpos m')).
Proof.
  intros Hm Hmc He.
  unfold SF64mul, SFmul. cbn [xorb].
  change (Zpos (m * mc)) with (Zpos m * Zpos mc).
  set (M := Zpos m * Zpos mc).
  assert (HM : 2 ^ 104 <= M < 2 ^ 106).
  { unfold M. change (2 ^ 104) with (2 ^ 52 * 2 ^ 52).
    change (2 ^ 106) with (2 ^ 53 * 2 ^ 53). nia. }
  destruct (Z.lt_ge_cases M (2 ^ 105)) as [Hlt|Hge].
  - destruct (binary_round_aux_normal false M (e + ec) 105 loc_Exact)
      as [m' [e' [Hr [Hb Hcase]]]];
      try (unfold emin64; lia); try (change (105 - 1) with 104; lia).
    exists m', e'. split; [exact Hr|]. split; [exact Hb|].
    change (105 - 53) with 52 in Hcase.
    destruct Hcase as [[-> Hq]|[-> _]]; [right|left]; lia.
  - destruct (binary_round_aux_normal false M (e + ec) 106 loc_Exact)
      as [m' [e' [Hr [Hb Hcase]]]];
      try (unfold emin64; lia); try (change (106 - 1) with 105; lia).
    exists m', e'. split; [exact Hr|]. split; [exact Hb|].
    change (106 - 53) with 53 in Hcase.
    destruct Hcase as [[-> Hq]|[-> _]]; left; lia.
Qed.

(** The quotient of two positive normal numbers of moderate exponent is a
    positive normal number; [q] is the integer quotient of the mantissas
    after scaling the dividend by [2 ^ 53]. *)
Lemma div_normal (m mc : positive) (e ec : Z) :
  2 ^ 52 <= Zpos m < 2 ^ 53 -> 2 ^ 52 <= Zpos mc < 2 ^ 53 ->
  -200 <= e - ec <= 200 ->
  exists m' e' q,
    SF64div (S754_finite false m e) (S754_finite false mc ec) =
      S754_finite false m' e' /\
    2 ^ 52 <= Zpos m' < 2 ^ 53 /\
    Zpos mc * q <= Zpos m * 2 ^ 53 < Zpos mc * (q + 1) /\
    ((q < 2 ^ 53 /\ e' = e - ec - 53 /\ q <= Zpos m' <= q + 1) \/
     (q < 2 ^ 53 /\ e' = e - ec - 52 /\ Zpos m' = 2 ^ 52) \/
     (2 ^ 53 <= q /\ e' = e - ec - 52 /\ q / 2 <= Zpos m' <= q / 2 + 1) \/
     (2 ^ 53 <= q /\ e' = e - ec - 51 /\ q / 2 + 1 = 2 ^ 53)).
Proof.
  intros Hm Hmc He.
  unfold SF64div, SFdiv, SFdiv_core_binary. cbn [xorb].
  rewrite (Zdigits2_unique (Zpos m) 53), (Zdigits2_unique (Zpos mc) 53)
    by (try reflexivity; change (53 - 1) with 52; assumption).
  replace (fexp prec emax (53 + e - (53 + ec))) with (e - ec - 53)
    by (unfold fexp, SpecFloat.emin, prec, emax; lia).
  replace (Z.min (e - ec - 53) (e - ec)) with (e - ec - 53) by lia.
  replace (e - ec - (e - ec - 53)) with 53 by lia.
  rewrite Z.shiftl_mul_pow2 by lia.
  pose proof (Z_div_mod (Zpos m * 2 ^ 53) (Zpos mc) eq_refl) as Hdiv.
  destruct (Z.div_eucl (Zpos m * 2 ^ 53) (Zpos mc)) as [q r].
  destruct Hdiv as [Hq Hr].
  assert (Hqb : 2 ^ 52 <= q < 2 ^ 54).
  { change (2 ^ 52) with 4503599627370496 in *.
    change (2 ^ 53) with 9007199254740992 in *.
    change (2 ^ 54) with 18014398509481984. nia. }
  assert (Hbr : Zpos mc * q <= Zpos m * 2 ^ 53 < Zpos mc * (q + 1)) by lia.
  destruct (Z.lt_ge_cases q (2 ^ 53)) as [Hlt|Hge].
  - destruct (binary_round_aux_normal false q (e - ec - 53) 53
                (new_location (Zpos mc) r))
      as [m' [e' [Hres [Hb Hcase]]]];
      try (unfold emin64; lia); try (change (53 - 1) with 52; lia).
    exists m', e', q. split; [exact Hres|]. split; [exact Hb|].
    split; [exact Hbr|].
    change (2 ^ (53 - 53)) with 1 in Hcase. rewrite Z.div_1_r in Hcase.
    destruct Hcase as [[-> Hq']|[-> [Hm' _]]]; [left|right; left];
      (split; [exact Hlt|]); split; try lia.
  - destruct (binary_round_aux_normal false q (e - ec - 53) 54
                (new_location (Zpos mc) r))
      as [m' [e' [Hres [Hb Hcase]]]];
      try (unfold emin64; lia); try (change (54 - 1) with 53; lia).
    exists m', e', q. split; [exact Hres|]. split; [exact Hb|].
    split; [exact Hbr|].
    change (2 ^ (54 - 53)) with 2 in Hcase.
    destruct Hcase as [[-> Hq']|[-> [_ Hc]]];
      right; right; [left|right]; (split; [exact Hge|]); split; try lia.
Qed.

Local Close Scope Z_scope.
Local Open Scope float_scope.

Lemma mul_in_range_not_nan (z c : number) :
  inRange z = true ->
  (exists mc ec, Prim2SF c = S754_finite false mc ec /\
                 (2 ^ 52 <= Zpos mc < 2 ^ 53)%Z /\ (-60 <= ec <= 0)%Z) ->
  is_nan (z * c) = false.
Proof.
  intros Hz [mc [ec [Hc [Hmc Hec]]]].
  destruct (inRange_shape z Hz) as [m [e [Hzs [Hm [He _]]]]].
  destruct (mul_normal m mc e ec Hm Hmc) as [m' [e' [Hr _]]]; [lia|].
  apply is_nan_false_SF. rewrite mul_spec, Hzs, Hc, Hr. discriminate.
Qed.

(** Multiplying by 1.2 does not take a zoom in range below 0.2. *)
Lemma zoom_in_lower (z : number) :
  inRange z = true -> (0.2 <=? z * 1.2) = true.
Proof.
  intros Hz.
  destruct (inRange_shape z Hz) as [m [e [Hzs [Hm [He [Hlo _]]]]]].
  destruct (mul_normal m mantissa_1_2 e (-52) Hm)
    as [m' [e' [Hr [Hm' Hcase]]]];
    [unfold mantissa_1_2; simpl; lia|lia|].
  rewrite leb_spec, mul_spec, Hzs, Prim2SF_1_2, Hr, Prim2SF_0_2.
  apply SFleb_positive.
  destruct Hcase as [Hgt|[He' Hq]]; [left; lia|].
  assert (Zpos m <= Zpos m * Zpos mantissa_1_2 / 2 ^ 52)%Z.
  { apply Z.div_le_lower_bound; [reflexivity|].
    unfold mantissa_1_2. change (2 ^ 52)%Z with 4503599627370496%Z. lia. }
  destruct (Z.eq_dec e (-55)) as [He55|He55].
  - right. split; [lia|]. specialize (Hlo He55). lia.
  - left. lia.
Qed.

(** Dividing by 1.2 does not take a zoom in range above 5. *)
Lemma zoom_out_upper (z : number) :
  inRange z = true -> (z / 1.2 <=? 5) = true.
Proof.
  intros Hz.
  destruct (inRange_shape z Hz) as [m [e [Hzs [Hm [He [_ Hhi]]]]]].
  destruct (div_normal m mantissa_1_2 e (-52) Hm)
    as [m' [e' [q [Hr [Hm' [Hq Hcase]]]]]];
    [unfold mantissa_1_2; simpl; lia|lia|].
  rewrite leb_spec, div_spec, Hzs, Prim2SF_1_2, Hr, Prim2SF_5.
  apply SFleb_positive.
  unfold mantissa_1_2, mantissa_5 in *.
  change (2 ^ 52)%Z with 4503599627370496%Z in *.
  change (2 ^ 53)%Z with 9007199254740992%Z in *.
  assert (Hq' : (5 * q <= 9 * Zpos m)%Z) by lia.
  assert (Hhalf : (q / 2 < 9007199254740991)%Z)
    by (apply Z.div_lt_upper_bound; lia).
  destruct Hcase as [[_ [-> _]]|[[_ [-> Hc]]|[[_ [-> Hc]]|[_ [_ Hc]]]]].
  - left. lia.
  - destruct (Z.eq_dec e (-50)) as [He50|He50]; [right|left]; lia.
  - destruct (Z.eq_dec e (-50)) as [He50|He50]; [right|left; lia].
    specialize (Hhi He50).
    assert ((q / 2 <= 5066549580791808)%Z)
      by (apply Z.div_le_upper_bound; lia).
    lia.
  - exfalso. lia.
Qed.

Lemma clamp_in_range (y : number) :
  is_nan y = false -> inRange (clamp 0.2 5 y) = true.
Proof.
  intros Hy. unfold clamp, inRange.
  destruct (Math_min_cases 5 y eq_refl Hy) as [Hmin [Hmin5 _]].
  pose proof (leb_not_nan_l _ _ Hmin5) as Hnan.
  destruct (Math_max_cases 0.2 (Math_min 5 y) eq_refl Hnan)
    as [[-> | ->] [Hlo _]].
  - reflexivity.
  - rewrite Hlo, Hmin5. reflexivity.
Qed.

Lemma wheel_in_range (st : State) (e : WheelEvent) :
  inRange (zoom st) = true -> inRange (zoom (handleWheel st e)) = true.
Proof.
  intros Hz. cbn [handleWheel withZoom zoom]. apply clamp_in_range.
  apply mul_in_range_not_nan; [exact Hz|].
  destruct (0 <? deltaY e).
  - exists 8106479329266893%positive, (-53)%Z.
    split; [vm_compute; reflexivity|]. split; [simpl|]; lia.
  - exists 4953959590107546%positive, (-52)%Z.
    split; [vm_compute; reflexivity|]. split; [simpl|]; lia.
Qed.

Lemma zoom_in_in_range (st : State) :
  inRange (zoom st) = true -> inRange (zoom (handleZoomIn st)) = true.
Proof.
  intros Hz. cbn [handleZoomIn withZoom zoom]. unfold inRange.
  pose proof (zoom_in_lower _ Hz) as Hlo.
  destruct (Math_min_cases (zoom st * 1.2) 5
              (leb_not_nan_r _ _ Hlo) eq_refl) as [[-> | ->] [_ Hhi]].
  - rewrite Hlo, Hhi. reflexivity.
  - reflexivity.
Qed.

Lemma zoom_out_in_range (st : State) :
  inRange (zoom st) = true -> inRange (zoom (handleZoomOut st)) = true.
Proof.
  intros Hz. cbn [handleZoomOut withZoom zoom]. unfold inRange.
  pose proof (zoom_out_upper _ Hz) as Hhi.
  destruct (Math_max_cases (zoom st / 1.2) 0.2
              (leb_not_nan_l _ _ Hhi) eq_refl) as [[-> | ->] [_ Hlo]].
  - rewrite Hlo, Hhi. reflexivity.
  - reflexivity.
Qed.

Lemma step_in_range (st : State) (ev : Event) :
  inRange (zoom st) = true -> inRange (zoom (step st ev)) = true.
Proof.
  intros Hz. destruct ev; cbn [step].
  - exact Hz.
  - unfold handleMouseMove. destruct canvas; [|exact Hz].
    destruct (isDragging st); [exact Hz|].
    destruct (projectedPoints st); exact Hz.
  - exact Hz.
  - exact Hz.
  - exact Hz.
  - apply wheel_in_range, Hz.
  - apply zoom_in_in_range, Hz.
  - apply zoom_out_in_range, Hz.
  - reflexivity.
  - unfold projectEffect. destruct vectors; exact Hz.
Qed.

Lemma fold_in_range (events : list Event) :
  forall st, inRange (zoom st) = true ->
             inRange (zoom (fold_left step events st)) = true.
Proof.
  induction events as [|ev events IH]; intros st Hz; [exact Hz|].
  apply IH, step_in_range, Hz.
Qed.

(** C4. The zoom is 1 at first and is within [0.2, 5] after any sequence
    of events, every event keeping a zoom in that range within it. A
    wheel event sets it to the zoom times 0.9 (wheel down,
    [deltaY > 0]) or times 1.1 (otherwise), clamped to [0.2, 5]; zoom-in
    sets it to the smaller of zoom times 1.2 and 5, zoom-out to the larger
    of zoom over 1.2 and 0.2; reset sets zoom to 1 and pan to (0,0). *)
Theorem zoom_stays_in_range :
  zoom initialState = 1 /\
  (forall events, inRange (zoom (run events)) = true) /\
  (forall st ev,
     inRange (zoom st) = true -> inRange (zoom (step st ev)) = true) /\
  (forall st e,
     zoom (handleWheel st e) =
     clamp 0.2 5 (zoom st * (if 0 <? deltaY e then 0.9 else 1.1))) /\
  (forall st, zoom (handleZoomIn st) = Math_min (zoom st * 1.2) 5) /\
  (forall st, zoom (handleZoomOut st) = Math_max (zoom st / 1.2) 0.2) /\
  (forall st, zoom (handleReset st) = 1 /\ pan (handleReset st) = (0, 0)).
Proof.
  split; [reflexivity|]. split; [|split].
  - intros events. apply fold_in_range. reflexivity.
  - intros st ev. apply step_in_range.
  - repeat split.
Qed.

End ZoomFacts.

(** ** Shape of the projection result *)

Module ProjectionShape.

Lemma projectTo2D_unfold rand v vectors queryVector :
  projectTo2D rand (v :: vectors) queryVector =
  let all := map (projectionOf rand (v :: vectors) queryVector)
                 (workingSet (v :: vectors) queryVector) in
  match queryVector with
  | Some _ => {| projected := removelast all;
                 queryProjected := Some (last all (nan, nan)) |}
  | None => {| projected := all; queryProjected := None |}
  end.
Proof.
  unfold projectionOf, axis2, axis1, centeredIn, meanIn.
  unfold projectTo2D.
  change (match queryVector with
          | Some q => (v :: vectors) ++ [q]
          | None => v :: vectors
          end) with (workingSet (v :: vectors) queryVector).
  change (length (hd [] (workingSet (v :: vectors) queryVector)))
    with (dimOf (workingSet (v :: vectors) queryVector)).
  generalize (dimOf (workingSet (v :: vectors) queryVector)) as dim.
  generalize (workingSet (v :: vectors) queryVector) as all.
  intros all dim. cbv zeta.
  set (centered := map (center (meanOf all dim)) all).
  assert (Hk : snd (powerIteration rand 0 centered dim) = dim)
    by reflexivity.
  destruct (powerIteration rand 0 centered dim) as [pc1 k].
  cbn [fst snd] in *. subst k.
  destruct (powerIterationOrthogonal rand dim centered dim pc1)
    as [pc2 k'].
  cbn [fst]. subst centered. rewrite map_map.
  destruct queryVector; reflexivity.
Qed.

(** On a non-empty batch the points are the projections of the input
    vectors and the query point is the projection of the query vector. *)
Lemma projectTo2D_cons rand v vectors queryVector :
  projected (projectTo2D rand (v :: vectors) queryVector) =
    map (projectionOf rand (v :: vectors) queryVector) (v :: vectors) /\
  queryProjected (projectTo2D rand (v :: vectors) queryVector) =
    option_map (projectionOf rand (v :: vectors) queryVector) queryVector.
Proof.
  rewrite projectTo2D_unfold. cbv zeta.
  destruct queryVector as [q|]; [|split; reflexivity].
  cbn [projected queryProjected workingSet option_map].
  rewrite map_app. cbn [map]. split.
  - apply removelast_last.
  - rewrite last_last. reflexivity.
Qed.

(** C3. An empty batch gives no points and no query point, whatever the
    query vector. Otherwise [projected] is, entry by entry and in input
    order, the projection of the input vectors (so it is as long as the
    batch), and the projection of a supplied query vector is returned
    apart, as [queryProjected], not among the points. *)
Theorem projectTo2D_points_follow_input :
  forall rand vectors queryVector,
    match vectors with
    | [] =>
      projectTo2D rand vectors queryVector =
      {| projected := []; queryProjected := None |}
    | _ =>
      projected (projectTo2D rand vectors queryVector) =
        map (projectionOf rand vectors queryVector) vectors /\
      length (projected (projectTo2D rand vectors queryVector)) =
        length vectors /\
      (forall i,
         nth_error (projected (projectTo2D rand vectors queryVector)) i =
         option_map (projectionOf rand vectors queryVector)
                    (nth_error vectors i)) /\
      queryProjected (projectTo2D rand vectors queryVector) =
        option_map (projectionOf rand vectors queryVector) queryVector
    end.
Proof.
  intros rand [|v vectors] queryVector; [reflexivity|].
  destruct (projectTo2D_cons rand v vectors queryVector) as [Hp Hq].
  split; [exact Hp|]. rewrite Hp. split; [apply length_map|]. split.
  - intros i. apply nth_error_map.
  - exact Hq.
Qed.

End ProjectionShape.

(** ** The view transform *)

Module ViewFacts.

(** C5. Pan is added after zooming: the transform with pan [pan] gives,
    component by component, the same number as the transform with pan
    [(0,0)] plus [pan], for every point, bounding box, viewport size and
    zoom. *)
Theorem transform_pan_additive :
  forall b w h zoom pan px py,
    numEq (fst (transform b w h zoom pan px py))
          (fst (transform b w h zoom (0, 0) px py) + fst pan) = true /\
    numEq (snd (transform b w h zoom pan px py))
          (snd (transform b w h zoom (0, 0) px py) + snd pan) = true.
Proof.
  intros. unfold transform. cbn [fst snd].
  split; apply add_zero_then_add.
Qed.

End ViewFacts.

(** ** Pointer moves and clicks *)

Module EventFacts.

(** C8, as stated, fails while dragging: the pointer is at (50, 250),
    about 14 units from the first point drawn at (40, 260), so the hit
    test on the state after the move finds that point; the hover target
    is still empty. *)
Lemma drag_move_skips_hover :
  isDragging draggingState = true /\
  hoveredPoint
    (handleMouseMove (Some canvas600) draggingState (moveTo 50 250))
    = None /\
  hitTest 50 250
    (projectedPoints
       (handleMouseMove (Some canvas600) draggingState (moveTo 50 250)))
    600 300
    (zoom (handleMouseMove (Some canvas600) draggingState (moveTo 50 250)))
    (pan (handleMouseMove (Some canvas600) draggingState (moveTo 50 250)))
    = Some (plainPoint 0.1 (-1) 1).
Proof. repeat split; vm_compute; reflexivity. Qed.

(** C8, amended. On a pointer move over the mounted canvas: with no drag
    in progress and at least one point, the hover target becomes the
    result of hit-testing the pointer (relative to the canvas) against
    the points, the canvas size, zoom and pan; during a drag the hover
    target is left as it was and pan becomes pointer minus drag anchor;
    with no drag and no points the state is left as it was. *)
Theorem pointer_move_hover :
  forall rect st e,
    (isDragging st = false -> projectedPoints st <> [] ->
     hoveredPoint (handleMouseMove (Some rect) st e) =
     hitTest (clientX e - left rect) (clientY e - top rect)
       (projectedPoints (handleMouseMove (Some rect) st e))
       (width rect) (height rect)
       (zoom (handleMouseMove (Some rect) st e))
       (pan (handleMouseMove (Some rect) st e))) /\
    (isDragging st = true ->
     hoveredPoint (handleMouseMove (Some rect) st e) = hoveredPoint st /\
     pan (handleMouseMove (Some rect) st e) =
       (clientX e - fst (dragStart st), clientY e - snd (dragStart st))) /\
    (isDragging st = false -> projectedPoints st = [] ->
     handleMouseMove (Some rect) st e = st).
Proof.
  intros rect st e. unfold handleMouseMove.
  split; [|split]; intros Hd; rewrite Hd.
  - intros Hne. destruct (projectedPoints st) eqn:Hp; [congruence|].
    cbn [withHovered hoveredPoint projectedPoints zoom pan].
    rewrite Hp. reflexivity.
  - split; reflexivity.
  - intros Hp. rewrite Hp. reflexivity.
Qed.

(** *** Clicks *)

Lemma find_first {A : Type} (f : A -> bool) (l : list A) (d : A) :
  find f l = Some d <->
  exists i, nth_error l i = Some d /\ f d = true /\
            forall j v, (j < i)%nat -> nth_error l j = Some v ->
                        f v = false.
Proof.
  induction l as [|a l IH]; simpl.
  - split; [discriminate|]. intros [[|i] [H _]]; discriminate.
  - destruct (f a) eqn:Ha.
    + split.
      * intros [= <-]. exists 0%nat. repeat split; auto.
        intros j v Hj. lia.
      * intros [[|i] [Hi [Hd Hfirst]]]; [simpl in Hi; exact Hi|].
        specialize (Hfirst 0%nat a (Nat.lt_0_succ i) eq_refl).
        congruence.
    + rewrite IH. split.
      * intros [i [Hi [Hd Hfirst]]]. exists (S i). repeat split; auto.
        intros [|j] v Hj Hv; simpl in Hv.
        -- congruence.
        -- apply (Hfirst j v); [lia|exact Hv].
      * intros [[|i] [Hi [Hd Hfirst]]]; simpl in Hi.
        -- congruence.
        -- exists i. repeat split; auto.
           intros j v Hj Hv. apply (Hfirst (S j) v); [lia|exact Hv].
Qed.

(** C10. A click calls [onVectorClick] with a record [d] exactly when
    the callback is registered, a hover target is set and [d] is the
    first record of the batch whose id is the hovered point's id; in
    every other case (no callback, no hover target, no record with that
    id) the click does nothing. *)
Theorem click_calls_back_first_match :
  forall hasCallback vectors st,
    (forall d,
       handleClick hasCallback vectors st = Some d <->
       hasCallback = true /\
       exists hp, hoveredPoint st = Some hp /\
       exists i, nth_error vectors i = Some d /\ doc_id d = id hp /\
                 forall j v, (j < i)%nat -> nth_error vectors j = Some v ->
                             doc_id v <> id hp) /\
    (handleClick hasCallback vectors st = None <->
     hasCallback = false \/ hoveredPoint st = None \/
     exists hp, hoveredPoint st = Some hp /\
                forall v, In v vectors -> doc_id v <> id hp).
Proof.
  intros hasCallback vectors st. unfold handleClick. split.
  - intros d. destruct (hoveredPoint st) as [hp|].
    + destruct hasCallback.
      * rewrite find_first. split.
        -- intros [i [Hi [Hd Hfirst]]]. split; [reflexivity|].
           exists hp. split; [reflexivity|]. exists i.
           apply Z.eqb_eq in Hd. repeat split; auto.
           intros j v Hj Hv. apply Z.eqb_neq. exact (Hfirst j v Hj Hv).
        -- intros [_ [hp' [[= <-] [i [Hi [Hd Hfirst]]]]]].
           exists i. apply Z.eqb_eq in Hd. repeat split; auto.
           intros j v Hj Hv. apply Z.eqb_neq. exact (Hfirst j v Hj Hv).
      * split; [discriminate|]. intros [H _]. discriminate.
    + split; [discriminate|]. intros [_ [hp [H _]]]. discriminate.
  - destruct (hoveredPoint st) as [hp|]; [|tauto].
    destruct hasCallback; [|tauto].
    split.
    + intros Hnone. right. right. exists hp. split; [reflexivity|].
      intros v Hv. apply Z.eqb_neq.
      exact (find_none _ _ Hnone v Hv).
    + intros [H|[H|[hp' [[= <-] Hall]]]]; try discriminate.
      destruct (find _ vectors) as [d|] eqn:Hf; [|reflexivity].
      apply find_some in Hf. destruct Hf as [Hin Hd].
      apply Z.eqb_eq in Hd. elim (Hall d Hin Hd).
Qed.

End EventFacts.

(** ** The hover panel *)

Module PanelFacts.

Lemma infoBox_corner (w h px py : number) :
  (0 <=? px + 15) = true -> (0 <=? w - 180) = true ->
  (py - 60 <=? h - 55) = true -> (10 <=? h - 55) = true ->
  (0 <=? infoX (infoBox w px py)) = true /\
  (infoX (infoBox w px py) <=? w - 180) = true /\
  (10 <=? infoY (infoBox w px py)) = true /\
  (infoY (infoBox w px py) <=? h - 55) = true.
Proof.
  intros Hx Hw Hy Hh. cbn [infoBox infoX infoY].
  destruct (Math_min_cases (px + 15) (w - 180)
              (leb_not_nan_r _ _ Hx) (leb_not_nan_r _ _ Hw))
    as [[-> | ->] [Hm1 Hm2]];
  destruct (Math_max_cases (py - 60) 10
              (leb_not_nan_l _ _ Hy) (leb_not_nan_l _ _ Hh))
    as [[-> | ->] [HM1 HM2]];
  auto.
Qed.

(** The two clamps that are there keep the corner of the panel right of
    [W - 180] and below 10; a hovered point drawn with [px + 15 >= 0] and
    [py - 60 <= H - 55], in a viewport with [W - 180 >= 0] and
    [H - 55 >= 10], has the corner of its panel in
    [0, W - 180] x [10, H - 55]. *)
Lemma hover_panel_corner_inside :
  forall st w h hp,
    projectedPoints st <> [] ->
    hoveredPoint st = Some hp ->
    (0 <=? fst (transform (drawBounds (projectedPoints st) (queryPoint st))
                  w h (zoom st) (pan st) (x hp) (y hp)) + 15) = true ->
    (snd (transform (drawBounds (projectedPoints st) (queryPoint st))
            w h (zoom st) (pan st) (x hp) (y hp)) - 60 <=? h - 55) = true ->
    (0 <=? w - 180) = true ->
    (10 <=? h - 55) = true ->
    exists panel,
      hoverPanel st w h = Some panel /\
      panelWidth panel = 170 /\ panelHeight panel = 55 /\
      (0 <=? panelLeft panel) = true /\
      (panelLeft panel <=? w - 180) = true /\
      (10 <=? panelTop panel) = true /\
      (panelTop panel <=? h - 55) = true.
Proof.
  intros st w h hp Hne Hhp Hx Hy Hw Hh.
  unfold hoverPanel. rewrite Hhp.
  destruct (projectedPoints st) eqn:Hp; [congruence|].
  eexists. split; [reflexivity|].
  split; [reflexivity|]. split; [reflexivity|].
  unfold panelLeft, panelTop.
  apply infoBox_corner; assumption.
Qed.

(** C9. The panel is clamped on the right and at the top only. At zoom
    1 in a 600 by 300 viewport, after [leftTrace] the hovered point is
    drawn at (-18, 260) and its panel is painted from x = -3, across the
    left border; after [bottomTrace] the hovered point is drawn at
    (40, 318) and its panel, painted from y = 258, ends at y = 313,
    below the bottom border. *)
Theorem hover_panel_leaves_viewport :
  zoom (run leftTrace) = 1 /\
  hoverPanel (run leftTrace) 600 300
    = Some {| infoX := -3; infoY := 200;
              panelWidth := 170; panelHeight := 55 |} /\
  (panelLeft {| infoX := -3; infoY := 200;
                panelWidth := 170; panelHeight := 55 |} <? 0) = true /\
  zoom (run bottomTrace) = 1 /\
  hoverPanel (run bottomTrace) 600 300
    = Some {| infoX := 55; infoY := 258;
              panelWidth := 170; panelHeight := 55 |} /\
  (300 <? panelBottom {| infoX := 55; infoY := 258;
                         panelWidth := 170; panelHeight := 55 |}) = true.
Proof. repeat split; vm_compute; reflexivity. Qed.

End PanelFacts.

(** ** Degenerate batches and the normalisation guards *)

Module DegenerateFacts.

Import ProjectionShape.

(** C7 at a batch of one-dimensional vectors, [[1], [3]]: the centred
    rows are [[-1], [1]] and the first axis is [[1]]; the second start
    vector loses all of itself to the first axis, its norm is 0, and the
    unguarded division by that norm makes the second axis [[NaN]], which
    the guarded loop then keeps: every point gets a NaN ordinate. *)
Lemma second_axis_start_divided_by_zero :
  centeredIn [[1]; [3]] None = [[-1]; [1]] /\
  axis1 draws [[1]; [3]] None = [1] /\
  removeComponent (randomVector draws 1 1) [1] = [0] /\
  normOf [0] = 0 /\
  (EPS <? normOf [0]) = false /\
  scaleDown [0] (normOf [0]) = [nan] /\
  axis2 draws [[1]; [3]] None = [nan] /\
  projectTo2D draws [[1]; [3]] None =
    {| projected := [(-1, nan); (1, nan)]; queryProjected := None |}.
Proof. repeat split; vm_compute; reflexivity. Qed.

(** C2, as stated, fails in binary64. Ten copies of [[0.1, 0.2]]: the
    mean is accumulated as ten times [0.1 / 10] and comes out below 0.1,
    the centred rows are not zero, and no point is at the origin. A
    single one-dimensional vector: the second axis is [[NaN]] and the
    point is [(0, NaN)]. *)
Lemma identical_vectors_miss_origin :
  (idx (meanIn tenCopies None) 0 <? 0.1) = true /\
  length (projected (projectTo2D draws tenCopies None)) = 10%nat /\
  forallb (fun p => negb (numEq (fst p) 0) && negb (numEq (snd p) 0))
    (projected (projectTo2D draws tenCopies None)) = true /\
  projectTo2D draws [[1]] None =
    {| projected := [(0, nan)]; queryProjected := None |}.
Proof. repeat split; vm_compute; reflexivity. Qed.

Lemma is_zero_SF a : is_zero a = true <-> SFzero (Prim2SF a).
Proof.
  unfold is_zero. rewrite eqb_cmp. unfold cmp.
  replace (Prim2SF zero) with (S754_zero false) by reflexivity.
  destruct (Prim2SF a) as [[]|[]| |[] m e]; simpl; split;
    try discriminate; try contradiction; auto.
Qed.

Lemma add_zero_product (a b : number) :
  is_zero a = true -> is_finite b = true -> 0 + a * b = 0.
Proof.
  rewrite is_zero_SF, is_finite_SF. intros Ha Hb.
  apply Prim2SF_inj. rewrite add_spec, mul_spec, Prim2SF_zero.
  destruct (Prim2SF a) as [sa| | |]; try contradiction.
  destruct (Prim2SF b) as [sb| | |sb mb eb]; try contradiction;
    destruct sa, sb; reflexivity.
Qed.

Lemma dotProduct_from_zero (axis : list number) :
  forall (row : list number) (k : nat),
    forallb is_zero row = true ->
    forallb (fun i => is_finite (idx axis i)) (seq k (length row)) = true ->
    fold_left (fun sum p => sum + snd p * idx axis (fst p))
              (combine (seq k (length row)) row) 0 = 0.
Proof.
  induction row as [|a row IH]; intros k Hz Hf; [reflexivity|].
  cbn [length seq combine fold_left forallb fst snd] in *.
  apply andb_true_iff in Hz. destruct Hz as [Ha Hz].
  apply andb_true_iff in Hf. destruct Hf as [Hb Hf].
  rewrite (add_zero_product a (idx axis k) Ha Hb).
  apply IH; assumption.
Qed.

Lemma dotProduct_zero_row row axis :
  zeroRow row = true -> finiteAlong axis row = true ->
  dotProduct row axis = 0.
Proof. apply dotProduct_from_zero. Qed.

(** Dividing a finite number by 1 gives it back. *)
Lemma div_one (a : number) : is_finite a = true -> a / 1 = a.
Proof.
  intros Ha. apply Prim2SF_inj. rewrite div_spec, Rounding.Prim2SF_one.
  apply Rounding.SFdiv_one; [apply Prim2SF_valid|apply is_finite_SF, Ha].
Qed.

(** A finite number minus its one-term mean is a zero. *)
Lemma centre_of_one (a : number) :
  is_finite a = true -> is_zero (a - (0 + a / 1)) = true.
Proof.
  intros Ha. rewrite (div_one a Ha).
  apply is_zero_SF. rewrite sub_spec, add_spec, Prim2SF_zero.
  apply is_finite_SF in Ha.
  destruct (Prim2SF a) as [[]| | |s m e]; try contradiction; try exact I.
  change (SF64add (S754_zero false) (S754_finite s m e))
    with (S754_finite s m e).
  rewrite SFsub_diag. exact I.
Qed.

Lemma nth_error_mapi_from {A B : Type} (f : A -> nat -> B) (l : list A) :
  forall k i,
    nth_error (map (fun p => f (snd p) (fst p))
                   (combine (seq k (length l)) l)) i =
    option_map (fun a => f a (k + i)%nat) (nth_error l i).
Proof.
  induction l as [|a l IH]; intros k [|i]; cbn [length seq combine map
    nth_error option_map]; try reflexivity.
  - rewrite Nat.add_0_r. reflexivity.
  - rewrite IH. destruct (nth_error l i); cbn [option_map];
      [rewrite Nat.add_succ_r|]; reflexivity.
Qed.

Lemma nth_error_mapi {A B : Type} (f : A -> nat -> B) (l : list A) i :
  nth_error (mapi f l) i = option_map (fun a => f a i) (nth_error l i).
Proof. apply (nth_error_mapi_from f l 0 i). Qed.

Lemma length_mapi {A B : Type} (f : A -> nat -> B) (l : list A) :
  length (mapi f l) = length l.
Proof.
  unfold mapi, indexed.
  rewrite length_map, length_combine, length_seq. apply Nat.min_id.
Qed.

Lemma forallb_mapi {A B : Type} (P : B -> bool) (f : A -> nat -> B)
    (l : list A) :
  (forall i a, nth_error l i = Some a -> P (f a i) = true) ->
  forallb P (mapi f l) = true.
Proof.
  intros H. apply forallb_forall. intros b Hb.
  apply In_nth_error in Hb. destruct Hb as [i Hi].
  rewrite nth_error_mapi in Hi.
  destruct (nth_error l i) as [a|] eqn:Ha; [|discriminate].
  injection Hi as <-. exact (H i a Ha).
Qed.

(** A single vector with finite entries is centred to a row of zeros. *)
Lemma single_vector_centred (v : list number) :
  allFinite v = true ->
  centeredIn [v] None =
    [center (meanIn [v] None) v] /\
  zeroRow (center (meanIn [v] None) v) = true.
Proof.
  intros Hv. split; [reflexivity|].
  unfold zeroRow, center. apply forallb_mapi. intros i a Ha.
  assert (Hfin : is_finite a = true).
  { apply (proj1 (forallb_forall _ _) Hv). exact (nth_error_In _ _ Ha). }
  assert (Hi : (i < length v)%nat)
    by (apply (proj1 (nth_error_Some v i)); unfold number;
        rewrite Ha; discriminate).
  assert (Hmean : idx (meanIn [v] None) i = 0 + a / 1).
  { unfold idx, meanIn, workingSet, dimOf, meanOf.
    cbn [hd length fold_left].
    apply nth_error_nth. rewrite nth_error_mapi.
    rewrite (nth_error_repeat _ Hi).
    cbn [option_map]. unfold idx. rewrite (nth_error_nth _ _ _ Ha).
    reflexivity. }
  rewrite Hmean. apply centre_of_one, Hfin.
Qed.

(** C2, amended. A batch of a single vector with finite entries and no
    query vector, and more generally any batch and optional query vector
    whose centred rows hold only zeros, is projected to the origin, query
    point included, provided both axes are finite at the positions of the
    rows. *)
Theorem degenerate_batch_projects_to_origin :
  forall rand vectors queryVector,
    (forall row, In row (centeredIn vectors queryVector) ->
       finiteAlong (axis1 rand vectors queryVector) row = true /\
       finiteAlong (axis2 rand vectors queryVector) row = true) ->
    ((exists v, vectors = [v] /\ queryVector = None /\
                allFinite v = true) \/
     (vectors <> [] /\
      forall row, In row (centeredIn vectors queryVector) ->
        zeroRow row = true)) ->
    (forall p, In p (projected (projectTo2D rand vectors queryVector)) ->
       p = (0, 0)) /\
    queryProjected (projectTo2D rand vectors queryVector) =
      option_map (fun _ => (0, 0)) queryVector.
Proof.
  intros rand vectors queryVector Hfin Hdeg.
  assert (Hrows : vectors <> [] /\
                  forall row, In row (centeredIn vectors queryVector) ->
                    zeroRow row = true).
  { destruct Hdeg as [[v [-> [-> Hv]]]|H]; [|exact H].
    split; [discriminate|].
    destruct (single_vector_centred v Hv) as [Hc Hz].
    rewrite Hc. intros row [<-|[]]. exact Hz. }
  destruct Hrows as [Hne Hzero].
  assert (Hproj : forall v, In v (workingSet vectors queryVector) ->
                    projectionOf rand vectors queryVector v = (0, 0)).
  { intros v Hv. unfold projectionOf, project.
    assert (Hin : In (center (meanIn vectors queryVector) v)
                     (centeredIn vectors queryVector))
      by (unfold centeredIn; apply in_map; exact Hv).
    destruct (Hfin _ Hin) as [H1 H2].
    rewrite (dotProduct_zero_row _ _ (Hzero _ Hin) H1).
    rewrite (dotProduct_zero_row _ _ (Hzero _ Hin) H2). reflexivity. }
  destruct vectors as [|v0 vectors]; [congruence|].
  destruct (projectTo2D_cons rand v0 vectors queryVector) as [Hp Hq].
  split.
  - intros p Hin. rewrite Hp in Hin. apply in_map_iff in Hin.
    destruct Hin as [v [<- Hv]]. apply Hproj.
    unfold workingSet. destruct queryVector; [apply in_or_app; left|];
      exact Hv.
  - rewrite Hq. destruct queryVector as [q|]; [|reflexivity].
    cbn [option_map]. f_equal. apply Hproj.
    unfold workingSet. apply in_or_app. right. left. reflexivity.
Qed.

(** Three copies of [[0.1, 0.2]] and the same vector as query: the mean
    is exact, every centred row is zero, both axes are finite. *)
Lemma degenerate_batch_projects_to_origin_witness :
  (forall p,
     In p (projected (projectTo2D draws (repeat [0.1; 0.2] 3)
                        (Some [0.1; 0.2]))) ->
     p = (0, 0)) /\
  queryProjected (projectTo2D draws (repeat [0.1; 0.2] 3) (Some [0.1; 0.2]))
    = option_map (fun _ => (0, 0)) (Some [0.1; 0.2]).
Proof.
  apply (degenerate_batch_projects_to_origin draws (repeat [0.1; 0.2] 3)
           (Some [0.1; 0.2])).
  - intros row Hrow. vm_compute in Hrow.
    repeat (destruct Hrow as [<- | Hrow];
            [split; vm_compute; reflexivity|]).
    destruct Hrow.
  - right. split; [discriminate|].
    intros row Hrow. vm_compute in Hrow.
    repeat (destruct Hrow as [<- | Hrow]; [vm_compute; reflexivity|]).
    destruct Hrow.
Defined.

(** A single two-dimensional vector lands on the origin. *)
Lemma single_vector_at_origin :
  projectTo2D draws [[0.1; 0.2]] None =
  {| projected := [(0, 0)]; queryProjected := None |}.
Proof. vm_compute. reflexivity. Qed.

End DegenerateFacts.

(** ** Rounding as a function of the exact value *)

Module ValueFacts.

Import Rounding.

Local Open Scope Z_scope.

Lemma iter_pos_iter {A : Type} (f : A -> A) (n : positive) :
  forall x, iter_pos f n x = Pos.iter f x n.
Proof.
  induction n as [n IH|n IH|]; intros x; cbn [iter_pos Pos.iter].
  - rewrite !IH, <- !Pos.iter_swap. reflexivity.
  - rewrite !IH. reflexivity.
  - reflexivity.
Qed.

Lemma iter_pos_succ {A : Type} (f : A -> A) (n : positive) (x : A) :
  iter_pos f (Pos.succ n) x = iter_pos f n (f x).
Proof. rewrite !iter_pos_iter. apply Pos.iter_succ_r. Qed.

(** Shifting an even mantissa out of an exact record by one place. *)
Lemma shr_even (p : positive) (E n : Z) :
  1 <= n ->
  shr (shr_record_of_loc (Zpos p~0) loc_Exact) E n =
  shr (shr_record_of_loc (Zpos p) loc_Exact) (E + 1) (n - 1).
Proof.
  intros Hn. destruct n as [|k|k]; try lia.
  destruct (Pos.eq_dec k 1) as [->|Hk].
  - cbn [shr Z.sub Z.add Z.opp Z.pos_sub iter_pos shr_record_of_loc shr_1
         orb]. reflexivity.
  - replace (Zpos k - 1) with (Zpos (Pos.pred k)) by lia.
    cbn [shr]. f_equal; [|lia].
    rewrite <- (Pos.succ_pred k Hk) at 1.
    rewrite iter_pos_succ. reflexivity.
Qed.

(** The rounding of [2p] at exponent [E] is that of [p] at [E + 1], as
    soon as one place at least is shifted out. *)
Lemma binary_round_aux_even s (p : positive) (E : Z) :
  1 <= fexp prec emax (Zdigits2 (Zpos p~0) + E) - E ->
  binary_round_aux prec emax s (Zpos p~0) E loc_Exact =
  binary_round_aux prec emax s (Zpos p) (E + 1) loc_Exact.
Proof.
  intros Hn. unfold binary_round_aux.
  assert (Hs : shr_fexp prec emax (Zpos p~0) E loc_Exact =
               shr_fexp prec emax (Zpos p) (E + 1) loc_Exact).
  { unfold shr_fexp. rewrite (shr_even p E _ Hn). f_equal.
    cbn [Zdigits2 digits2_pos]. rewrite Pos2Z.inj_succ.
    replace (Z.succ (Zpos (digits2_pos p)) + E)
      with (Zpos (digits2_pos p) + (E + 1)) by lia.
    lia. }
  rewrite Hs. reflexivity.
Qed.

Lemma fexp_eq (x : Z) : fexp prec emax x = Z.max (x - 53) (-1074).
Proof. reflexivity. Qed.

(** One doubling of the mantissa against one step of the exponent. *)
Lemma binary_round_even s (p : positive) (e : Z) :
  binary_round prec emax s p~0 e = binary_round prec emax s p (e + 1).
Proof.
  unfold binary_round.
  assert (Ht : fexp prec emax (Zpos (digits2_pos p~0) + e) =
               fexp prec emax (Zpos (digits2_pos p) + (e + 1))).
  { cbn [digits2_pos]. rewrite Pos2Z.inj_succ. f_equal. lia. }
  rewrite <- Ht.
  set (t := fexp prec emax (Zpos (digits2_pos p~0) + e)) in *.
  unfold shl_align.
  destruct (t - e) as [|k|k] eqn:Hk.
  - replace (t - (e + 1)) with (Zneg 1) by lia.
    cbn [Pos.iter]. replace t with e by lia. reflexivity.
  - assert (Hk' : 0 <= t - (e + 1)) by lia.
    destruct (t - (e + 1)) as [|k'|k'] eqn:Hk''; try lia;
      apply binary_round_aux_even; change (1 <= t - e); lia.
  - replace (t - (e + 1)) with (Zneg (Pos.succ k)) by lia.
    rewrite Pos.iter_succ_r. reflexivity.
Qed.

Lemma Zpos_iter_xO (k : nat) (p : positive) :
  Zpos (Nat.iter k xO p) = Zpos p * 2 ^ Z.of_nat k.
Proof.
  induction k as [|k IH].
  - cbn [Nat.iter nat_rect Z.of_nat]. lia.
  - change (Nat.iter (S k) xO p) with (xO (Nat.iter k xO p)).
    rewrite Pos2Z.inj_xO, IH, Nat2Z.inj_succ, Z.pow_succ_r by lia. lia.
Qed.

Lemma binary_round_scaled s (k : nat) :
  forall (p : positive) (e : Z),
    binary_round prec emax s (Nat.iter k xO p) e =
    binary_round prec emax s p (e + Z.of_nat k).
Proof.
  induction k as [|k IH]; intros p e.
  - cbn [Nat.iter nat_rect Z.of_nat]. f_equal. lia.
  - change (Nat.iter (S k) xO p) with (xO (Nat.iter k xO p)).
    rewrite binary_round_even, IH, Nat2Z.inj_succ. f_equal. lia.
Qed.

(** The rounding depends on the value alone: [M * 2 ^ k] at exponent [e]
    rounds as [M] at [e + k]. *)
Lemma binary_normalize_scaled (M e k : Z) :
  0 <= k ->
  binary_normalize prec emax (M * 2 ^ k) e false =
  binary_normalize prec emax M (e + k) false.
Proof.
  intros Hk. rewrite <- (Z2Nat.id k Hk).
  assert (Hp : forall p : positive,
            Zpos p * 2 ^ Z.of_nat (Z.to_nat k) =
            Zpos (Nat.iter (Z.to_nat k) xO p))
    by (intros p; symmetry; apply Zpos_iter_xO).
  destruct M as [|p|p].
  - rewrite Z.mul_0_l. reflexivity.
  - rewrite Hp. cbn [binary_normalize]. apply binary_round_scaled.
  - change (Zneg p) with (- Zpos p). rewrite Z.mul_opp_l, Hp.
    cbn [binary_normalize Z.opp]. apply binary_round_scaled.
Qed.

Lemma canonical_low m e : canonical m e -> -1074 <= e.
Proof. intros [H _]. lia. Qed.

Lemma binary_round_canonical s m e :
  canonical m e -> binary_round prec emax s m e = S754_finite s m e.
Proof.
  intros Hc. unfold binary_round, shl_align.
  replace (fexp prec emax (Zpos (digits2_pos m) + e) - e) with 0
    by (destruct Hc; rewrite fexp_eq; lia).
  apply binary_round_aux_canonical, Hc.
Qed.

(** Rounding the exact value of a binary64 number gives it back. *)
Lemma roundUnits_canonical s m e :
  canonical m e ->
  roundUnits (cond_Zopp s (Zpos m) * 2 ^ (e + 1074)) = S754_finite s m e.
Proof.
  intros Hc. pose proof (canonical_low m e Hc) as He. unfold roundUnits.
  rewrite binary_normalize_scaled by lia.
  replace (-1074 + (e + 1074)) with e by lia.
  destruct s; cbn [cond_Zopp Z.opp binary_normalize];
    apply binary_round_canonical, Hc.
Qed.

End ValueFacts.

(** ** Sums and differences as roundings of exact values *)

Module ExactFacts.

Import Rounding ValueFacts.

Local Open Scope Z_scope.

Lemma Zpos_pos_iter_xO (d m : positive) :
  Zpos (Pos.iter xO m d) = Zpos m * 2 ^ Zpos d.
Proof.
  induction d as [|d IH] using Pos.peano_ind.
  - cbn [Pos.iter]. lia.
  - rewrite Pos.iter_succ, Pos2Z.inj_xO, IH, Pos2Z.inj_succ,
      Z.pow_succ_r by lia. lia.
Qed.

Lemma shl_align_value (mx : positive) (ex ez : Z) :
  ez <= ex ->
  Zpos (fst (shl_align mx ex ez)) = Zpos mx * 2 ^ (ex - ez) /\
  snd (shl_align mx ex ez) = ez.
Proof.
  intros H. unfold shl_align.
  destruct (ez - ex) as [|d|d] eqn:E; try lia; cbn [fst snd].
  - replace (ex - ez) with 0 by lia. split; lia.
  - rewrite Zpos_pos_iter_xO. replace (ex - ez) with (Zpos d) by lia.
    split; reflexivity.
Qed.

Lemma units_at (s : bool) (m : positive) (e ez : Z) :
  -1074 <= ez -> ez <= e ->
  cond_Zopp s (Zpos m) * 2 ^ (e + 1074) =
  cond_Zopp s (Zpos m * 2 ^ (e - ez)) * 2 ^ (ez + 1074).
Proof.
  intros H1 H2.
  replace (e + 1074) with ((e - ez) + (ez + 1074)) by lia.
  rewrite Z.pow_add_r by lia. destruct s; cbn [cond_Zopp]; lia.
Qed.

Lemma valid_low s m e :
  valid_binary (S754_finite s m e) = true -> -1074 <= e.
Proof. intros H. exact (canonical_low m e (valid_canonical s m e H)). Qed.

(** The value of the aligned operands of a sum or difference. *)
Lemma aligned_units sx mx ex sy my ey :
  -1074 <= ex -> -1074 <= ey ->
  cond_Zopp sx (Zpos (fst (shl_align mx ex (Z.min ex ey))))
    * 2 ^ (Z.min ex ey + 1074) = unitsSF (S754_finite sx mx ex) /\
  cond_Zopp sy (Zpos (fst (shl_align my ey (Z.min ex ey))))
    * 2 ^ (Z.min ex ey + 1074) = unitsSF (S754_finite sy my ey).
Proof.
  intros Hx Hy. cbn [unitsSF].
  destruct (shl_align_value mx ex (Z.min ex ey)) as [-> _]; [lia|].
  destruct (shl_align_value my ey (Z.min ex ey)) as [-> _]; [lia|].
  rewrite (units_at sx mx ex (Z.min ex ey)) by lia.
  rewrite (units_at sy my ey (Z.min ex ey)) by lia.
  split; reflexivity.
Qed.

Lemma roundUnits_at (M ez : Z) :
  -1074 <= ez ->
  binary_normalize prec emax M ez false = roundUnits (M * 2 ^ (ez + 1074)).
Proof.
  intros H. unfold roundUnits. rewrite binary_normalize_scaled by lia.
  f_equal. lia.
Qed.

Lemma unitsSF_opp s m e :
  unitsSF (S754_finite (negb s) m e) = - unitsSF (S754_finite s m e).
Proof. cbn [unitsSF]. destruct s; cbn [negb cond_Zopp]; lia. Qed.

(** A difference of finite numbers is the rounding of the exact
    difference. *)
Lemma sub_units (x y : spec_float) :
  valid_binary x = true -> valid_binary y = true ->
  SFfinite x -> SFfinite y -> unitsSF x <> unitsSF y ->
  SF64sub x y = roundUnits (unitsSF x - unitsSF y).
Proof.
  intros Vx Vy Fx Fy Hne.
  destruct x as [sx| | |sx mx ex]; try contradiction;
    destruct y as [sy| | |sy my ey]; try contradiction.
  - unfold SF64sub, SFsub. change (unitsSF (S754_zero sx)) with 0.
    rewrite Z.sub_0_l, <- unitsSF_opp.
    cbn [unitsSF]. symmetry. apply roundUnits_canonical.
    exact (valid_canonical _ _ _ Vy).
  - unfold SF64sub, SFsub. change (unitsSF (S754_zero sy)) with 0.
    rewrite Z.sub_0_r.
    cbn [unitsSF]. symmetry. apply roundUnits_canonical.
    exact (valid_canonical _ _ _ Vx).
  - pose proof (valid_low _ _ _ Vx) as Lx.
    pose proof (valid_low _ _ _ Vy) as Ly.
    destruct (aligned_units sx mx ex sy my ey Lx Ly) as [Ux Uy].
    unfold SF64sub, SFsub. rewrite roundUnits_at by lia.
    f_equal. rewrite Z.mul_sub_distr_r.
    change (IntDef.Z.min ex ey) with (Z.min ex ey).
    rewrite Ux, Uy. reflexivity.
Qed.

(** Numbers of equal value have a zero for difference. *)
Lemma sub_units_zero (x y : spec_float) :
  valid_binary x = true -> valid_binary y = true ->
  SFfinite x -> SFfinite y -> unitsSF x = unitsSF y ->
  SFzero (SF64sub x y).
Proof.
  intros Vx Vy Fx Fy He.
  destruct x as [sx| | |sx mx ex]; try contradiction;
    destruct y as [sy| | |sy my ey]; try contradiction.
  - destruct sx, sy; exact I.
  - exfalso. cbn [unitsSF] in He. pose proof (valid_low _ _ _ Vy).
    assert (0 < 2 ^ (ey + 1074)) by (apply Z.pow_pos_nonneg; lia).
    destruct sy; cbn [cond_Zopp] in He; nia.
  - exfalso. cbn [unitsSF] in He. pose proof (valid_low _ _ _ Vx).
    assert (0 < 2 ^ (ex + 1074)) by (apply Z.pow_pos_nonneg; lia).
    destruct sx; cbn [cond_Zopp] in He; nia.
  - pose proof (valid_low _ _ _ Vx) as Lx.
    pose proof (valid_low _ _ _ Vy) as Ly.
    destruct (aligned_units sx mx ex sy my ey Lx Ly) as [Ux Uy].
    unfold SF64sub, SFsub.
    change (IntDef.Z.min ex ey) with (Z.min ex ey).
    set (X := cond_Zopp sx _) in *. set (Y := cond_Zopp sy _) in *.
    assert (E : X - Y = 0).
    { assert (0 < 2 ^ (Z.min ex ey + 1074))
        by (apply Z.pow_pos_nonneg; lia).
      nia. }
    rewrite E. exact I.
Qed.

(** A sum of finite numbers is the rounding of the exact sum. *)
Lemma add_units (x y : spec_float) :
  valid_binary x = true -> valid_binary y = true ->
  SFfinite x -> SFfinite y -> unitsSF x + unitsSF y <> 0 ->
  SF64add x y = roundUnits (unitsSF x + unitsSF y).
Proof.
  intros Vx Vy Fx Fy Hne.
  destruct x as [sx| | |sx mx ex]; try contradiction;
    destruct y as [sy| | |sy my ey]; try contradiction.
  - unfold SF64add, SFadd. change (unitsSF (S754_zero sx)) with 0.
    rewrite Z.add_0_l.
    cbn [unitsSF]. symmetry. apply roundUnits_canonical.
    exact (valid_canonical _ _ _ Vy).
  - unfold SF64add, SFadd. change (unitsSF (S754_zero sy)) with 0.
    rewrite Z.add_0_r.
    cbn [unitsSF]. symmetry. apply roundUnits_canonical.
    exact (valid_canonical _ _ _ Vx).
  - pose proof (valid_low _ _ _ Vx) as Lx.
    pose proof (valid_low _ _ _ Vy) as Ly.
    destruct (aligned_units sx mx ex sy my ey Lx Ly) as [Ux Uy].
    unfold SF64add, SFadd. rewrite roundUnits_at by lia.
    f_equal. rewrite Z.mul_add_distr_r.
    change (IntDef.Z.min ex ey) with (Z.min ex ey).
    rewrite Ux, Uy. reflexivity.
Qed.

End ExactFacts.

(** ** Halves: doubling commutes with rounding, and a half divides to 0.5 *)

Module HalfFacts.

Import Rounding ValueFacts ExactFacts.

Local Open Scope Z_scope.

Lemma shr_translate (r : shr_record) (E n k : Z) :
  shr r (E + k) n = (fst (shr r E n), snd (shr r E n) + k).
Proof. destruct n; cbn [shr fst snd]; f_equal; lia. Qed.

Lemma shr_fexp_translate (M E k : Z) (l : location) :
  53 <= Zdigits2 M -> -1074 <= E -> 0 <= k ->
  shr_fexp prec emax M (E + k) l =
  (fst (shr_fexp prec emax M E l), snd (shr_fexp prec emax M E l) + k).
Proof.
  intros Hd HE Hk. unfold shr_fexp.
  replace (fexp prec emax (Zdigits2 M + (E + k)) - (E + k))
    with (fexp prec emax (Zdigits2 M + E) - E)
    by (rewrite !fexp_eq; lia).
  apply shr_translate.
Qed.

(** Rounding a mantissa of at least 53 digits, at any exponent from
    [E] up: one mantissa, and an exponent that follows [E]. *)
Lemma round_normal_shape (M E d : Z) (l : location) :
  0 < M -> 2 ^ (d - 1) <= M < 2 ^ d -> 53 <= d -> -1074 <= E ->
  exists m e,
    2 ^ 52 <= Zpos m < 2 ^ 53 /\ E <= e /\
    forall k s, 0 <= k ->
      binary_round_aux prec emax s M (E + k) l =
      if e + k <=? 971 then S754_finite s m (e + k) else S754_infinity s.
Proof.
  intros HM Hd H53 HE.
  assert (HdM : Zdigits2 M = d) by (apply Zdigits2_unique; assumption).
  destruct (shr_fexp_normal M E d l HM Hd H53) as [Hm1 He1];
    [unfold emin64; lia|].
  assert (Hq : 2 ^ 52 <= M / 2 ^ (d - 53) < 2 ^ 53).
  { assert (Hp : 0 < 2 ^ (d - 53)) by (apply Z.pow_pos_nonneg; lia).
    split.
    - apply Z.div_le_lower_bound; [exact Hp|].
      rewrite <- Z.pow_add_r by lia.
      replace (d - 53 + 52) with (d - 1) by lia. lia.
    - apply Z.div_lt_upper_bound; [exact Hp|].
      rewrite <- Z.pow_add_r by lia.
      replace (d - 53 + 53) with d by lia. lia. }
  assert (Hfirst : forall k, 0 <= k ->
            shr_fexp prec emax M (E + k) l =
            (fst (shr_fexp prec emax M E l), E + (d - 53) + k)).
  { intros k Hk. rewrite shr_fexp_translate by lia. rewrite He1.
    reflexivity. }
  destruct (shr_fexp prec emax M E l) as [mrs1 e1].
  cbn [fst snd] in Hm1, He1, Hfirst. subst e1.
  pose proof (round_nearest_even_bounds (shr_m mrs1)
                (loc_of_shr_record mrs1)) as Hr.
  set (m2 := round_nearest_even (shr_m mrs1) (loc_of_shr_record mrs1)) in *.
  rewrite Hm1 in Hr.
  destruct (Z.eq_dec m2 (2 ^ 53)) as [Hcarry|Hnocarry].
  - exists (2 ^ 52)%positive, (E + (d - 53) + 1).
    split; [simpl; lia|]. split; [lia|]. intros k s Hk.
    unfold binary_round_aux. rewrite (Hfirst k Hk). fold m2.
    destruct (shr_fexp_normal m2 (E + (d - 53) + k) 54 loc_Exact)
      as [Hm3 He3];
      try (rewrite Hcarry; simpl; lia); try (unfold emin64; lia).
    destruct (shr_fexp prec emax m2 (E + (d - 53) + k) loc_Exact)
      as [mrs3 e3].
    cbn [fst snd] in Hm3, He3. subst e3. rewrite Hm3, Hcarry.
    change (2 ^ 53 / 2 ^ (54 - 53)) with (Zpos (2 ^ 52)).
    change (emax - prec) with 971.
    replace (E + (d - 53) + k + (54 - 53)) with (E + (d - 53) + 1 + k)
      by lia.
    reflexivity.
  - destruct m2 as [|p2|p2] eqn:Em2; try lia.
    exists p2, (E + (d - 53)).
    split; [lia|]. split; [lia|]. intros k s Hk.
    unfold binary_round_aux. rewrite (Hfirst k Hk). fold m2. rewrite Em2.
    destruct (shr_fexp_normal (Zpos p2) (E + (d - 53) + k) 53 loc_Exact)
      as [Hm3 He3];
      try (simpl; lia); try (unfold emin64; lia).
    destruct (shr_fexp prec emax (Zpos p2) (E + (d - 53) + k) loc_Exact)
      as [mrs3 e3].
    cbn [fst snd] in Hm3, He3. subst e3. rewrite Hm3.
    change (2 ^ (53 - 53)) with 1. rewrite Z.div_1_r.
    change (emax - prec) with 971.
    replace (E + (d - 53) + k + (53 - 53)) with (E + (d - 53) + k) by lia.
    reflexivity.
Qed.

Lemma full_canonical (m : positive) (e : Z) :
  2 ^ 52 <= Zpos m < 2 ^ 53 -> -1074 <= e -> e <= 971 -> canonical m e.
Proof.
  intros Hm He He'. unfold canonical.
  assert (Hd : Zdigits2 (Zpos m) = 53)
    by (apply Zdigits2_unique; [lia|exact Hm]).
  cbn [Zdigits2] in Hd. rewrite Hd. lia.
Qed.

Lemma small_canonical (m : positive) :
  Zpos m < 2 ^ 53 -> canonical m (-1074).
Proof.
  intros Hm. unfold canonical.
  pose proof (digits2_pos_bounds m) as [Hlo _].
  assert (Hd : Zpos (digits2_pos m) <= 53).
  { destruct (Z_le_gt_dec (Zpos (digits2_pos m)) 53) as [H|H];
      [exact H|].
    assert (2 ^ 53 <= 2 ^ (Zpos (digits2_pos m) - 1))
      by (apply Z.pow_le_mono_r; lia).
    lia. }
  lia.
Qed.

Lemma roundUnits_pos s (p : positive) :
  roundUnits (cond_Zopp s (Zpos p)) =
  binary_round_aux prec emax s (Zpos p) (-1074) loc_Exact.
Proof.
  unfold roundUnits.
  assert (H : binary_round prec emax s p (-1074) =
              binary_round_aux prec emax s (Zpos p) (-1074) loc_Exact).
  { unfold binary_round, shl_align. rewrite fexp_eq.
    destruct (Z.max (Zpos (digits2_pos p) + -1074 - 53) (-1074) - -1074)
      as [|k|k] eqn:E; try reflexivity; lia. }
  destruct s; cbn [cond_Zopp Z.opp binary_normalize]; exact H.
Qed.

(** Doubling commutes with rounding, short of overflow. *)
Lemma roundUnits_double (u : Z) :
  u <> 0 ->
  (forall s, roundUnits (2 * u) <> S754_infinity s) ->
  exists s m1 e1 m2 e2,
    roundUnits u = S754_finite s m1 e1 /\
    roundUnits (2 * u) = S754_finite s m2 e2 /\
    canonical m1 e1 /\ canonical m2 e2 /\
    2 * (Zpos m1 * 2 ^ (e1 + 1074)) = Zpos m2 * 2 ^ (e2 + 1074).
Proof.
  intros Hu Hfin.
  assert (Hs : exists s p, u = cond_Zopp s (Zpos p)).
  { destruct u as [|p|p]; [contradiction Hu; reflexivity| |].
    - exists false, p. reflexivity.
    - exists true, p. reflexivity. }
  destruct Hs as [s [p ->]].
  assert (H2 : 2 * cond_Zopp s (Zpos p) = cond_Zopp s (Zpos p~0))
    by (destruct s; reflexivity).
  rewrite H2 in *.
  destruct (Z_lt_ge_dec (Zpos p) (2 ^ 52)) as [Hsmall|Hbig].
  - (* both are exact *)
    exists s, p, (-1074), (xO p), (-1074).
    assert (C1 : canonical p (-1074)) by (apply small_canonical; lia).
    assert (C2 : canonical p~0 (-1074))
      by (apply small_canonical; rewrite Pos2Z.inj_xO; lia).
    pose proof (roundUnits_canonical s p (-1074) C1) as R1.
    pose proof (roundUnits_canonical s p~0 (-1074) C2) as R2.
    change (2 ^ (-1074 + 1074)) with 1 in R1, R2.
    rewrite Z.mul_1_r in R1, R2.
    split; [exact R1|]. split; [exact R2|].
    split; [exact C1|]. split; [exact C2|].
    change (2 ^ (-1074 + 1074)) with 1. rewrite Pos2Z.inj_xO. lia.
  - (* both are rounded at the same place *)
    pose proof (digits2_pos_bounds p) as Hd.
    assert (H53 : 53 <= Zpos (digits2_pos p)).
    { destruct (Z_le_gt_dec 53 (Zpos (digits2_pos p))) as [H|H];
        [exact H|].
      assert (2 ^ Zpos (digits2_pos p) <= 2 ^ 52)
        by (apply Z.pow_le_mono_r; lia).
      lia. }
    destruct (round_normal_shape (Zpos p) (-1074) (Zpos (digits2_pos p))
                loc_Exact) as [m [e [Hm [He Hall]]]]; try lia.
    assert (R1 : roundUnits (cond_Zopp s (Zpos p)) =
                 if e <=? 971 then S754_finite s m e else S754_infinity s).
    { rewrite roundUnits_pos.
      pose proof (Hall 0 s ltac:(lia)) as K.
      rewrite !Z.add_0_r in K. exact K. }
    assert (R2 : roundUnits (cond_Zopp s (Zpos p~0)) =
                 if e + 1 <=? 971 then S754_finite s m (e + 1)
                 else S754_infinity s).
    { rewrite roundUnits_pos.
      rewrite binary_round_aux_even
        by (rewrite fexp_eq; cbn [Zdigits2 digits2_pos];
            rewrite Pos2Z.inj_succ; lia).
      exact (Hall 1 s ltac:(lia)). }
    destruct (e + 1 <=? 971) eqn:Hle.
    + apply Z.leb_le in Hle.
      replace (e <=? 971) with true in R1
        by (symmetry; apply Z.leb_le; lia).
      exists s, m, e, m, (e + 1).
      split; [exact R1|]. split; [exact R2|].
      split; [apply full_canonical; lia|].
      split; [apply full_canonical; lia|].
      replace (e + 1 + 1074) with (Z.succ (e + 1074)) by lia.
      rewrite Z.pow_succ_r by lia. lia.
    + exfalso. exact (Hfin s R2).
Qed.

Lemma div_eucl_exact (b k : Z) :
  0 < b -> Z.div_eucl (b * k) b = (k, 0).
Proof.
  intros Hb.
  rewrite (surjective_pairing (Z.div_eucl (b * k) b)).
  change (fst (Z.div_eucl (b * k) b)) with ((b * k) / b).
  change (snd (Z.div_eucl (b * k) b)) with ((b * k) mod b).
  rewrite Z.mul_comm, Z.div_mul, Z.mod_mul by lia. reflexivity.
Qed.

Lemma canonical_digits m e : canonical m e -> Zpos (digits2_pos m) <= 53.
Proof. intros [H _]. lia. Qed.

(** The binary order of a value fixes digits plus exponent. *)
Lemma order_unique (m1 m2 : positive) (a b : Z) :
  0 <= a -> 0 <= b ->
  Zpos m1 * 2 ^ a = Zpos m2 * 2 ^ b ->
  Zpos (digits2_pos m1) + a = Zpos (digits2_pos m2) + b.
Proof.
  intros Ha Hb H.
  pose proof (digits2_pos_bounds m1) as [L1 U1].
  pose proof (digits2_pos_bounds m2) as [L2 U2].
  set (d1 := Zpos (digits2_pos m1)) in *.
  set (d2 := Zpos (digits2_pos m2)) in *.
  assert (P1 : 0 < d1) by (unfold d1; lia).
  assert (P2 : 0 < d2) by (unfold d2; lia).
  assert (Pa : 0 < 2 ^ a) by (apply Z.pow_pos_nonneg; lia).
  assert (Pb : 0 < 2 ^ b) by (apply Z.pow_pos_nonneg; lia).
  assert (A1 : 2 ^ (d1 - 1 + a) <= Zpos m1 * 2 ^ a)
    by (rewrite Z.pow_add_r by lia; nia).
  assert (A2 : Zpos m1 * 2 ^ a < 2 ^ (d1 + a))
    by (rewrite Z.pow_add_r by lia; nia).
  assert (B1 : 2 ^ (d2 - 1 + b) <= Zpos m2 * 2 ^ b)
    by (rewrite Z.pow_add_r by lia; nia).
  assert (B2 : Zpos m2 * 2 ^ b < 2 ^ (d2 + b))
    by (rewrite Z.pow_add_r by lia; nia).
  assert (C1 : d1 - 1 + a < d2 + b)
    by (apply (Z.pow_lt_mono_r_iff 2); lia).
  assert (C2 : d2 - 1 + b < d1 + a)
    by (apply (Z.pow_lt_mono_r_iff 2); lia).
  lia.
Qed.

(** A number divided by its double is 0.5. *)
Lemma SFdiv_half s m1 e1 m2 e2 :
  canonical m1 e1 -> canonical m2 e2 ->
  2 * (Zpos m1 * 2 ^ (e1 + 1074)) = Zpos m2 * 2 ^ (e2 + 1074) ->
  SF64div (S754_finite s m1 e1) (S754_finite s m2 e2) =
  S754_finite false 4503599627370496 (-53).
Proof.
  intros C1 C2 H.
  pose proof (canonical_low _ _ C1) as L1.
  pose proof (canonical_low _ _ C2) as L2.
  pose proof (canonical_digits _ _ C1) as D1.
  pose proof (canonical_digits _ _ C2) as D2.
  assert (Hord : Zpos (digits2_pos m1) + e1 + 1 =
                 Zpos (digits2_pos m2) + e2).
  { assert (H' : Zpos m1 * 2 ^ (e1 + 1075) = Zpos m2 * 2 ^ (e2 + 1074)).
    { replace (e1 + 1075) with (Z.succ (e1 + 1074)) by lia.
      rewrite Z.pow_succ_r by lia. lia. }
    pose proof (order_unique m1 m2 (e1 + 1075) (e2 + 1074)
                  ltac:(lia) ltac:(lia) H').
    lia. }
  assert (Hpos1 : 0 < Zpos (digits2_pos m1)) by lia.
  assert (Hpos2 : 0 < Zpos (digits2_pos m2)) by lia.
  unfold SF64div, SFdiv, SFdiv_core_binary.
  rewrite xorb_nilpotent. cbn [Zdigits2].
  replace (Zpos (digits2_pos m1) + e1 - (Zpos (digits2_pos m2) + e2))
    with (-1) by lia.
  change (fexp prec emax (-1)) with (-54).
  replace (Z.min (-54) (e1 - e2)) with (-54) by lia.
  replace (e1 - e2 - -54) with (e1 - e2 + 54) by lia.
  assert (Hs : 0 < e1 - e2 + 54) by lia.
  destruct (e1 - e2 + 54) as [|k|k] eqn:Ek; try lia.
  rewrite Z.shiftl_mul_pow2 by lia. rewrite <- Ek.
  assert (Hm : Zpos m1 * 2 ^ (e1 - e2 + 54) = Zpos m2 * 2 ^ 53).
  { assert (Pb : 0 < 2 ^ (e2 + 1074)) by (apply Z.pow_pos_nonneg; lia).
    apply (Z.mul_reg_r _ _ (2 ^ (e2 + 1074))); [lia|].
    rewrite <- !Z.mul_assoc, <- !Z.pow_add_r by lia.
    replace (e1 - e2 + 54 + (e2 + 1074)) with (54 + (e1 + 1074)) by lia.
    rewrite (Z.pow_add_r 2 54) by lia.
    rewrite (Z.pow_add_r 2 53) by lia.
    change (2 ^ 54) with (2 * 2 ^ 53). nia. }
  rewrite Hm, div_eucl_exact by lia.
  assert (Hloc : new_location (Zpos m2) 0 = loc_Exact).
  { unfold new_location, new_location_even, new_location_odd.
    destruct (Z.even (Zpos m2)); reflexivity. }
  rewrite Hloc. vm_compute. reflexivity.
Qed.

End HalfFacts.

(** ** The centre of the box and the centre of the viewport *)

Module CentreFacts.

Import Rounding ValueFacts ExactFacts HalfFacts.

Lemma Prim2SF_half : Prim2SF 0.5 = S754_finite false 4503599627370496 (-53)%Z.
Proof. vm_compute. reflexivity. Qed.

Lemma Prim2SF_two : Prim2SF 2 = S754_finite false 4503599627370496 (-51)%Z.
Proof. vm_compute. reflexivity. Qed.

Lemma Prim2SF_32 : Prim2SF 32 = S754_finite false 4503599627370496 (-47)%Z.
Proof. vm_compute. reflexivity. Qed.

Lemma Prim2SF_40 : Prim2SF 40 = S754_finite false 5629499534213120 (-47)%Z.
Proof. vm_compute. reflexivity. Qed.

Lemma Prim2SF_80 : Prim2SF 80 = S754_finite false 5629499534213120 (-46)%Z.
Proof. vm_compute. reflexivity. Qed.

Lemma Prim2SF_2p53 :
  Prim2SF 9007199254740992 = S754_finite false 4503599627370496 1%Z.
Proof. vm_compute. reflexivity. Qed.

Lemma finite_valid (a : number) :
  is_finite a = true ->
  valid_binary (Prim2SF a) = true /\ SFfinite (Prim2SF a).
Proof.
  intros H. split; [apply Prim2SF_valid|apply is_finite_SF, H].
Qed.

Lemma midpoint_iff (a b c : number) :
  midpoint a b c = true <->
  is_finite a = true /\ is_finite b = true /\ is_finite c = true /\
  (2 * units c = units a + units b)%Z.
Proof.
  unfold midpoint. rewrite !andb_true_iff, Z.eqb_eq. tauto.
Qed.

(** At the exact middle of a proper range, the offset is half the
    range. *)
Lemma middle_offset (a b c : number) :
  midpoint a b c = true -> properRange a b = true ->
  (c - a) / orElse (b - a) 1 = 0.5.
Proof.
  rewrite midpoint_iff. intros [Fa [Fb [Fc Hmid]]] Hr.
  unfold properRange in Hr. apply andb_prop in Hr.
  destruct Hr as [Hfin Hnz]. apply negb_true_iff in Hnz.
  destruct (finite_valid a Fa) as [Va Sa].
  destruct (finite_valid b Fb) as [Vb Sb].
  destruct (finite_valid c Fc) as [Vc Sc].
  unfold units in Hmid.
  assert (Hab : unitsSF (Prim2SF b) <> unitsSF (Prim2SF a)).
  { intros E.
    pose proof (sub_units_zero _ _ Vb Va Sb Sa E) as Hz.
    rewrite <- sub_spec in Hz.
    apply DegenerateFacts.is_zero_SF in Hz.
    rewrite Hz in Hnz. discriminate Hnz. }
  set (u := (unitsSF (Prim2SF c) - unitsSF (Prim2SF a))%Z).
  assert (Hu : u <> 0%Z) by (unfold u; lia).
  assert (Hbu : (unitsSF (Prim2SF b) - unitsSF (Prim2SF a) = 2 * u)%Z)
    by (unfold u; lia).
  assert (Rr : Prim2SF (b - a) = roundUnits (2 * u)%Z).
  { rewrite sub_spec, <- Hbu. apply sub_units; assumption. }
  assert (Rd : Prim2SF (c - a) = roundUnits u).
  { rewrite sub_spec. apply sub_units; try assumption. unfold u in Hu.
    lia. }
  assert (Hinf : forall s, roundUnits (2 * u)%Z <> S754_infinity s).
  { intros s E. rewrite <- Rr in E. apply is_finite_SF in Hfin.
    rewrite E in Hfin. exact Hfin. }
  destruct (roundUnits_double u Hu Hinf)
    as [s [m1 [e1 [m2 [e2 [R1 [R2 [C1 [C2 Hrel]]]]]]]]].
  assert (Ht : orElse (b - a) 1 = b - a).
  { unfold orElse, truthy. rewrite Hnz.
    replace (is_nan (b - a)) with false; [reflexivity|].
    symmetry. apply is_nan_false_SF. rewrite Rr, R2. discriminate. }
  rewrite Ht. apply Prim2SF_inj.
  rewrite div_spec, Rd, Rr, R1, R2, Prim2SF_half.
  apply SFdiv_half; assumption.
Qed.

End CentreFacts.

(** ** The padded area is centred in a roomy viewport *)

Module ViewportFacts.

Import Rounding ValueFacts ExactFacts HalfFacts CentreFacts.

Local Open Scope Z_scope.

Lemma digits_iter_xO (k : nat) (p : positive) :
  Zpos (digits2_pos (Nat.iter k xO p)) =
  Zpos (digits2_pos p) + Z.of_nat k.
Proof.
  induction k as [|k IH].
  - cbn [Nat.iter nat_rect Z.of_nat]. lia.
  - change (Nat.iter (S k) xO p) with (xO (Nat.iter k xO p)).
    cbn [digits2_pos]. rewrite Pos2Z.inj_succ, IH, Nat2Z.inj_succ. lia.
Qed.

(** Trailing zero digits of a long mantissa are shifted out exactly. *)
Lemma binary_round_aux_scaled s (k : nat) :
  forall (p : positive) (E : Z),
    53 <= Zpos (digits2_pos p) ->
    binary_round_aux prec emax s (Zpos (Nat.iter k xO p)) E loc_Exact =
    binary_round_aux prec emax s (Zpos p) (E + Z.of_nat k) loc_Exact.
Proof.
  induction k as [|k IH]; intros p E Hd.
  - cbn [Nat.iter nat_rect Z.of_nat]. f_equal. lia.
  - change (Nat.iter (S k) xO p) with (xO (Nat.iter k xO p)).
    rewrite binary_round_aux_even.
    + rewrite IH by exact Hd. rewrite Nat2Z.inj_succ. f_equal. lia.
    + rewrite fexp_eq.
      change (Zdigits2 (Zpos (Nat.iter k xO p)~0))
        with (Zpos (digits2_pos (xO (Nat.iter k xO p)))).
      cbn [digits2_pos]. rewrite Pos2Z.inj_succ, digits_iter_xO. lia.
Qed.

Lemma full_digits (m : positive) :
  2 ^ 52 <= Zpos m < 2 ^ 53 -> Zpos (digits2_pos m) = 53.
Proof.
  intros H.
  change (Zpos (digits2_pos m)) with (Zdigits2 (Zpos m)).
  apply Zdigits2_unique; [lia|exact H].
Qed.

(** Half of a normal number above the lowest exponent. *)
Lemma SFmul_half s m e :
  2 ^ 52 <= Zpos m < 2 ^ 53 -> -1074 < e -> e <= 972 ->
  SF64mul (S754_finite false 4503599627370496 (-53)) (S754_finite s m e) =
  S754_finite s m (e - 1).
Proof.
  intros Hm He He'. unfold SF64mul, SFmul. cbn [xorb].
  assert (Hp : (4503599627370496 * m)%positive = Nat.iter 52 xO m).
  { apply Pos2Z.inj. rewrite Zpos_iter_xO, Pos2Z.inj_mul.
    change (2 ^ Z.of_nat 52) with (Zpos 4503599627370496). lia. }
  rewrite Hp, binary_round_aux_scaled by (rewrite full_digits; lia).
  replace (-53 + e + Z.of_nat 52) with (e - 1) by lia.
  apply binary_round_aux_canonical, full_canonical; lia.
Qed.

(** Half of a normal number, by division. *)
Lemma SFdiv_two s m e :
  2 ^ 52 <= Zpos m < 2 ^ 53 -> -1072 <= e -> e <= 972 ->
  SF64div (S754_finite s m e) (S754_finite false 4503599627370496 (-51)) =
  S754_finite s m (e - 1).
Proof.
  intros Hm He He'.
  unfold SF64div, SFdiv, SFdiv_core_binary.
  rewrite xorb_false_r.
  replace (Zdigits2 (Zpos 4503599627370496)) with 53
    by (vm_compute; reflexivity).
  cbn [Zdigits2]. rewrite (full_digits m Hm).
  replace (fexp prec emax (53 + e - (53 + -51))) with (e - 2)
    by (rewrite fexp_eq; lia).
  replace (Z.min (e - 2) (e - -51)) with (e - 2) by lia.
  replace (e - -51 - (e - 2)) with 53 by lia.
  rewrite Z.shiftl_mul_pow2 by lia.
  replace (Zpos m * 2 ^ 53) with (4503599627370496 * Zpos m~0)
    by (rewrite Pos2Z.inj_xO; change (2 ^ 53) with (2 * 4503599627370496);
        lia).
  rewrite div_eucl_exact by lia.
  change (new_location 4503599627370496 0) with loc_Exact.
  replace (e - 2) with (e - 1 - 1) by lia.
  apply binary_round_aux_doubled;
    [apply full_canonical; lia|apply full_digits, Hm|lia].
Qed.

Lemma digits_scaled (q : positive) (j : Z) (m : positive) :
  0 <= j -> Zpos m = Zpos q * 2 ^ j ->
  Zpos (digits2_pos m) = Zpos (digits2_pos q) + j.
Proof.
  intros Hj Hm.
  pose proof (order_unique m q 0 j ltac:(lia) Hj) as H.
  rewrite Z.pow_0_r, Z.mul_1_r in H. specialize (H Hm). lia.
Qed.

(** A value of at most 53 binary digits is rounded to itself. *)
Lemma roundUnits_exact (s : bool) (q : positive) (k : Z) :
  Zpos q < 2 ^ 53 -> 0 <= k -> k <= 2045 ->
  exists m e,
    roundUnits (cond_Zopp s (Zpos q * 2 ^ k)) = S754_finite s m e /\
    canonical m e /\
    Zpos m * 2 ^ (e + 1074) = Zpos q * 2 ^ k.
Proof.
  intros Hq Hk Hk'.
  pose proof (canonical_digits q (-1074) (small_canonical q Hq)) as Hd.
  assert (Hd0 : 0 < Zpos (digits2_pos q)) by lia.
  set (t := Z.max (Zpos (digits2_pos q) + (k - 1074) - 53) (-1074)).
  assert (Ht : t <= k - 1074) by (unfold t; lia).
  assert (Ht' : -1074 <= t) by (unfold t; lia).
  destruct (shl_align_value q (k - 1074) t Ht) as [Hv He].
  set (mz := fst (shl_align q (k - 1074) t)) in *.
  assert (Hdz : Zpos (digits2_pos mz) =
                Zpos (digits2_pos q) + (k - 1074 - t))
    by (apply digits_scaled; [lia|exact Hv]).
  assert (Cz : canonical mz t) by (unfold canonical; rewrite Hdz; lia).
  exists mz, t. split; [|split; [exact Cz|]].
  - assert (E : cond_Zopp s (Zpos q * 2 ^ k) =
                cond_Zopp s (Zpos q) * 2 ^ k)
      by (destruct s; cbn [cond_Zopp]; lia).
    rewrite E. unfold roundUnits.
    rewrite binary_normalize_scaled by lia.
    replace (-1074 + k) with (k - 1074) by lia.
    assert (R : binary_round prec emax s q (k - 1074) =
                S754_finite s mz t).
    { unfold binary_round. rewrite fexp_eq. fold t.
      rewrite (surjective_pairing (shl_align q (k - 1074) t)).
      fold mz. rewrite He.
      apply binary_round_aux_canonical, Cz. }
    destruct s; cbn [cond_Zopp Z.opp binary_normalize]; exact R.
  - rewrite Hv, <- Z.mul_assoc, <- Z.pow_add_r by lia.
    f_equal. f_equal. lia.
Qed.

(** A binary64 number has one canonical form. *)
Lemma canonical_unique m1 e1 m2 e2 :
  canonical m1 e1 -> canonical m2 e2 ->
  Zpos m1 * 2 ^ (e1 + 1074) = Zpos m2 * 2 ^ (e2 + 1074) ->
  m1 = m2 /\ e1 = e2.
Proof.
  intros C1 C2 H.
  pose proof (canonical_low _ _ C1) as L1.
  pose proof (canonical_low _ _ C2) as L2.
  pose proof (order_unique m1 m2 (e1 + 1074) (e2 + 1074)
                ltac:(lia) ltac:(lia) H) as Ho.
  assert (He : e1 = e2) by (destruct C1, C2; lia).
  subst e2. split; [|reflexivity].
  assert (P : 0 < 2 ^ (e1 + 1074)) by (apply Z.pow_pos_nonneg; lia).
  apply Pos2Z.inj. apply (Z.mul_reg_r _ _ (2 ^ (e1 + 1074))); lia.
Qed.

(** The shape of a viewport side between 32 and [2 ^ 53]. *)
Lemma roomy_shape (side : number) :
  roomy side = true ->
  exists m e,
    Prim2SF side = S754_finite false m e /\
    2 ^ 52 <= Zpos m < 2 ^ 53 /\ -47 <= e <= 1.
Proof.
  unfold roomy. intros H. apply andb_prop in H. destruct H as [Hlo Hhi].
  rewrite leb_spec, Prim2SF_32 in Hlo.
  rewrite leb_spec, Prim2SF_2p53 in Hhi.
  pose proof (Prim2SF_valid side) as Hv.
  destruct (Prim2SF side) as [s|s| |s m e].
  - discriminate Hlo.
  - destruct s; [discriminate Hlo|discriminate Hhi].
  - discriminate Hlo.
  - destruct s; [discriminate Hlo|].
    apply ZoomFacts.SFleb_positive in Hlo, Hhi.
    pose proof (valid_canonical _ _ _ Hv) as [Hc _].
    pose proof (digits2_pos_bounds m) as Hd.
    assert (He : -47 <= e <= 1) by lia.
    assert (Hd53 : Zpos (digits2_pos m) = 53) by lia.
    rewrite Hd53 in Hd. change (2 ^ (53 - 1)) with (2 ^ 52) in Hd.
    exists m, e. split; [reflexivity|]. split; [exact Hd|exact He].
Qed.

End ViewportFacts.

(** ** Padding and half the side *)

Module PaddingFacts.

Import Rounding ValueFacts ExactFacts HalfFacts CentreFacts ViewportFacts.

Lemma half_side (side : number) (m : positive) (e : Z) :
  Prim2SF side = S754_finite false m e ->
  (2 ^ 52 <= Zpos m < 2 ^ 53)%Z -> (-47 <= e <= 1)%Z ->
  Prim2SF (side / 2) = S754_finite false m (e - 1).
Proof.
  intros P Hm He. rewrite div_spec, P, Prim2SF_two.
  apply SFdiv_two; lia.
Qed.

(** Taking half the side off the side leaves half the side. *)
Lemma side_minus_half (side : number) (m : positive) (e : Z) :
  Prim2SF side = S754_finite false m e ->
  (2 ^ 52 <= Zpos m < 2 ^ 53)%Z -> (-47 <= e <= 1)%Z ->
  side - side / 2 = side / 2.
Proof.
  intros P Hm He. pose proof (half_side side m e P Hm He) as Ph.
  apply Prim2SF_inj. rewrite sub_spec.
  pose proof (Prim2SF_valid side) as V1.
  pose proof (Prim2SF_valid (side / 2)) as V2.
  rewrite Ph, P in *.
  assert (A : (2 ^ (e + 1074) = 2 * 2 ^ (e - 1 + 1074))%Z).
  { replace (e + 1074)%Z with (Z.succ (e - 1 + 1074)) by lia.
    apply Z.pow_succ_r. lia. }
  assert (Pp : (0 < 2 ^ (e - 1 + 1074))%Z)
    by (apply Z.pow_pos_nonneg; lia).
  rewrite sub_units; try assumption; try exact I.
  - cbn [unitsSF cond_Zopp]. rewrite A.
    replace (Zpos m * (2 * 2 ^ (e - 1 + 1074)) -
             Zpos m * 2 ^ (e - 1 + 1074))%Z
      with (cond_Zopp false (Zpos m) * 2 ^ (e - 1 + 1074))%Z
      by (cbn [cond_Zopp]; lia).
    apply roundUnits_canonical, full_canonical; lia.
  - cbn [unitsSF cond_Zopp]. rewrite A. nia.
Qed.

(** In a roomy viewport, half the padded length plus the padding is
    half the side. *)
Lemma padded_half (side : number) (m : positive) (e : Z) :
  Prim2SF side = S754_finite false m e ->
  (2 ^ 52 <= Zpos m < 2 ^ 53)%Z -> (-47 <= e <= 1)%Z ->
  0.5 * (side - 80) + 40 = side / 2.
Proof.
  intros P Hm He. pose proof (half_side side m e P Hm He) as Ph.
  pose proof (Prim2SF_valid side) as Vs.
  pose proof (valid_canonical _ _ _ (eq_ind _ (fun f => valid_binary f = true)
                                        Vs _ P)) as Cs.
  assert (C80 : canonical 5629499534213120 (-46)).
  { apply (valid_canonical false). rewrite <- Prim2SF_80.
    apply Prim2SF_valid. }
  destruct (Z.eq_dec (Zpos m * 2 ^ (e + 1074))
                     (5629499534213120 * 2 ^ (-46 + 1074))) as [Heq|Hne].
  - (* the side is 80 *)
    destruct (canonical_unique _ _ _ _ Cs C80 Heq) as [-> ->].
    rewrite <- Prim2SF_80 in P. apply Prim2SF_inj in P. subst side.
    vm_compute. reflexivity.
  - set (D := (Zpos m - 5 * 2 ^ (4 - e))%Z).
    assert (A1 : (2 ^ (e + 1074) = 2 * 2 ^ (e - 1 + 1074))%Z).
    { replace (e + 1074)%Z with (Z.succ (e - 1 + 1074)) by lia.
      apply Z.pow_succ_r. lia. }
    assert (Pp : (0 < 2 ^ (e - 1 + 1074))%Z)
      by (apply Z.pow_pos_nonneg; lia).
    assert (A2 : (5629499534213120 * 2 ^ (-46 + 1074) =
                  5 * 2 ^ (4 - e) * 2 ^ (e + 1074))%Z).
    { rewrite <- Z.mul_assoc, <- Z.pow_add_r by lia.
      replace (4 - e + (e + 1074))%Z with 1078%Z by lia.
      vm_compute. reflexivity. }
    assert (A3 : (2 ^ 3 <= 2 ^ (4 - e) <= 2 ^ 51)%Z)
      by (split; apply Z.pow_le_mono_r; lia).
    assert (HD : (D <> 0)%Z).
    { intros E. apply Hne. rewrite A2. unfold D in E.
      replace (Zpos m) with (5 * 2 ^ (4 - e))%Z by lia. reflexivity. }
    assert (HDb : (Z.abs D < 2 ^ 53)%Z) by (unfold D; lia).
    assert (Hsq : exists sg q, D = cond_Zopp sg (Zpos q)).
    { destruct D as [|q|q]; [contradiction HD; reflexivity| |].
      - exists false, q. reflexivity.
      - exists true, q. reflexivity. }
    destruct Hsq as [sg [q HDq]].
    assert (Hq : (Zpos q < 2 ^ 53)%Z)
      by (rewrite HDq in HDb; destruct sg; cbn [cond_Zopp] in HDb; lia).
    destruct (roundUnits_exact sg q (e + 1074) Hq ltac:(lia) ltac:(lia))
      as [ms [es [Rs [Cms Hval]]]].
    (* the difference [side - 80] *)
    assert (Pd : Prim2SF (side - 80) = S754_finite sg ms es).
    { rewrite sub_spec, P, Prim2SF_80.
      rewrite sub_units.
      - rewrite <- Rs. f_equal. cbn [unitsSF cond_Zopp]. rewrite A2.
        replace (Zpos m * 2 ^ (e + 1074) -
                 5 * 2 ^ (4 - e) * 2 ^ (e + 1074))%Z
          with (D * 2 ^ (e + 1074))%Z by (unfold D; lia).
        rewrite HDq. destruct sg; cbn [cond_Zopp]; lia.
      - rewrite <- P. apply Prim2SF_valid.
      - rewrite <- Prim2SF_80. apply Prim2SF_valid.
      - exact I.
      - exact I.
      - cbn [unitsSF cond_Zopp]. exact Hne. }
    (* it is a normal number *)
    pose proof (canonical_low _ _ Cms) as Les.
    pose proof (canonical_digits _ _ Cms) as Dms.
    pose proof (digits2_pos_bounds ms) as Bms.
    assert (Hms53 : (Zpos ms < 2 ^ 53)%Z).
    { assert (2 ^ Zpos (digits2_pos ms) <= 2 ^ 53)%Z
        by (apply Z.pow_le_mono_r; lia).
      lia. }
    assert (Hes : (-1074 < es)%Z).
    { destruct (Z.eq_dec es (-1074)) as [E|E]; [|lia]. exfalso.
      subst es. change (2 ^ (-1074 + 1074))%Z with 1%Z in Hval.
      assert (2 ^ 53 <= 2 ^ (e + 1074))%Z
        by (apply Z.pow_le_mono_r; lia).
      nia. }
    assert (Hfull : (2 ^ 52 <= Zpos ms < 2 ^ 53)%Z).
    { destruct Cms as [Hc _].
      assert (Zpos (digits2_pos ms) = 53)%Z by lia.
      replace (Zpos (digits2_pos ms)) with 53%Z in Bms. exact Bms. }
    (* half of it *)
    assert (Ph2 : Prim2SF (0.5 * (side - 80)) =
                  S754_finite sg ms (es - 1)).
    { rewrite mul_spec, Prim2SF_half, Pd.
      apply SFmul_half; destruct Cms; lia. }
    (* plus the padding *)
    apply Prim2SF_inj. rewrite Ph, add_spec.
    pose proof (Prim2SF_valid (0.5 * (side - 80))) as V1.
    pose proof (Prim2SF_valid 40) as V2.
    rewrite Ph2, Prim2SF_40 in *.
    assert (A4 : (2 ^ (es + 1074) = 2 * 2 ^ (es - 1 + 1074))%Z).
    { replace (es + 1074)%Z with (Z.succ (es - 1 + 1074)) by lia.
      apply Z.pow_succ_r. lia. }
    assert (A5 : (5 * 2 ^ (4 - e) * 2 ^ (e + 1074) =
                  2 * (5629499534213120 * 2 ^ (-47 + 1074)))%Z).
    { rewrite <- A2. vm_compute. reflexivity. }
    assert (Hsum : (unitsSF (S754_finite sg ms (es - 1)) +
                    unitsSF (S754_finite false 5629499534213120 (-47)) =
                    cond_Zopp false (Zpos m) * 2 ^ (e - 1 + 1074))%Z).
    { cbn [unitsSF cond_Zopp].
      assert (E1 : (2 * (cond_Zopp sg (Zpos ms) * 2 ^ (es - 1 + 1074)) =
                    D * 2 ^ (e + 1074))%Z).
      { rewrite HDq. destruct sg; cbn [cond_Zopp]; lia. }
      assert (E2 : (D * 2 ^ (e + 1074) =
                    Zpos m * 2 ^ (e + 1074) -
                    5 * 2 ^ (4 - e) * 2 ^ (e + 1074))%Z)
        by (unfold D; lia).
      lia. }
    rewrite add_units; try assumption; try exact I.
    + rewrite Hsum. apply roundUnits_canonical, full_canonical; lia.
    + rewrite Hsum. cbn [cond_Zopp]. lia.
Qed.

(** The padded area of a roomy viewport side is centred in it. *)
Lemma padded_centre (side : number) :
  roomy side = true ->
  0.5 * (side - 2 * padding) + padding = side / 2 /\
  side - side / 2 = side / 2 /\
  is_finite (side / 2) = true.
Proof.
  intros H. destruct (roomy_shape side H) as [m [e [P [Hm He]]]].
  change (2 * padding) with 80. change padding with 40.
  split; [exact (padded_half side m e P Hm He)|].
  split; [exact (side_minus_half side m e P Hm He)|].
  apply is_finite_SF. rewrite (half_side side m e P Hm He). exact I.
Qed.

End PaddingFacts.

(** ** The centre of the box is drawn at the centre of the viewport *)

Module CentreMap.

Import CentreFacts PaddingFacts.

Lemma eqb_same (a : number) : is_finite a = true -> (a =? a) = true.
Proof.
  intros H. apply eqb_cmp. unfold cmp. rewrite SFcompare_refl.
  apply is_finite_SF in H. destruct (Prim2SF a); try contradiction;
    reflexivity.
Qed.

(** C6. A point exactly at the centre of a bounding box whose ranges are
    finite and not zero is drawn, with pan (0,0), exactly at the centre
    [(W/2, H/2)] of a viewport with sides between 32 and [2 ^ 53],
    whatever the finite zoom. *)
Theorem box_centre_drawn_at_viewport_centre (b : Bounds)
    (W H zoom px py : number) :
  atCentre b px py = true ->
  properBox b = true ->
  roomy W = true -> roomy H = true ->
  is_finite zoom = true ->
  (fst (transform b W H zoom (0, 0) px py) =? W / 2) = true /\
  (snd (transform b W H zoom (0, 0) px py) =? H / 2) = true.
Proof.
  intros Hc Hb HW HH Hz.
  unfold atCentre in Hc. apply andb_prop in Hc. destruct Hc as [Hcx Hcy].
  unfold properBox in Hb. apply andb_prop in Hb. destruct Hb as [Hbx Hby].
  destruct (padded_centre W HW) as [Wp [_ Wf]].
  destruct (padded_centre H HH) as [Hp [Hm Hf]].
  unfold transform, tx, ty, rangeX, rangeY. cbn [fst snd].
  rewrite (middle_offset _ _ _ Hcx Hbx), (middle_offset _ _ _ Hcy Hby).
  rewrite Wp, Hp, Hm. split.
  - apply zoom_fixes_centre; [exact Wf|exact Hz|apply eqb_same, Wf].
  - apply zoom_fixes_centre; [exact Hf|exact Hz|apply eqb_same, Hf].
Qed.

(** The centre (0, 0) of [unitBox] in a 600 by 300 viewport, at zoom
    5. *)
Lemma box_centre_drawn_at_viewport_centre_witness :
  (fst (transform unitBox 600 300 5 (0, 0) 0 0) =? 600 / 2) = true /\
  (snd (transform unitBox 600 300 5 (0, 0) 0 0) =? 300 / 2) = true.
Proof.
  apply (box_centre_drawn_at_viewport_centre unitBox 600 300 5 0 0);
    vm_compute; reflexivity.
Defined.

(** In a viewport 20.3 wide, [20.3 - 80] is rounded, and the centre
    (0, 0) of [unitBox] is drawn left of the middle at zoom 5. With the
    box [-1.5e308, 1.5e308], whose range overflows to infinity, the
    centre 0 is drawn on the left padding line. *)
Lemma box_centre_off_viewport_centre :
  atCentre unitBox 0 0 = true /\
  properBox unitBox = true /\
  (fst (transform unitBox 20.3 300 5 (0, 0) 0 0) =? 20.3 / 2) = false /\
  atCentre wideBox 0 0 = true /\
  (fst (transform wideBox 600 300 1 (0, 0) 0 0) =? 600 / 2) = false.
Proof. repeat split; vm_compute; reflexivity. Qed.

End CentreMap.

(** ** The projection effect: identity and highlighting of the points *)

Module HighlightFacts.

Lemma nth_error_zip {A B : Type} (l1 : list A) (l2 : list B) :
  forall i,
    nth_error (combine l1 l2) i =
    match nth_error l1 i, nth_error l2 i with
    | Some a, Some b => Some (a, b)
    | _, _ => None
    end.
Proof.
  revert l2. induction l1 as [|a l1 IH]; intros [|b l2] [|i];
    cbn [combine nth_error]; try reflexivity.
  - destruct (nth_error l1 i); reflexivity.
  - apply IH.
Qed.

(** The points of a non-empty batch, read position by position. *)
Lemma projectEffect_nth rand vectors searchResults queryVector st i v :
  nth_error vectors i = Some v ->
  nth_error
    (projectedPoints
       (projectEffect rand vectors searchResults queryVector st)) i =
  Some (toPoint searchResults
          (projectionOf rand (map vector vectors) queryVector (vector v)) v).
Proof.
  intros Hv. destruct vectors as [|v0 vectors].
  - destruct i; discriminate Hv.
  - unfold projectEffect. cbn [projectedPoints].
    change (map vector (v0 :: vectors))
      with (vector v0 :: map vector vectors).
    destruct (ProjectionShape.projectTo2D_cons rand (vector v0) (map vector vectors)
                queryVector) as [Hp _].
    rewrite Hp.
    change (vector v0 :: map vector vectors)
      with (map vector (v0 :: vectors)).
    rewrite nth_error_map, nth_error_zip, nth_error_map, nth_error_map, Hv.
    reflexivity.
Qed.

Lemma projectEffect_length rand vectors searchResults queryVector st :
  length (projectedPoints
            (projectEffect rand vectors searchResults queryVector st)) =
  length vectors.
Proof.
  destruct vectors as [|v0 vectors]; [reflexivity|].
  unfold projectEffect. cbn [projectedPoints].
  change (map vector (v0 :: vectors))
    with (vector v0 :: map vector vectors).
  destruct (ProjectionShape.projectTo2D_cons rand (vector v0) (map vector vectors)
              queryVector) as [Hp _].
  rewrite Hp. rewrite length_map, length_combine, length_map.
  cbn [length map]. rewrite length_map. apply Nat.min_id.
Qed.

Lemma searchResultIdsHas_iff searchResults i :
  searchResultIdsHas searchResults i = true <->
  exists r, In r searchResults /\ res_id r = i.
Proof.
  unfold searchResultIdsHas. rewrite existsb_exists.
  split; intros [r [Hin Hr]]; exists r; split; auto;
    apply Z.eqb_eq; exact Hr.
Qed.

Lemma find_skip {A : Type} (f : A -> bool) (l1 l2 : list A) :
  (forall a, In a l1 -> f a = false) ->
  find f (l1 ++ l2) = find f l2.
Proof.
  induction l1 as [|a l1 IH]; intros H; [reflexivity|].
  cbn [app find]. rewrite (H a (or_introl eq_refl)).
  apply IH. intros a' Ha'. apply H. right. exact Ha'.
Qed.

(** The score map holds, for an id, the score of the last result with
    that id. *)
Lemma scoreMapGet_last pre r post i :
  res_id r = i ->
  (forall r', In r' post -> res_id r' <> i) ->
  scoreMapGet (pre ++ r :: post) i = Some (res_score r).
Proof.
  intros Hr Hpost. unfold scoreMapGet.
  rewrite rev_app_distr. cbn [rev]. rewrite <- app_assoc. cbn [app].
  rewrite find_skip.
  - cbn [find]. rewrite (proj2 (Z.eqb_eq _ _) Hr). reflexivity.
  - intros r' Hin. apply Z.eqb_neq. apply Hpost.
    apply in_rev. exact Hin.
Qed.

Lemma scoreMapGet_none searchResults i :
  scoreMapGet searchResults i = None <->
  searchResultIdsHas searchResults i = false.
Proof.
  unfold scoreMapGet, searchResultIdsHas. split.
  - intros H.
    destruct (find (fun r => Z.eqb (res_id r) i) (rev searchResults))
      as [r|] eqn:E; [discriminate H|].
    destruct (existsb (fun r => Z.eqb (res_id r) i) searchResults) eqn:Ex;
      [|reflexivity].
    apply existsb_exists in Ex. destruct Ex as [r [Hin Hr]].
    apply in_rev in Hin.
    rewrite (find_none _ _ E r Hin) in Hr. discriminate Hr.
  - intros H.
    destruct (find (fun r => Z.eqb (res_id r) i) (rev searchResults))
      as [r|] eqn:E; [|reflexivity].
    apply find_some in E. destruct E as [Hin Hr].
    apply in_rev in Hin.
    assert (Ex : existsb (fun r => Z.eqb (res_id r) i) searchResults = true)
      by (apply existsb_exists; exists r; split; assumption).
    rewrite Ex in H. discriminate H.
Qed.

(** X1. After the projection effect there is one point per stored
    vector, in input order; the point at position [i] carries the id,
    the metadata and the vector of [vectors[i]], and its coordinates are
    that vector's projection. *)
Theorem projected_points_follow_vectors rand vectors searchResults
    queryVector st :
  length (projectedPoints
            (projectEffect rand vectors searchResults queryVector st)) =
    length vectors /\
  forall i v,
    nth_error vectors i = Some v ->
    exists p,
      nth_error
        (projectedPoints
           (projectEffect rand vectors searchResults queryVector st)) i =
        Some p /\
      id p = doc_id v /\
      metadata p = doc_metadata v /\
      originalVector p = vector v /\
      (x p, y p) =
        projectionOf rand (map vector vectors) queryVector (vector v).
Proof.
  split; [apply projectEffect_length|].
  intros i v Hv. eexists. split.
  - apply projectEffect_nth. exact Hv.
  - cbn [id metadata originalVector x y toPoint].
    repeat split.
Qed.

(** X2. A point is highlighted exactly when some search result has its
    id, it has a score exactly when it is highlighted, and that score is
    the one of the last search result with its id. *)
Theorem highlight_follows_search_results rand vectors searchResults
    queryVector st :
  forall p,
    In p (projectedPoints
            (projectEffect rand vectors searchResults queryVector st)) ->
    (isSearchResult p = true <->
     exists r, In r searchResults /\ res_id r = id p) /\
    (score p = None <-> isSearchResult p = false) /\
    (forall pre r post,
       searchResults = pre ++ r :: post ->
       res_id r = id p ->
       (forall r', In r' post -> res_id r' <> id p) ->
       score p = Some (res_score r)).
Proof.
  intros p Hin. apply In_nth_error in Hin. destruct Hin as [i Hi].
  assert (Hlen : (i < length vectors)%nat).
  { rewrite <- (projectEffect_length rand vectors searchResults
                  queryVector st).
    apply nth_error_Some. rewrite Hi. discriminate. }
  destruct (nth_error vectors i) as [v|] eqn:Hv;
    [|apply nth_error_None in Hv; lia].
  rewrite (projectEffect_nth rand vectors searchResults queryVector st i v
             Hv) in Hi.
  injection Hi as <-. cbn [isSearchResult score id toPoint].
  split; [apply searchResultIdsHas_iff|]. split.
  - apply scoreMapGet_none.
  - intros pre r post -> Hr Hpost. apply scoreMapGet_last; assumption.
Qed.

(** The first point of [twoDocuments], whose id has two of the
    [threeResults]. *)
Lemma highlight_follows_search_results_witness :
  (isSearchResult firstShown = true <->
   exists r, In r threeResults /\ res_id r = id firstShown) /\
  (score firstShown = None <-> isSearchResult firstShown = false) /\
  (forall pre r post,
     threeResults = pre ++ r :: post ->
     res_id r = id firstShown ->
     (forall r', In r' post -> res_id r' <> id firstShown) ->
     score firstShown = Some (res_score r)).
Proof.
  apply (highlight_follows_search_results draws twoDocuments threeResults
           None initialState).
  vm_compute. left. reflexivity.
Defined.

End HighlightFacts.

(** ** Traces of events *)

Module TraceFacts.

Lemma grip_kept st ev :
  keepsGrip ev = true ->
  isDragging st = true ->
  isDragging (step st ev) = true /\
  dragStart (step st ev) = dragStart st /\
  hoveredPoint (step st ev) = hoveredPoint st.
Proof.
  intros Hev Hdrag.
  destruct ev as [e|canvas e| | | |e| | | |rand vectors results query];
    try discriminate Hev; cbn [step]; try (repeat split; assumption).
  - unfold handleMouseMove. destruct canvas as [rect|];
      [rewrite Hdrag|]; repeat split; assumption.
  - unfold projectEffect. destruct vectors; repeat split; assumption.
Qed.

Lemma grip_kept_along evs :
  forall st,
    forallb keepsGrip evs = true ->
    isDragging st = true ->
    isDragging (fold_left step evs st) = true /\
    dragStart (fold_left step evs st) = dragStart st /\
    hoveredPoint (fold_left step evs st) = hoveredPoint st.
Proof.
  induction evs as [|ev evs IH]; intros st Hevs Hdrag.
  - repeat split; assumption.
  - cbn [forallb] in Hevs. apply andb_prop in Hevs.
    destruct Hevs as [Hev Hevs]. cbn [fold_left].
    destruct (grip_kept st ev Hev Hdrag) as [Hd [Hs Hh]].
    destruct (IH (step st ev) Hevs Hd) as [Hd' [Hs' Hh']].
    rewrite Hs', Hh', Hs, Hh. repeat split. exact Hd'.
Qed.

(** X3. While the button is held, the pan depends only on where the
    button went down and where the pointer is now: after a press at [e0]
    and any events that neither press nor release the button, a move to
    [e1] over the mounted canvas leaves the pan at [e1 - (e0 - pan0)],
    the drag in progress and the hovered point as it was. *)
Theorem drag_pan_follows_pointer st e0 evs rect e1 :
  forallb keepsGrip evs = true ->
  pan (fold_left step (MouseDown e0 :: evs ++ [MouseMove (Some rect) e1]) st)
    = (clientX e1 - (clientX e0 - fst (pan st)),
       clientY e1 - (clientY e0 - snd (pan st))) /\
  isDragging
    (fold_left step (MouseDown e0 :: evs ++ [MouseMove (Some rect) e1]) st)
    = true /\
  hoveredPoint
    (fold_left step (MouseDown e0 :: evs ++ [MouseMove (Some rect) e1]) st)
    = hoveredPoint st.
Proof.
  intros Hevs. cbn [fold_left]. rewrite fold_left_app. cbn [fold_left step].
  destruct (grip_kept_along evs (handleMouseDown st e0) Hevs eq_refl)
    as [Hd [Hs Hh]].
  unfold handleMouseMove. rewrite Hd.
  cbn [pan isDragging hoveredPoint withPan]. rewrite Hd, Hs, Hh.
  repeat split.
Qed.

(** A press at (10, 20), a wheel turn, a reset and a move in between,
    then a move to (50, 60). *)
Lemma drag_pan_follows_pointer_witness :
  pan (fold_left step
         (MouseDown (moveTo 10 20)
            :: [Wheel {| deltaY := 1 |}; Reset;
                MouseMove (Some canvas600) (moveTo 30 45)]
            ++ [MouseMove (Some canvas600) (moveTo 50 60)])
         zoomedState)
    = (50 - (10 - 950), 60 - (20 - -600)) /\
  isDragging
    (fold_left step
       (MouseDown (moveTo 10 20)
          :: [Wheel {| deltaY := 1 |}; Reset;
              MouseMove (Some canvas600) (moveTo 30 45)]
          ++ [MouseMove (Some canvas600) (moveTo 50 60)])
       zoomedState)
    = true /\
  hoveredPoint
    (fold_left step
       (MouseDown (moveTo 10 20)
          :: [Wheel {| deltaY := 1 |}; Reset;
              MouseMove (Some canvas600) (moveTo 30 45)]
          ++ [MouseMove (Some canvas600) (moveTo 50 60)])
       zoomedState)
    = hoveredPoint zoomedState.
Proof.
  apply (drag_pan_follows_pointer zoomedState (moveTo 10 20)
           [Wheel {| deltaY := 1 |}; Reset;
            MouseMove (Some canvas600) (moveTo 30 45)]
           canvas600 (moveTo 50 60)).
  reflexivity.
Defined.

Lemma idle_pan_kept st ev :
  leavesPan ev = true ->
  isDragging st = false ->
  isDragging (step st ev) = false /\ pan (step st ev) = pan st.
Proof.
  intros Hev Hidle.
  destruct ev as [e|canvas e| | | |e| | | |rand vectors results query];
    try discriminate Hev; cbn [step]; try (split; [assumption|reflexivity]).
  - unfold handleMouseMove. destruct canvas as [rect|];
      [rewrite Hidle|]; [|split; [assumption|reflexivity]].
    destruct (projectedPoints st); split; first [assumption|reflexivity].
  - split; reflexivity.
  - split; reflexivity.
  - unfold projectEffect. destruct vectors;
      split; first [assumption|reflexivity].
Qed.

(** X4. Only a drag or the reset button moves the plot: from a state
    with no drag in progress, a trace without a button press and without
    a reset leaves the pan as it was, whatever moves, wheel turns, zoom
    buttons, clicks and changes of the data it holds. *)
Theorem pan_moves_only_by_drag_or_reset evs :
  forall st,
    isDragging st = false ->
    forallb leavesPan evs = true ->
    pan (fold_left step evs st) = pan st.
Proof.
  induction evs as [|ev evs IH]; intros st Hidle Hevs; [reflexivity|].
  cbn [forallb] in Hevs. apply andb_prop in Hevs.
  destruct Hevs as [Hev Hevs]. cbn [fold_left].
  destruct (idle_pan_kept st ev Hev Hidle) as [Hidle' Hpan].
  rewrite (IH (step st ev) Hidle' Hevs). exact Hpan.
Qed.

Lemma pan_moves_only_by_drag_or_reset_witness :
  pan (fold_left step
         [MouseMove (Some canvas600) (moveTo 45 255); Wheel {| deltaY := 1 |};
          ZoomIn; Click; MouseUp;
          PropsChange draws twoDocuments threeResults None; ZoomOut]
         zoomedState)
  = pan zoomedState.
Proof.
  apply (pan_moves_only_by_drag_or_reset
           [MouseMove (Some canvas600) (moveTo 45 255); Wheel {| deltaY := 1 |};
            ZoomIn; Click; MouseUp;
            PropsChange draws twoDocuments threeResults None; ZoomOut]
           zoomedState); reflexivity.
Defined.

Lemma view_step st st' ev :
  viewOf st = viewOf st' ->
  isPropsChange ev = false ->
  viewOf (step st ev) = viewOf (step st' ev).
Proof.
  unfold viewOf. intros H Hev.
  destruct st as [z p d s h pts q], st' as [z' p' d' s' h' pts' q'].
  cbn [zoom pan isDragging dragStart] in H. injection H as -> -> -> ->.
  destruct ev as [e|canvas e| | | |e| | | |rand vectors results query];
    try discriminate Hev; cbn [step]; try reflexivity.
  unfold handleMouseMove, withPan, withHovered.
  cbn [zoom pan isDragging dragStart projectedPoints].
  destruct canvas as [rect|]; [|reflexivity].
  destruct d'; [reflexivity|].
  destruct pts, pts'; reflexivity.
Qed.

Lemma view_props st rand vectors results query :
  viewOf (projectEffect rand vectors results query st) = viewOf st.
Proof. unfold projectEffect. destruct vectors; reflexivity. Qed.

Lemma view_along evs :
  forall st st',
    viewOf st = viewOf st' ->
    viewOf (fold_left step evs st) =
    viewOf (fold_left step (interaction evs) st').
Proof.
  induction evs as [|ev evs IH]; intros st st' H; [exact H|].
  cbn [fold_left interaction filter].
  destruct (isPropsChange ev) eqn:Hev; cbn [negb].
  - apply IH. destruct ev; try discriminate Hev. cbn [step].
    rewrite view_props. exact H.
  - cbn [fold_left]. apply IH. apply view_step; assumption.
Qed.

(** X5. New data never moves the view: zoom, pan and the drag in
    progress after a trace are those after the same trace with the
    changes of the props left out. *)
Theorem view_independent_of_data evs :
  viewOf (run evs) = viewOf (run (interaction evs)).
Proof. unfold run. apply view_along. reflexivity. Qed.

End TraceFacts.

(** ** NaN in arithmetic *)

Module NanFacts.

Lemma is_nan_eq (a : number) : is_nan a = true -> a = nan.
Proof.
  intros H. apply Prim2SF_inj. apply is_nan_SF in H. rewrite H.
  reflexivity.
Qed.

Lemma nan_add_l (a b : number) : is_nan a = true -> is_nan (a + b) = true.
Proof.
  rewrite !is_nan_SF, add_spec. intros ->. reflexivity.
Qed.

Lemma nan_add_r (a b : number) : is_nan b = true -> is_nan (a + b) = true.
Proof.
  rewrite !is_nan_SF, add_spec. intros ->.
  destruct (Prim2SF a); reflexivity.
Qed.

Lemma nan_sub_l (a b : number) : is_nan a = true -> is_nan (a - b) = true.
Proof.
  rewrite !is_nan_SF, sub_spec. intros ->. reflexivity.
Qed.

Lemma nan_sub_r (a b : number) : is_nan b = true -> is_nan (a - b) = true.
Proof.
  rewrite !is_nan_SF, sub_spec. intros ->.
  destruct (Prim2SF a); reflexivity.
Qed.

Lemma nan_mul_l (a b : number) : is_nan a = true -> is_nan (a * b) = true.
Proof.
  rewrite !is_nan_SF, mul_spec. intros ->. reflexivity.
Qed.

Lemma nan_mul_r (a b : number) : is_nan b = true -> is_nan (a * b) = true.
Proof.
  rewrite !is_nan_SF, mul_spec. intros ->.
  destruct (Prim2SF a); reflexivity.
Qed.

Lemma nan_div_l (a b : number) : is_nan a = true -> is_nan (a / b) = true.
Proof.
  rewrite !is_nan_SF, div_spec. intros ->. reflexivity.
Qed.

Lemma nan_div_r (a b : number) : is_nan b = true -> is_nan (a / b) = true.
Proof.
  rewrite !is_nan_SF, div_spec. intros ->.
  destruct (Prim2SF a); reflexivity.
Qed.

Lemma nan_sqrt (a : number) :
  is_nan a = true -> is_nan (Math_sqrt a) = true.
Proof.
  unfold Math_sqrt. rewrite !is_nan_SF, sqrt_spec. intros ->. reflexivity.
Qed.

Lemma nan_sq (a : number) : is_nan a = true -> is_nan (sq a) = true.
Proof. apply nan_mul_l. Qed.

Lemma nan_ltb_l (a b : number) : is_nan a = true -> (a <? b) = false.
Proof.
  rewrite is_nan_SF, ltb_spec. intros ->. reflexivity.
Qed.

Lemma nan_min_l (a b : number) :
  is_nan a = true -> is_nan (Math_min a b) = true.
Proof. intros H. unfold Math_min. rewrite H. reflexivity. Qed.

Lemma nan_min_r (a b : number) :
  is_nan b = true -> is_nan (Math_min a b) = true.
Proof.
  intros H. unfold Math_min. rewrite H, orb_true_r. reflexivity.
Qed.

Lemma nan_max_l (a b : number) :
  is_nan a = true -> is_nan (Math_max a b) = true.
Proof. intros H. unfold Math_max. rewrite H. reflexivity. Qed.

Lemma nan_max_r (a b : number) :
  is_nan b = true -> is_nan (Math_max a b) = true.
Proof.
  intros H. unfold Math_max. rewrite H, orb_true_r. reflexivity.
Qed.

End NanFacts.

(** ** Bounds and placement *)

Module BoundsFacts.

Import NanFacts.

Lemma definedBounds_iff b :
  definedBounds b = true <->
  is_nan (minX b) = false /\ is_nan (maxX b) = false /\
  is_nan (minY b) = false /\ is_nan (maxY b) = false.
Proof.
  unfold definedBounds. rewrite !andb_true_iff, !negb_true_iff. tauto.
Qed.

Lemma within_iff o i :
  within o i = true <->
  (minX o <=? minX i) = true /\ (maxX i <=? maxX o) = true /\
  (minY o <=? minY i) = true /\ (maxY i <=? maxY o) = true.
Proof. unfold within. rewrite !andb_true_iff. tauto. Qed.

Lemma inBounds_iff b px py :
  inBounds b px py = true <->
  (minX b <=? px) = true /\ (px <=? maxX b) = true /\
  (minY b <=? py) = true /\ (py <=? maxY b) = true.
Proof. unfold inBounds. rewrite !andb_true_iff. tauto. Qed.

Lemma within_defined o i : within o i = true -> definedBounds o = true.
Proof.
  rewrite within_iff, definedBounds_iff. intros [H1 [H2 [H3 H4]]].
  repeat split.
  - exact (leb_not_nan_l _ _ H1).
  - exact (leb_not_nan_r _ _ H2).
  - exact (leb_not_nan_l _ _ H3).
  - exact (leb_not_nan_r _ _ H4).
Qed.

Lemma within_refl b : definedBounds b = true -> within b b = true.
Proof.
  rewrite within_iff, definedBounds_iff. intros [H1 [H2 [H3 H4]]].
  auto using leb_refl.
Qed.

Lemma within_trans a b c :
  within a b = true -> within b c = true -> within a c = true.
Proof.
  rewrite !within_iff. intros [H1 [H2 [H3 H4]]] [K1 [K2 [K3 K4]]].
  repeat split.
  - exact (leb_trans _ _ _ H1 K1).
  - exact (leb_trans _ _ _ K2 H2).
  - exact (leb_trans _ _ _ H3 K3).
  - exact (leb_trans _ _ _ K4 H4).
Qed.

Lemma inBounds_within o i px py :
  within o i = true -> inBounds i px py = true -> inBounds o px py = true.
Proof.
  rewrite within_iff, !inBounds_iff.
  intros [H1 [H2 [H3 H4]]] [K1 [K2 [K3 K4]]].
  repeat split.
  - exact (leb_trans _ _ _ H1 K1).
  - exact (leb_trans _ _ _ K2 H2).
  - exact (leb_trans _ _ _ H3 K3).
  - exact (leb_trans _ _ _ K4 H4).
Qed.

(** One round of the bounds loop widens the box to hold the point. *)
Lemma include_widens b px py :
  definedBounds b = true -> is_nan px = false -> is_nan py = false ->
  within (include b px py) b = true /\
  inBounds (include b px py) px py = true.
Proof.
  rewrite definedBounds_iff, within_iff, inBounds_iff.
  intros [H1 [H2 [H3 H4]]] Hx Hy. unfold include.
  cbn [minX maxX minY maxY].
  destruct (Math_min_cases (minX b) px H1 Hx) as [_ [A1 A2]].
  destruct (Math_max_cases (maxX b) px H2 Hx) as [_ [B1 B2]].
  destruct (Math_min_cases (minY b) py H3 Hy) as [_ [C1 C2]].
  destruct (Math_max_cases (maxY b) py H4 Hy) as [_ [D1 D2]].
  repeat split; assumption.
Qed.

Lemma bounds_loop points :
  forall b,
    definedBounds b = true ->
    forallb definedAt points = true ->
    within (fold_left (fun b p => include b (x p) (y p)) points b) b = true /\
    forall p, In p points ->
      inBounds (fold_left (fun b p => include b (x p) (y p)) points b)
               (x p) (y p) = true.
Proof.
  induction points as [|p0 points IH]; intros b Hb Hdef.
  - split; [apply within_refl, Hb|intros p []].
  - cbn [forallb] in Hdef. apply andb_prop in Hdef.
    destruct Hdef as [Hp0 Hdef]. unfold definedAt in Hp0.
    apply andb_prop in Hp0. destruct Hp0 as [Hx Hy].
    apply negb_true_iff in Hx, Hy.
    destruct (include_widens b (x p0) (y p0) Hb Hx Hy) as [Hw Hin].
    cbn [fold_left].
    destruct (IH (include b (x p0) (y p0)) (within_defined _ _ Hw) Hdef)
      as [Hw' Hall].
    split; [exact (within_trans _ _ _ Hw' Hw)|].
    intros p [<-|Hp].
    + exact (inBounds_within _ _ _ _ Hw' Hin).
    + apply Hall, Hp.
Qed.

(** X7. When no coordinate is NaN, the box the hover loop computes holds
    every point, and the box the draw effect computes holds every point
    and the query point. *)
Theorem bounds_hold_every_point points q :
  forallb definedAt points = true ->
  definedQuery q = true ->
  (forall p, In p points ->
     inBounds (pointBounds points) (x p) (y p) = true /\
     inBounds (drawBounds points q) (x p) (y p) = true) /\
  (forall qx qy, q = Some (qx, qy) ->
     inBounds (drawBounds points q) qx qy = true).
Proof.
  intros Hdef Hq.
  destruct (bounds_loop points emptyBounds eq_refl Hdef) as [Hw Hall].
  fold (pointBounds points) in Hw, Hall.
  destruct q as [[qx qy]|]; cbn [drawBounds].
  - cbn [definedQuery] in Hq. apply andb_prop in Hq.
    destruct Hq as [Hx Hy]. apply negb_true_iff in Hx, Hy.
    destruct (include_widens (pointBounds points) qx qy
                (within_defined _ _ Hw) Hx Hy) as [Hw' Hin].
    split.
    + intros p Hp. split; [apply Hall, Hp|].
      exact (inBounds_within _ _ _ _ Hw' (Hall p Hp)).
    + intros qx' qy' E. injection E as <- <-. exact Hin.
  - split; [|intros qx qy E; discriminate E].
    intros p Hp. split; apply Hall, Hp.
Qed.

(** [queryShown] with the query point (2, 2). *)
Lemma bounds_hold_every_point_witness :
  (forall p, In p queryShown ->
     inBounds (pointBounds queryShown) (x p) (y p) = true /\
     inBounds (drawBounds queryShown (Some (2, 2))) (x p) (y p) = true) /\
  (forall qx qy, Some (2, 2) = Some (qx, qy) ->
     inBounds (drawBounds queryShown (Some (2, 2))) qx qy = true).
Proof.
  apply (bounds_hold_every_point queryShown (Some (2, 2))); reflexivity.
Defined.

End BoundsFacts.

(** ** Degenerate placements *)

Module PlacementFacts.

Import NanFacts.

Lemma nan_bounds_x points :
  forall b,
    (is_nan (minX b) = true /\ is_nan (maxX b) = true) \/
    existsb (fun p => is_nan (x p)) points = true ->
    is_nan (minX (fold_left (fun b p => include b (x p) (y p)) points b))
      = true /\
    is_nan (maxX (fold_left (fun b p => include b (x p) (y p)) points b))
      = true.
Proof.
  induction points as [|p0 points IH]; intros b H.
  - destruct H as [H|H]; [exact H|discriminate H].
  - cbn [fold_left]. apply IH. cbn [existsb] in H.
    destruct H as [[H1 H2]|H].
    + left. unfold include. cbn [minX maxX].
      split; [apply nan_min_l, H1|apply nan_max_l, H2].
    + apply orb_prop in H. destruct H as [H|H]; [left|right; exact H].
      unfold include. cbn [minX maxX].
      split; [apply nan_min_r, H|apply nan_max_r, H].
Qed.

Lemma nan_bounds_y points :
  forall b,
    (is_nan (minY b) = true /\ is_nan (maxY b) = true) \/
    existsb (fun p => is_nan (y p)) points = true ->
    is_nan (minY (fold_left (fun b p => include b (x p) (y p)) points b))
      = true /\
    is_nan (maxY (fold_left (fun b p => include b (x p) (y p)) points b))
      = true.
Proof.
  induction points as [|p0 points IH]; intros b H.
  - destruct H as [H|H]; [exact H|discriminate H].
  - cbn [fold_left]. apply IH. cbn [existsb] in H.
    destruct H as [[H1 H2]|H].
    + left. unfold include. cbn [minY maxY].
      split; [apply nan_min_l, H1|apply nan_max_l, H2].
    + apply orb_prop in H. destruct H as [H|H]; [left|right; exact H].
      unfold include. cbn [minY maxY].
      split; [apply nan_min_r, H|apply nan_max_r, H].
Qed.

Lemma nan_transform_x b w h zoom pan px py :
  is_nan (minX b) = true ->
  is_nan (fst (transform b w h zoom pan px py)) = true.
Proof.
  intros H. unfold transform, tx. cbn [fst].
  auto 10 using nan_add_l, nan_mul_l, nan_sub_l, nan_div_l, nan_sub_r.
Qed.

Lemma nan_transform_y b w h zoom pan px py :
  is_nan (minY b) = true ->
  is_nan (snd (transform b w h zoom pan px py)) = true.
Proof.
  intros H. unfold transform, ty. cbn [snd].
  auto 12 using nan_add_l, nan_mul_l, nan_sub_l, nan_div_l, nan_sub_r.
Qed.

Lemma undefined_point points :
  existsb (fun p => negb (definedAt p)) points = true ->
  existsb (fun p => is_nan (x p)) points = true \/
  existsb (fun p => is_nan (y p)) points = true.
Proof.
  induction points as [|p0 points IH]; intros H; [discriminate H|].
  cbn [existsb] in *. apply orb_prop in H. destruct H as [H|H].
  - unfold definedAt in H. rewrite negb_andb, !negb_involutive in H.
    apply orb_prop in H. destruct H as [H|H]; rewrite H; auto.
  - destruct (IH H) as [E|E]; rewrite E, orb_true_r; auto.
Qed.

Lemma nan_pointBounds points :
  existsb (fun p => negb (definedAt p)) points = true ->
  is_nan (minX (pointBounds points)) = true \/
  is_nan (minY (pointBounds points)) = true.
Proof.
  intros H. destruct (undefined_point points H) as [E|E].
  - left. apply (nan_bounds_x points emptyBounds). right. exact E.
  - right. apply (nan_bounds_y points emptyBounds). right. exact E.
Qed.

Lemma nan_drawBounds points q :
  existsb (fun p => negb (definedAt p)) points = true ->
  is_nan (minX (drawBounds points q)) = true \/
  is_nan (minY (drawBounds points q)) = true.
Proof.
  intros H. destruct (nan_pointBounds points H) as [E|E];
    destruct q as [[qx qy]|]; cbn [drawBounds include minX minY]; auto;
    [left; apply nan_min_l, E|right; apply nan_min_l, E].
Qed.

Lemma nan_distance mouseX mouseY pos :
  offCanvas pos = true -> is_nan (distanceTo mouseX mouseY pos) = true.
Proof.
  unfold offCanvas, distanceTo. intros H. apply orb_prop in H.
  apply nan_sqrt. destruct H as [H|H].
  - apply nan_add_l, nan_sq, nan_sub_r, H.
  - apply nan_add_r, nan_sq, nan_sub_r, H.
Qed.

Lemma scan_nan dist points :
  (forall p, is_nan (dist p) = true) ->
  forall acc, fold_left (scanStep dist) points acc = acc.
Proof.
  intros Hnan. induction points as [|p points IH]; intros acc;
    [reflexivity|].
  cbn [fold_left]. unfold scanStep at 2.
  rewrite (nan_ltb_l _ _ (Hnan p)). apply IH.
Qed.

(** X8. One point with a NaN coordinate blanks the plot: every device
    position the draw effect computes, for any point and for the query
    point, has a NaN coordinate, and the hover search finds no point
    wherever the pointer is. *)
Theorem nan_coordinate_blanks_plot points q w h zoom pan :
  existsb (fun p => negb (definedAt p)) points = true ->
  (forall px py,
     offCanvas (transform (drawBounds points q) w h zoom pan px py) = true) /\
  (forall mouseX mouseY,
     hitTest mouseX mouseY points w h zoom pan = None).
Proof.
  intros H. split.
  - intros px py. unfold offCanvas. apply orb_true_iff.
    destruct (nan_drawBounds points q H) as [E|E].
    + left. apply nan_transform_x, E.
    + right. apply nan_transform_y, E.
  - intros mouseX mouseY. unfold hitTest, scan.
    rewrite scan_nan; [reflexivity|].
    intros p. unfold hoverDistance. apply nan_distance.
    rewrite HitTest.hoverPosition_transform.
    unfold offCanvas. apply orb_true_iff.
    destruct (nan_pointBounds points H) as [E|E].
    + left. apply nan_transform_x, E.
    + right. apply nan_transform_y, E.
Qed.

(** [brokenPoints] in a 600 by 300 canvas. *)
Lemma nan_coordinate_blanks_plot_witness :
  (forall px py,
     offCanvas (transform (drawBounds brokenPoints None) 600 300 1 (0, 0)
                  px py) = true) /\
  (forall mouseX mouseY,
     hitTest mouseX mouseY brokenPoints 600 300 1 (0, 0) = None).
Proof.
  apply (nan_coordinate_blanks_plot brokenPoints None 600 300 1 (0, 0)).
  reflexivity.
Defined.

Lemma min_self (a : number) : is_nan a = false -> Math_min a a = a.
Proof.
  intros H. unfold Math_min. rewrite H, ltb_irrefl. cbn [orb].
  destruct (isNegZero a); reflexivity.
Qed.

Lemma max_self (a : number) : is_nan a = false -> Math_max a a = a.
Proof.
  intros H. unfold Math_max. rewrite H, ltb_irrefl. cbn [orb].
  destruct (isPosZero a); reflexivity.
Qed.

Lemma finite_not_nan (a : number) : is_finite a = true -> is_nan a = false.
Proof.
  rewrite is_finite_SF, is_nan_false_SF. intros H E. rewrite E in H.
  exact H.
Qed.

Lemma min_infinity (a : number) :
  is_finite a = true -> Math_min infinity a = a.
Proof.
  intros H. unfold Math_min. rewrite (finite_not_nan a H).
  change (is_nan infinity) with false. cbn [orb].
  assert (E1 : (infinity <? a) = false /\ (a <? infinity) = true).
  { rewrite !ltb_spec. apply is_finite_SF in H.
    change (Prim2SF infinity) with (S754_infinity false).
    destruct (Prim2SF a) as [s|s| |s m e]; try contradiction;
      split; reflexivity. }
  destruct E1 as [-> ->]. reflexivity.
Qed.

Lemma max_neg_infinity (a : number) :
  is_finite a = true -> Math_max neg_infinity a = a.
Proof.
  intros H. unfold Math_max. rewrite (finite_not_nan a H).
  change (is_nan neg_infinity) with false. cbn [orb].
  assert (E1 : (a <? neg_infinity) = false /\ (neg_infinity <? a) = true).
  { rewrite !ltb_spec. apply is_finite_SF in H.
    change (Prim2SF neg_infinity) with (S754_infinity true).
    destruct (Prim2SF a) as [s|s| |s m e]; try contradiction;
      split; try reflexivity; destruct s; reflexivity. }
  destruct E1 as [-> ->]. reflexivity.
Qed.

Lemma stacked_loop x0 y0 points :
  is_nan x0 = false -> is_nan y0 = false ->
  (forall p, In p points -> x p = x0 /\ y p = y0) ->
  fold_left (fun b p => include b (x p) (y p)) points
    {| minX := x0; maxX := x0; minY := y0; maxY := y0 |}
  = {| minX := x0; maxX := x0; minY := y0; maxY := y0 |}.
Proof.
  intros Hx Hy. induction points as [|p points IH]; intros H;
    [reflexivity|].
  cbn [fold_left]. destruct (H p (or_introl eq_refl)) as [-> ->].
  unfold include at 2. cbn [minX maxX minY maxY].
  rewrite (min_self x0 Hx), (max_self x0 Hx),
          (min_self y0 Hy), (max_self y0 Hy).
  apply IH. intros p' Hp'. apply H. right. exact Hp'.
Qed.

Lemma stacked_bounds x0 y0 p points :
  is_finite x0 = true -> is_finite y0 = true ->
  (forall p', In p' (p :: points) -> x p' = x0 /\ y p' = y0) ->
  pointBounds (p :: points)
  = {| minX := x0; maxX := x0; minY := y0; maxY := y0 |}.
Proof.
  intros Hx Hy H. unfold pointBounds. cbn [fold_left].
  destruct (H p (or_introl eq_refl)) as [-> ->].
  unfold include at 2, emptyBounds. cbn [minX maxX minY maxY].
  rewrite (min_infinity x0 Hx), (max_neg_infinity x0 Hx),
          (min_infinity y0 Hy), (max_neg_infinity y0 Hy).
  apply stacked_loop; auto using finite_not_nan.
  intros p' Hp'. apply H. right. exact Hp'.
Qed.

(** A finite number minus itself is a zero. *)
Lemma sub_self_zero (a : number) :
  is_finite a = true -> is_zero (a - a) = true.
Proof.
  intros H. apply DegenerateFacts.is_zero_SF. rewrite sub_spec.
  apply is_finite_SF in H. apply SFsub_equal_zero; [exact H|].
  rewrite SFcompare_refl. destruct (Prim2SF a); try contradiction;
    reflexivity.
Qed.

Lemma zero_finite (a : number) : is_zero a = true -> is_finite a = true.
Proof.
  rewrite DegenerateFacts.is_zero_SF, is_finite_SF.
  destruct (Prim2SF a); simpl; auto.
Qed.

Lemma orElse_zero (a b : number) : is_zero a = true -> orElse a b = b.
Proof.
  intros H. unfold orElse, truthy. rewrite H, orb_true_r. reflexivity.
Qed.

(** A zero range puts the coordinate on the padding line. *)
Lemma flat_offset (d s : number) :
  is_zero d = true -> is_finite s = true ->
  d / orElse d 1 * s + padding = padding.
Proof.
  intros Hd Hs. rewrite (orElse_zero d 1 Hd).
  rewrite (DegenerateFacts.div_one d (zero_finite d Hd)).
  apply Prim2SF_inj. rewrite add_spec, mul_spec.
  apply DegenerateFacts.is_zero_SF in Hd. apply is_finite_SF in Hs.
  pose proof (SFmul_zero_l (Prim2SF d) (Prim2SF s) Hd Hs) as Hz.
  destruct (SF64mul (Prim2SF d) (Prim2SF s)) as [sz| | |];
    try contradiction.
  assert (E : exists m e, Prim2SF padding = S754_finite false m e)
    by (vm_compute; eauto).
  destruct E as [m [e ->]]. reflexivity.
Qed.

(** X9. Points that all share one finite position are not centred: the
    zero ranges are replaced by 1 and every point is drawn, and looked
    for by the hover search, at the bottom left corner of the padded
    area. *)
Theorem coinciding_points_sit_in_corner points x0 y0 w h zoom pan :
  is_finite x0 = true -> is_finite y0 = true ->
  is_finite (w - 2 * padding) = true ->
  is_finite (h - 2 * padding) = true ->
  (forall p, In p points -> x p = x0 /\ y p = y0) ->
  forall p, In p points ->
    transform (drawBounds points None) w h zoom pan (x p) (y p)
      = paddedCorner w h zoom pan /\
    hoverPosition points w h zoom pan p = paddedCorner w h zoom pan.
Proof.
  intros Hx Hy Hw Hh Hall p Hp.
  rewrite HitTest.hoverPosition_transform. cbn [drawBounds].
  assert (E : transform (pointBounds points) w h zoom pan (x p) (y p)
              = paddedCorner w h zoom pan); [|split; exact E].
  destruct points as [|p0 points]; [destruct Hp|].
  rewrite (stacked_bounds x0 y0 p0 points Hx Hy Hall).
  destruct (Hall p Hp) as [-> ->].
  unfold transform, tx, ty, rangeX, rangeY, paddedCorner.
  cbn [minX maxX minY maxY].
  rewrite (flat_offset (x0 - x0) (w - 2 * padding) (sub_self_zero x0 Hx) Hw).
  rewrite (flat_offset (y0 - y0) (h - 2 * padding) (sub_self_zero y0 Hy) Hh).
  reflexivity.
Qed.

(** The first of [stackedPoints] in a 600 by 300 canvas, seen at zoom
    2. *)
Lemma coinciding_points_sit_in_corner_witness :
  transform (drawBounds stackedPoints None) 600 300 2 (0, 0)
            (x (plainPoint 0.5 (-2) 1)) (y (plainPoint 0.5 (-2) 1))
    = paddedCorner 600 300 2 (0, 0) /\
  hoverPosition stackedPoints 600 300 2 (0, 0) (plainPoint 0.5 (-2) 1)
    = paddedCorner 600 300 2 (0, 0).
Proof.
  apply (coinciding_points_sit_in_corner stackedPoints 0.5 (-2)
           600 300 2 (0, 0)); try reflexivity.
  - intros p Hp. vm_compute in Hp.
    destruct Hp as [<-|[<-|[<-|[]]]]; split; reflexivity.
  - left. reflexivity.
Defined.

End PlacementFacts.

(** ** Shapes in the projection *)

Module ShapeFacts.

Import NanFacts.

Lemma length_accumulate data dim v : length (accumulate data dim v) = dim.
Proof.
  unfold accumulate.
  assert (H : forall acc,
            length (fold_left
                      (fun result row =>
                         let proj := dotProduct row v in
                         mapi (fun r i => r + idx row i * proj) result)
                      data acc) = length acc).
  { induction data as [|row data IH]; intros acc; [reflexivity|].
    cbn [fold_left]. rewrite IH. apply DegenerateFacts.length_mapi. }
  rewrite H. apply repeat_length.
Qed.

Lemma length_scaleDown v norm : length (scaleDown v norm) = length v.
Proof. apply length_map. Qed.

Lemma length_randomVector rand k dim : length (randomVector rand k dim) = dim.
Proof. unfold randomVector. rewrite length_map. apply length_seq. Qed.

Lemma length_removeComponent v pc1 :
  length (removeComponent v pc1) = length v.
Proof. apply DegenerateFacts.length_mapi. Qed.

Lemma length_powerStep data dim v :
  length v = dim -> length (powerStep data dim v) = dim.
Proof.
  intros Hv. unfold powerStep.
  destruct (EPS <? normOf (accumulate data dim v)); [|exact Hv].
  rewrite length_scaleDown. apply length_accumulate.
Qed.

Lemma length_powerStepOrthogonal data dim pc1 v :
  length v = dim -> length (powerStepOrthogonal data dim pc1 v) = dim.
Proof.
  intros Hv. unfold powerStepOrthogonal.
  destruct (EPS <? normOf (removeComponent (accumulate data dim v) pc1));
    [|exact Hv].
  rewrite length_scaleDown, length_removeComponent.
  apply length_accumulate.
Qed.

Lemma length_iter (f : list number -> list number) dim n :
  (forall v, length v = dim -> length (f v) = dim) ->
  forall v, length v = dim -> length (Nat.iter n f v) = dim.
Proof.
  intros Hf v Hv. induction n as [|n IH]; [exact Hv|].
  cbn [Nat.iter nat_rect]. apply Hf, IH.
Qed.

(** X10. Both power iterations return an axis with [dim] entries,
    whatever the lengths of the rows and of [pc1], and whether or not a
    round renormalises. *)
Theorem axes_have_dim_entries rand k data dim pc1 :
  length (fst (powerIteration rand k data dim)) = dim /\
  length (fst (powerIterationOrthogonal rand k data dim pc1)) = dim.
Proof.
  unfold powerIteration, powerIterationOrthogonal. cbn [fst]. split.
  - apply length_iter; [apply length_powerStep|].
    rewrite length_scaleDown. apply length_randomVector.
  - apply length_iter; [apply length_powerStepOrthogonal|].
    rewrite length_scaleDown, length_removeComponent.
    apply length_randomVector.
Qed.

Lemma length_meanOf all dim : length (meanOf all dim) = dim.
Proof.
  unfold meanOf.
  assert (H : forall acc,
            length (fold_left
                      (fun mean v =>
                         mapi (fun m i => m + idx v i / ofNat (length all))
                              mean)
                      all acc) = length acc).
  { generalize (ofNat (length all)) as n.
    induction all as [|v all' IH]; intros n acc; [reflexivity|].
    cbn [fold_left]. rewrite IH. apply DegenerateFacts.length_mapi. }
  rewrite H. apply repeat_length.
Qed.

Lemma idx_mapi (f : number -> nat -> number) (l : list number) d :
  (d < length l)%nat -> idx (mapi f l) d = f (idx l d) d.
Proof.
  intros Hd. unfold idx.
  assert (E : nth_error (mapi f l) d = Some (f (nth d l nan) d)).
  { rewrite DegenerateFacts.nth_error_mapi.
    rewrite (nth_error_nth' l nan Hd). reflexivity. }
  apply nth_error_nth with (d := nan) in E. exact E.
Qed.

Lemma idx_beyond (l : list number) d :
  (length l <= d)%nat -> is_nan (idx l d) = true.
Proof.
  intros H. unfold idx. rewrite nth_overflow by exact H. reflexivity.
Qed.

(** The entry of the mean at a position is the running sum of the
    vectors' entries there. *)
Lemma mean_entry (n : number) d all :
  forall acc,
    (d < length acc)%nat ->
    idx (fold_left (fun mean v => mapi (fun m i => m + idx v i / n) mean)
                   all acc) d
    = fold_left (fun m v => m + idx v d / n) all (idx acc d).
Proof.
  induction all as [|v all IH]; intros acc Hd; [reflexivity|].
  cbn [fold_left]. rewrite IH by (rewrite DegenerateFacts.length_mapi;
                                  exact Hd).
  rewrite idx_mapi by exact Hd. reflexivity.
Qed.

Lemma nan_running_sum (n : number) d all :
  forall m,
    is_nan m = true \/ (exists w, In w all /\ is_nan (idx w d) = true) ->
    is_nan (fold_left (fun m v => m + idx v d / n) all m) = true.
Proof.
  induction all as [|v all IH]; intros m H.
  - destruct H as [H|[w [[] _]]]. exact H.
  - cbn [fold_left]. apply IH.
    destruct H as [H|[w [[<-|Hw] Hn]]].
    + left. apply nan_add_l, H.
    + left. apply nan_add_r, nan_div_l, Hn.
    + right. exists w. split; assumption.
Qed.

Lemma nan_mean_entry all dim d w :
  (d < dim)%nat -> In w all -> (length w <= d)%nat ->
  is_nan (idx (meanOf all dim) d) = true.
Proof.
  intros Hd Hw Hlen. unfold meanOf.
  rewrite mean_entry by (rewrite repeat_length; exact Hd).
  apply nan_running_sum. right. exists w. split; [exact Hw|].
  apply idx_beyond, Hlen.
Qed.

Lemma nan_centred mean v d :
  (d < length v)%nat -> is_nan (idx mean d) = true ->
  exists c, In c (center mean v) /\ is_nan c = true.
Proof.
  intros Hd Hm. exists (idx (center mean v) d). split.
  - unfold idx. apply nth_In.
    unfold center. rewrite DegenerateFacts.length_mapi. exact Hd.
  - unfold center. rewrite idx_mapi by exact Hd. apply nan_sub_r, Hm.
Qed.

Lemma nan_dot_from (b : list number) (a : list number) :
  forall k s,
    is_nan s = true \/ (exists c, In c a /\ is_nan c = true) ->
    is_nan (fold_left (fun sum p => sum + snd p * idx b (fst p))
                      (combine (seq k (length a)) a) s) = true.
Proof.
  induction a as [|c0 a IH]; intros k s H.
  - destruct H as [H|[c [[] _]]]. exact H.
  - cbn [length seq combine fold_left fst snd]. apply IH.
    destruct H as [H|[c [[<-|Hc] Hn]]].
    + left. apply nan_add_l, H.
    + left. apply nan_add_r, nan_mul_l, Hn.
    + right. exists c. split; assumption.
Qed.

Lemma nan_dotProduct a b :
  (exists c, In c a /\ is_nan c = true) ->
  is_nan (dotProduct a b) = true.
Proof. intros H. apply nan_dot_from. right. exact H. Qed.

Lemma outOfShape_gap all v :
  outOfShape all v = true ->
  exists d, (d < length v)%nat /\
            is_nan (idx (meanOf all (dimOf all)) d) = true.
Proof.
  unfold outOfShape, shorterThan. intros H. apply orb_prop in H.
  destruct H as [H|H].
  - apply existsb_exists in H. destruct H as [w [Hw H]].
    apply andb_prop in H. destruct H as [H1 H2].
    apply Nat.ltb_lt in H1, H2. exists (length w). split; [exact H2|].
    apply (nan_mean_entry all (dimOf all) (length w) w H1 Hw (le_n _)).
  - apply Nat.ltb_lt in H. exists (dimOf all). split; [exact H|].
    apply idx_beyond. rewrite length_meanOf. apply le_n.
Qed.

Lemma outOfShape_projection rand vectors queryVector v :
  outOfShape (workingSet vectors queryVector) v = true ->
  projectionOf rand vectors queryVector v = (nan, nan).
Proof.
  intros H. apply outOfShape_gap in H. destruct H as [d [Hd Hm]].
  unfold projectionOf, project, meanIn.
  pose proof (nan_centred _ v d Hd Hm) as Hc.
  rewrite (is_nan_eq _ (nan_dotProduct _ (axis1 rand vectors queryVector) Hc)).
  rewrite (is_nan_eq _ (nan_dotProduct _ (axis2 rand vectors queryVector) Hc)).
  reflexivity.
Qed.

(** X11. Vectors of unequal lengths are not rejected: a vector that is
    longer than the first one, or longer than another vector that is
    itself shorter than the first one, is projected to (NaN, NaN),
    whatever the axes; the same holds for the query vector. *)
Theorem ragged_batch_projects_to_nan rand vectors queryVector :
  (forall i v,
     nth_error vectors i = Some v ->
     outOfShape (workingSet vectors queryVector) v = true ->
     nth_error (projected (projectTo2D rand vectors queryVector)) i
       = Some (nan, nan)) /\
  (forall q,
     vectors <> [] ->
     queryVector = Some q ->
     outOfShape (workingSet vectors queryVector) q = true ->
     queryProjected (projectTo2D rand vectors queryVector)
       = Some (nan, nan)).
Proof.
  split.
  - intros i v Hv Hs. destruct vectors as [|v0 vectors];
      [destruct i; discriminate Hv|].
    destruct (ProjectionShape.projectTo2D_cons rand v0 vectors queryVector)
      as [Hp _].
    rewrite Hp, nth_error_map, Hv. cbn [option_map].
    rewrite (outOfShape_projection rand _ _ v Hs). reflexivity.
  - intros q Hne Hq Hs. destruct vectors as [|v0 vectors];
      [contradiction Hne; reflexivity|].
    destruct (ProjectionShape.projectTo2D_cons rand v0 vectors queryVector)
      as [_ Hp].
    rewrite Hp. subst queryVector. cbn [option_map].
    rewrite (outOfShape_projection rand _ _ q Hs). reflexivity.
Qed.

(** The first vector of [raggedBatch], and a query vector with three
    entries. *)
Lemma ragged_batch_projects_to_nan_witness :
  nth_error (projected (projectTo2D draws raggedBatch (Some [1; 2; 3]))) 0
    = Some (nan, nan) /\
  queryProjected (projectTo2D draws raggedBatch (Some [1; 2; 3]))
    = Some (nan, nan).
Proof.
  destruct (ragged_batch_projects_to_nan draws raggedBatch (Some [1; 2; 3]))
    as [Hv Hq].
  split.
  - apply (Hv 0%nat [1; 2]); reflexivity.
  - apply (Hq [1; 2; 3]); [discriminate|reflexivity|reflexivity].
Defined.

End ShapeFacts.

(** ** Saturation of the zoom controls *)

Module SaturationFacts.

Import NanFacts.

Lemma ltb_asym (a b : number) : (a <? b) = true -> (b <? a) = false.
Proof.
  intros H. destruct (b <? a) eqn:E; [|reflexivity].
  pose proof (ltb_trans a b a H E) as K. rewrite ltb_irrefl in K.
  discriminate K.
Qed.

Lemma leb_not_ltb (a b : number) : (a <=? b) = true -> (b <? a) = false.
Proof.
  intros H. destruct (b <? a) eqn:E; [|reflexivity].
  rewrite (ltb_not_leb b a E) in H. discriminate H.
Qed.

Lemma ltb_not_nan_l (a b : number) : (a <? b) = true -> is_nan a = false.
Proof. intros H. exact (leb_not_nan_l a b (ltb_leb a b H)). Qed.

Lemma ltb_not_nan_r (a b : number) : (a <? b) = true -> is_nan b = false.
Proof. intros H. exact (leb_not_nan_r a b (ltb_leb a b H)). Qed.

(** Two numbers that compare equal, one of them a non-zero finite
    number, are the same float. *)
Lemma leb_antisym_finite (a b : number) s m e :
  Prim2SF a = S754_finite s m e ->
  (a <=? b) = true -> (b <? a) = false -> (a <? b) = false -> b = a.
Proof.
  intros Ha Hle H1 H2. apply leb_cmp in Hle. destruct Hle as [Hlt|Heq].
  - apply ltb_cmp in Hlt. rewrite Hlt in H2. discriminate H2.
  - apply Prim2SF_inj. unfold cmp in Heq. rewrite Ha in Heq |- *.
    exact (SFcompare_Eq_finite s m e _ Heq).
Qed.

Lemma clamp_inside (v : number) :
  inRange v = true -> clamp 0.2 5 v = v.
Proof.
  unfold inRange. intros H. apply andb_prop in H. destruct H as [Hlo Hhi].
  assert (Hv : is_nan v = false) by exact (leb_not_nan_l _ _ Hhi).
  assert (Hmin : Math_min 5 v = v).
  { unfold Math_min. rewrite Hv. change (is_nan 5) with false. cbn [orb].
    rewrite (leb_not_ltb v 5 Hhi).
    destruct (v <? 5); [reflexivity|].
    change (isNegZero 5) with false. reflexivity. }
  unfold clamp. rewrite Hmin.
  unfold Math_max. rewrite Hv. change (is_nan 0.2) with false. cbn [orb].
  rewrite (leb_not_ltb 0.2 v Hlo).
  destruct (0.2 <? v); [reflexivity|].
  change (isPosZero 0.2) with false. reflexivity.
Qed.

Lemma clamp_below (v : number) :
  (v <? 0.2) = true -> clamp 0.2 5 v = 0.2.
Proof.
  intros H.
  assert (Hv : is_nan v = false) by exact (ltb_not_nan_l _ _ H).
  assert (H5 : (v <? 5) = true)
    by (apply (ltb_trans v 0.2 5 H); reflexivity).
  unfold clamp, Math_min. rewrite Hv. change (is_nan 5) with false.
  cbn [orb]. rewrite (ltb_asym v 5 H5), H5.
  unfold Math_max. rewrite Hv. change (is_nan 0.2) with false. cbn [orb].
  rewrite H. reflexivity.
Qed.

Lemma clamp_above (v : number) :
  (5 <? v) = true -> clamp 0.2 5 v = 5.
Proof.
  intros H.
  assert (Hv : is_nan v = false) by exact (ltb_not_nan_r _ _ H).
  unfold clamp, Math_min. rewrite Hv. change (is_nan 5) with false.
  cbn [orb]. rewrite H. vm_compute. reflexivity.
Qed.

Lemma clamp_nan (v : number) :
  is_nan v = true -> is_nan (clamp 0.2 5 v) = true.
Proof. intros H. unfold clamp. apply nan_max_r, nan_min_r, H. Qed.

Lemma min_5_below (v : number) : (v <? 5) = true -> Math_min v 5 = v.
Proof.
  intros H. unfold Math_min. rewrite (ltb_not_nan_l _ _ H), H.
  change (is_nan 5) with false. reflexivity.
Qed.

Lemma min_5_above (v : number) : (5 <=? v) = true -> Math_min v 5 = 5.
Proof.
  intros H. unfold Math_min. rewrite (leb_not_nan_r _ _ H).
  change (is_nan 5) with false. cbn [orb].
  rewrite (leb_not_ltb 5 v H).
  destruct (5 <? v) eqn:E; [reflexivity|].
  rewrite (leb_antisym_finite 5 v _ _ _ ZoomFacts.Prim2SF_5 H
             (leb_not_ltb 5 v H) E).
  vm_compute. reflexivity.
Qed.

Lemma max_0_2_above (v : number) : (0.2 <? v) = true -> Math_max v 0.2 = v.
Proof.
  intros H. unfold Math_max. rewrite (ltb_not_nan_r _ _ H), H.
  change (is_nan 0.2) with false. reflexivity.
Qed.

Lemma max_0_2_below (v : number) :
  (v <=? 0.2) = true -> Math_max v 0.2 = 0.2.
Proof.
  intros H. unfold Math_max. rewrite (leb_not_nan_l _ _ H).
  change (is_nan 0.2) with false. cbn [orb].
  rewrite (leb_not_ltb v 0.2 H).
  destruct (v <? 0.2) eqn:E; [reflexivity|].
  assert (K : (0.2 <=? v) = true).
  { apply ltb_false_leb; [exact (leb_not_nan_l _ _ H)|reflexivity|exact E]. }
  rewrite (leb_antisym_finite 0.2 v _ _ _ ZoomFacts.Prim2SF_0_2 K E
             (leb_not_ltb v 0.2 H)).
  vm_compute. reflexivity.
Qed.

(** X12. The zoom controls multiply and saturate. A wheel turn sets the
    zoom to [zoom * 0.9] (wheel down) or [zoom * 1.1] when that lies in
    [0.2, 5], to 0.2 below and to 5 above; the zoom-in button sets
    [zoom * 1.2] below 5 and 5 from there on; the zoom-out button sets
    [zoom / 1.2] above 0.2 and 0.2 from there down. A NaN zoom stays
    NaN under the wheel. *)
Theorem zoom_controls_saturate st e :
  (inRange (zoom st * (if 0 <? deltaY e then 0.9 else 1.1)) = true ->
   zoom (handleWheel st e)
     = zoom st * (if 0 <? deltaY e then 0.9 else 1.1)) /\
  ((zoom st * (if 0 <? deltaY e then 0.9 else 1.1) <? 0.2) = true ->
   zoom (handleWheel st e) = 0.2) /\
  ((5 <? zoom st * (if 0 <? deltaY e then 0.9 else 1.1)) = true ->
   zoom (handleWheel st e) = 5) /\
  (is_nan (zoom st) = true -> is_nan (zoom (handleWheel st e)) = true) /\
  ((zoom st * 1.2 <? 5) = true ->
   zoom (handleZoomIn st) = zoom st * 1.2) /\
  ((5 <=? zoom st * 1.2) = true -> zoom (handleZoomIn st) = 5) /\
  ((0.2 <? zoom st / 1.2) = true ->
   zoom (handleZoomOut st) = zoom st / 1.2) /\
  ((zoom st / 1.2 <=? 0.2) = true -> zoom (handleZoomOut st) = 0.2).
Proof.
  unfold handleWheel, handleZoomIn, handleZoomOut, withZoom. cbn [zoom].
  fold (clamp 0.2 5 (zoom st * (if 0 <? deltaY e then 0.9 else 1.1))).
  repeat split.
  - apply clamp_inside.
  - apply clamp_below.
  - apply clamp_above.
  - intros H. apply clamp_nan, nan_mul_l, H.
  - apply min_5_below.
  - apply min_5_above.
  - apply max_0_2_above.
  - apply max_0_2_below.
Qed.

End SaturationFacts.

(** ** Text to query vector *)

Module ExplorerFacts.

Local Open Scope Z_scope.

Lemma toInt32_range (z : Z) : - 2 ^ 31 <= toInt32 z < 2 ^ 31.
Proof.
  unfold toInt32.
  pose proof (Z.mod_pos_bound (z + 2 ^ 31) (2 ^ 32) eq_refl). lia.
Qed.

Lemma hashOf_range (word : list CodeUnit) :
  - 2 ^ 31 <= hashOf word < 2 ^ 31.
Proof.
  unfold hashOf.
  assert (H : forall h, - 2 ^ 31 <= h < 2 ^ 31 ->
                        - 2 ^ 31 <= fold_left hashStep word h < 2 ^ 31).
  { induction word as [|c word IH]; intros h Hh; [exact Hh|].
    cbn [fold_left]. apply IH. apply toInt32_range. }
  apply H. lia.
Qed.

Lemma bucket_below (word : list CodeUnit) (dimensions i : nat) :
  bucket word dimensions = Some i -> (i < dimensions)%nat.
Proof.
  unfold bucket. destruct dimensions as [|d]; [discriminate|].
  intros H. injection H as <-.
  pose proof (Z.mod_pos_bound (Z.abs (hashOf word)) (Z.of_nat (S d))).
  lia.
Qed.

Local Close Scope Z_scope.

Lemma length_bump (vector : list number) :
  forall i, length (bump vector i) = length vector.
Proof.
  induction vector as [|a rest IH]; intros [|i]; cbn [bump length];
    try reflexivity.
  rewrite IH. reflexivity.
Qed.

Lemma length_countWord dimensions vector word :
  length (countWord dimensions vector word) = length vector.
Proof.
  unfold countWord. destruct (bucket word dimensions);
    [apply length_bump|reflexivity].
Qed.

Lemma length_counts dimensions words :
  forall vector,
    length (fold_left (countWord dimensions) words vector) = length vector.
Proof.
  induction words as [|w words IH]; intros vector; [reflexivity|].
  cbn [fold_left]. rewrite IH. apply length_countWord.
Qed.

(** X13. The query vector has exactly [dimensions] entries, whatever the
    text: every word falls into a bucket below [dimensions], its hash
    being a 32-bit integer, so no write lands outside the array. *)
Theorem textToVector_has_dimensions lowered dimensions :
  length (textToVector lowered dimensions) = dimensions /\
  forall word,
    (- 2 ^ 31 <= hashOf word < 2 ^ 31)%Z /\
    forall i, bucket word dimensions = Some i -> (i < dimensions)%nat.
Proof.
  split.
  - unfold textToVector. cbv zeta.
    destruct (0 <? normOfCounts _);
      rewrite ?length_map, length_counts; apply repeat_length.
  - intros word. split; [apply hashOf_range|].
    intros i. apply bucket_below.
Qed.

Lemma zero_norm dimensions : normOfCounts (repeat 0 dimensions) = 0.
Proof.
  unfold normOfCounts.
  assert (H : fold_left (fun sum a => sum + a * a) (repeat 0 dimensions) 0
              = 0).
  { induction dimensions as [|d IH]; [reflexivity|].
    cbn [repeat fold_left].
    change (0 + 0 * 0) with 0. exact IH. }
  rewrite H. reflexivity.
Qed.

(** X14. A text without a word of two or more characters gives the zero
    vector, not normalised: its norm 0 fails the test [norm > 0]. *)
Theorem wordless_text_gives_zero_vector lowered dimensions :
  wordsOf lowered = [] ->
  textToVector lowered dimensions = repeat 0 dimensions.
Proof.
  intros H. unfold textToVector. rewrite H. cbn [fold_left].
  cbv zeta. rewrite zero_norm. reflexivity.
Qed.

(** The text ["a b c"] in four dimensions. *)
Lemma wordless_text_gives_zero_vector_witness :
  textToVector text_a_b_c 4 = repeat 0 4.
Proof.
  apply (wordless_text_gives_zero_vector text_a_b_c 4). reflexivity.
Defined.

Lemma bump_comm (vector : list number) :
  forall i j, bump (bump vector i) j = bump (bump vector j) i.
Proof.
  induction vector as [|a rest IH]; intros [|i] [|j]; cbn [bump];
    try reflexivity.
  rewrite IH. reflexivity.
Qed.

Lemma countWord_comm dimensions vector w1 w2 :
  countWord dimensions (countWord dimensions vector w1) w2 =
  countWord dimensions (countWord dimensions vector w2) w1.
Proof.
  unfold countWord.
  destruct (bucket w1 dimensions), (bucket w2 dimensions);
    try reflexivity. apply bump_comm.
Qed.

Lemma counts_permuted dimensions words1 words2 :
  Permutation words1 words2 ->
  forall vector,
    fold_left (countWord dimensions) words1 vector =
    fold_left (countWord dimensions) words2 vector.
Proof.
  induction 1 as [|w l1 l2 _ IH|w1 w2 l|l1 l2 l3 _ IH1 _ IH2];
    intros vector.
  - reflexivity.
  - cbn [fold_left]. apply IH.
  - cbn [fold_left]. rewrite countWord_comm. reflexivity.
  - rewrite IH1. apply IH2.
Qed.

(** X15. The query vector is a bag-of-words feature: two texts with the
    same words, in any order and with any white space between them,
    give the same vector. *)
Theorem textToVector_ignores_word_order lowered1 lowered2 dimensions :
  Permutation (wordsOf lowered1) (wordsOf lowered2) ->
  textToVector lowered1 dimensions = textToVector lowered2 dimensions.
Proof.
  intros H. unfold textToVector.
  rewrite (counts_permuted dimensions _ _ H). reflexivity.
Qed.

(** ["ab cd"] and ["cd  ab "] in four dimensions. *)
Lemma textToVector_ignores_word_order_witness :
  textToVector text_ab_cd 4 = textToVector text_cd_ab 4.
Proof.
  apply (textToVector_ignores_word_order text_ab_cd text_cd_ab 4).
  apply perm_swap.
Defined.

End ExplorerFacts.
